(** * Accu-Chek glucometer bridge: the measurement decoder, the reading
    store and the acquisition loop of [server.py], embedded in Rocq.

    The embedding follows the Python source function by function.
    - Python [int] is [Z]; Python [float] is IEEE-754 binary64, taken from
      the reference implementation [SpecFloat] of the standard library
      (precision 53, exponent bound 1024).
    - A BLE payload ([bytearray]) is a [list byte].
    - Exceptions are values of [exn]; pure code lives in [result], code
      that touches the globals, the CSV file or stdout lives in the
      state-and-exception monad [M].
    - [ble_loop] never returns by itself; it is run over a finite list of
      environment scripts, one per iteration, and reports whether it is
      still running afterwards. *)

From Stdlib Require Import ZArith List String Ascii Bool Lia QArith Qabs.
From Stdlib Require Import Init.Byte.
From Stdlib Require Import Floats.SpecFloat.
From Stdlib Require Import DecimalString.
Import ListNotations.
Open Scope Z_scope.

(* ------------------------------------------------------------------ *)
(** ** Exceptions and the pure error monad *)

Inductive exn_class :=
| IndexError | StructError | OverflowError | ValueError | ZeroDivisionError
| OSError | BleakError | TimeoutError
| CancelledError | KeyboardInterrupt.

Inductive exn := Exn (c : exn_class) (msg : string).

Definition exn_msg (e : exn) : string := let 'Exn _ m := e in m.

(** [except Exception] catches every class deriving from [Exception];
    [asyncio.CancelledError] and [KeyboardInterrupt] derive from
    [BaseException] only. *)
Definition is_Exception (e : exn) : bool :=
  match e with
  | Exn CancelledError _ | Exn KeyboardInterrupt _ => false
  | _ => true
  end.

Inductive result (A : Type) := Ok (a : A) | Raise (e : exn).
Arguments Ok {A} a.
Arguments Raise {A} e.

Definition rbind {A B} (r : result A) (k : A -> result B) : result B :=
  match r with
  | Ok a => k a
  | Raise e => Raise e
  end.

Declare Scope result_scope.
Delimit Scope result_scope with result.
Notation "x <- r ;; k" := (rbind r (fun x => k))
  (at level 61, r at next level, right associativity) : result_scope.

(* ------------------------------------------------------------------ *)
(** ** Python numbers *)

Definition prec : Z := 53.
Definition emax : Z := 1024.

Inductive pynum := PyInt (z : Z) | PyFloat (f : spec_float).

(** The binary64 number nearest to [n/d] (ties to even), with sign [s].
    [SFdiv] rounds the exact quotient once, for mantissas of any size. *)
Definition float_of_ratio (s : bool) (n d : positive) : spec_float :=
  SFdiv prec emax (S754_finite s n 0) (S754_finite false d 0).

(** [float(z)]: [PyLong_AsDouble], round to nearest even. *)
Definition float_of_int (z : Z) : result spec_float :=
  match binary_normalize prec emax z 0 false with
  | S754_infinity _ => Raise (Exn OverflowError "int too large to convert to float")
  | f => Ok f
  end.

Definition float_is_zero (f : spec_float) : bool :=
  match f with S754_zero _ => true | _ => false end.

(** The exact value [num/den] of a finite non-zero magnitude [m * 2^e]. *)
Definition ratio_of_finite (m : positive) (e : Z) : Z * positive :=
  match e with
  | Z0 => (Zpos m, 1%positive)
  | Zpos p => (Zpos m * 2 ^ Zpos p, 1%positive)
  | Zneg p => (Zpos m, (2 ^ p)%positive)
  end.

(** The exact rational value of a float; [None] for nan and infinities. *)
Definition float_exact (f : spec_float) : option Q :=
  match f with
  | S754_zero _ => Some (0 # 1)%Q
  | S754_finite s m e =>
      let '(n, d) := ratio_of_finite m e in
      Some ((if s then - n else n) # d)%Q
  | _ => None
  end.

(** The integer nearest to [n/d] for [n >= 0], ties to the even one. *)
Definition round_half_even (n : Z) (d : positive) : Z :=
  let q := n / Zpos d in
  let r := n mod Zpos d in
  match 2 * r ?= Zpos d with
  | Lt => q
  | Gt => q + 1
  | Eq => if Z.even q then q else q + 1
  end.

(** [a * b] *)
Definition py_mul (a b : pynum) : result pynum :=
  match a, b with
  | PyInt x, PyInt y => Ok (PyInt (x * y))
  | PyInt x, PyFloat g => (f <- float_of_int x ;; Ok (PyFloat (SFmul prec emax f g)))%result
  | PyFloat f, PyInt y => (g <- float_of_int y ;; Ok (PyFloat (SFmul prec emax f g)))%result
  | PyFloat f, PyFloat g => Ok (PyFloat (SFmul prec emax f g))
  end.

(** [a / b] (true division) *)
Definition float_div (f g : spec_float) : result pynum :=
  if float_is_zero g then Raise (Exn ZeroDivisionError "float division by zero")
  else Ok (PyFloat (SFdiv prec emax f g)).

Definition py_truediv (a b : pynum) : result pynum :=
  match a, b with
  | PyInt x, PyInt y =>
      match x, y with
      | _, Z0 => Raise (Exn ZeroDivisionError "division by zero")
      | Z0, _ => Ok (PyFloat (S754_zero (y <? 0)))
      | _, _ =>
          match float_of_ratio (xorb (x <? 0) (y <? 0)) (Z.to_pos (Z.abs x)) (Z.to_pos (Z.abs y)) with
          | S754_infinity _ => Raise (Exn OverflowError "integer division result too large for a float")
          | q => Ok (PyFloat q)
          end
      end
  | PyInt x, PyFloat g => (f <- float_of_int x ;; float_div f g)%result
  | PyFloat f, PyInt y => (g <- float_of_int y ;; float_div f g)%result
  | PyFloat f, PyFloat g => float_div f g
  end.

(** [10 ** e] for an [int] exponent.  A non-negative exponent stays in
    [int].  A negative exponent goes through the C library's
    [pow(10.0, e)]; for the exponents -1 .. -8 that a 4-bit field can
    produce, that is the double nearest to [10^e], which is what the
    model returns. *)
Definition pow10 (e : Z) : pynum :=
  if 0 <=? e then PyInt (10 ^ e)
  else PyFloat (float_of_ratio false 1 (Z.to_pos (10 ^ (- e)))).

(** [round(x)]: an [int]; a float is rounded half to even. *)
Definition py_round (x : pynum) : result Z :=
  match x with
  | PyInt z => Ok z
  | PyFloat (S754_zero _) => Ok 0
  | PyFloat (S754_finite s m e) =>
      let '(n, d) := ratio_of_finite m e in
      let r := round_half_even n d in
      Ok (if s then - r else r)
  | PyFloat (S754_infinity _) => Raise (Exn OverflowError "cannot convert float infinity to integer")
  | PyFloat S754_nan => Raise (Exn ValueError "cannot convert float NaN to integer")
  end.

(** [round(x, ndigits)] for [ndigits >= 0]: an [int] is returned as it
    is; a float is rounded half to even, on its exact value, to
    [ndigits] decimals, and the decimal is read back as a double. *)
Definition py_round_ndigits (x : pynum) (ndigits : N) : result pynum :=
  match x with
  | PyInt z => Ok (PyInt z)
  | PyFloat (S754_finite s m e) =>
      let '(n, d) := ratio_of_finite m e in
      let scale := Z.to_pos (10 ^ Z.of_N ndigits) in
      match round_half_even (n * Zpos scale) d with
      | Zpos r =>
          match float_of_ratio s r scale with
          | S754_infinity _ => Raise (Exn OverflowError "rounded value too large to represent")
          | f => Ok (PyFloat f)
          end
      | _ => Ok (PyFloat (S754_zero s))
      end
  | PyFloat f => Ok (PyFloat f)
  end.

(* ------------------------------------------------------------------ *)
(** ** [str] of numbers *)

Definition str_int (z : Z) : string := NilZero.string_of_int (Z.to_int z).

Fixpoint zeros (n : nat) : string :=
  match n with
  | O => ""
  | S k => String "0" (zeros k)
  end.

Fixpoint string_rev_onto (s acc : string) : string :=
  match s with
  | EmptyString => acc
  | String c s' => string_rev_onto s' (String c acc)
  end.

Definition string_rev (s : string) : string := string_rev_onto s "".

Fixpoint drop_leading_zeros (s : string) : string :=
  match s with
  | String "0" s' => drop_leading_zeros s'
  | _ => s
  end.

Definition strip_trailing_zeros (s : string) : string :=
  string_rev (drop_leading_zeros (string_rev s)).

(** Is [n/d < 10^p] ? *)
Definition below_pow10 (n : Z) (d : positive) (p : Z) : bool :=
  if 0 <=? p then n <? Zpos d * 10 ^ p else n * 10 ^ (- p) <? Zpos d.

(** The decimal point position of [n/d > 0]: the least [p], searched
    upwards from [p], with [n/d < 10^p]. *)
Fixpoint decpt_from (fuel : nat) (p : Z) (n : Z) (d : positive) : Z :=
  match fuel with
  | O => p
  | S k => if below_pow10 n d p then p else decpt_from k (p + 1) n d
  end.

Definition decpt_of (n : Z) (d : positive) : Z := decpt_from 640 (-324) n d.

(** [c * 10^k] read back as a double of sign [false]. *)
Definition float_of_decimal (c : positive) (k : Z) : spec_float :=
  if 0 <=? k then float_of_ratio false (c * Z.to_pos (10 ^ k)) 1
  else float_of_ratio false c (Z.to_pos (10 ^ (- k))).

Definition same_magnitude (f : spec_float) (m : positive) (e : Z) : bool :=
  match f with
  | S754_finite _ m' e' => Pos.eqb m m' && Z.eqb e e'
  | _ => false
  end.

(** The shortest decimal that reads back as [m * 2^e]: for 1, 2, ... 17
    digits, the two neighbours of the value with that many digits are
    tried, and of those that read back as the value the nearer one is
    taken.  The result is the digit string and the position of the
    decimal point (value = 0.d1d2... * 10^decpt). *)
Fixpoint shortest_digits (fuel : nat) (ndig : Z) (m : positive) (e : Z)
    (n : Z) (d : positive) (p : Z) : string * Z :=
  let k := p - ndig in
  (* y = n/d * 10^(-k) = yn / yd *)
  let yn := if 0 <=? k then n else n * 10 ^ (- k) in
  let yd := if 0 <=? k then Zpos d * 10 ^ k else Zpos d in
  let lo := yn / yd in
  let hi := lo + 1 in
  let ok c := same_magnitude (float_of_decimal (Z.to_pos c) k) m e in
  let emit c :=
    let ds := str_int c in
    (strip_trailing_zeros ds, p + (Z.of_nat (String.length ds) - ndig)) in
  match fuel with
  | O => emit (round_half_even yn (Z.to_pos yd))
  | S fuel' =>
      match ok lo, ok hi with
      | true, true => emit (round_half_even yn (Z.to_pos yd))
      | true, false => emit lo
      | false, true => emit hi
      | false, false => shortest_digits fuel' (ndig + 1) m e n d p
      end
  end.

Definition string_head (s : string) : string :=
  match s with
  | EmptyString => ""
  | String c _ => String c ""
  end.

Definition string_tail (s : string) : string :=
  match s with
  | EmptyString => ""
  | String _ s' => s'
  end.

(** The exponent of the [e] notation: a sign and at least two digits. *)
Definition str_exponent (x : Z) : string :=
  ((if (x <? 0)%Z then "-" else "+") ++
   (if (Z.abs x <? 10)%Z then "0" else "") ++ str_int (Z.abs x))%string.

(** [repr] of a positive finite double, from its shortest digits:
    fixed notation when [-4 < decpt <= 16], [e] notation otherwise. *)
Definition format_repr (ds : string) (decpt : Z) : string :=
  let len := Z.of_nat (String.length ds) in
  (if ((decpt <=? -4) || (16 <? decpt))%Z then
     string_head ds ++
     (if (1 <? len)%Z then "." ++ string_tail ds else "") ++
     "e" ++ str_exponent (decpt - 1)
   else if (decpt <=? 0)%Z then
     "0." ++ zeros (Z.to_nat (- decpt)) ++ ds
   else if (len <=? decpt)%Z then
     ds ++ zeros (Z.to_nat (decpt - len)) ++ ".0"
   else
     substring 0 (Z.to_nat decpt) ds ++ "." ++
     substring (Z.to_nat decpt) (Z.to_nat (len - decpt)) ds)%string.

Definition str_float (f : spec_float) : string :=
  match f with
  | S754_nan => "nan"
  | S754_infinity s => if s then "-inf" else "inf"
  | S754_zero s => if s then "-0.0" else "0.0"
  | S754_finite s m e =>
      let '(n, d) := ratio_of_finite m e in
      let '(ds, decpt) := shortest_digits 16 1 m e n d (decpt_of n d) in
      ((if s then "-" else "") ++ format_repr ds decpt)%string
  end.

(** [str(x)] *)
Definition py_str (x : pynum) : string :=
  match x with
  | PyInt z => str_int z
  | PyFloat f => str_float f
  end.

(* ------------------------------------------------------------------ *)
(** ** Byte buffers *)

Definition byte_val (b : byte) : Z := Z.of_N (Byte.to_N b).

(** [data[i]] *)
Definition index (data : list byte) (i : nat) : result Z :=
  match nth_error data i with
  | Some b => Ok (byte_val b)
  | None => Raise (Exn IndexError "bytearray index out of range")
  end.

(** [data[i:j]]: a slice is clipped to the buffer, it never raises. *)
Definition slice (data : list byte) (i j : nat) : list byte :=
  firstn (j - i) (skipn i data).

(** [struct.unpack('<H', b)[0]] *)
Definition unpack_H (b : list byte) : result Z :=
  match b with
  | [lo; hi] => Ok (Z.lor (byte_val lo) (Z.shiftl (byte_val hi) 8))
  | _ => Raise (Exn StructError "unpack requires a buffer of 2 bytes")
  end.

(** [f"{n:02d}"] *)
Definition format_02d (n : Z) : string :=
  ((if (0 <=? n)%Z && (n <? 10)%Z then "0" else "") ++ str_int n)%string.

(* ------------------------------------------------------------------ *)
(** ** The measurement decoder: [parse_glucose] *)

(** Lines 100-109: the two fields of the SFLOAT word, sign-extended. *)
Definition sfloat_mantissa (raw_sfloat : Z) : Z :=
  let mantissa := Z.land raw_sfloat 0x0FFF in
  if 0x0800 <=? mantissa then - (0x1000 - mantissa) else mantissa.

Definition sfloat_exponent (raw_sfloat : Z) : Z :=
  let exponent := Z.shiftr raw_sfloat 12 in
  if 0x08 <=? exponent then - (0x10 - exponent) else exponent.

(** Line 111: [val = mantissa * (10 ** exponent)] *)
Definition sfloat_value (raw_sfloat : Z) : result pynum :=
  py_mul (PyInt (sfloat_mantissa raw_sfloat)) (pow10 (sfloat_exponent raw_sfloat)).

Definition c_18_0182 : pynum := PyFloat (float_of_ratio false 180182 10000).

(** Lines 113-124: the two glucose fields, from [val] and the unit flag. *)
Definition glucose_fields (concentration_unit_kg_l : bool) (val : pynum)
  : result (Z * pynum) :=
  (if concentration_unit_kg_l then
     x <- py_mul val (PyInt 100000) ;;
     mgdl <- py_round x ;;
     q <- py_truediv (PyInt mgdl) c_18_0182 ;;
     mmol <- py_round_ndigits q 1 ;;
     Ok (mgdl, mmol)
   else
     x <- py_mul val (PyInt 1000) ;;
     mmol <- py_round_ndigits x 1 ;;
     y <- py_mul mmol c_18_0182 ;;
     mgdl <- py_round y ;;
     Ok (mgdl, mmol))%result.

Definition format_timestamp (year month day hours minutes seconds : Z) : string :=
  (str_int year ++ "-" ++ format_02d month ++ "-" ++ format_02d day ++ " " ++
   format_02d hours ++ ":" ++ format_02d minutes ++ ":" ++ format_02d seconds)%string.

(** The returned tuple [(dt_str, mgdl, mmol)]. *)
Record reading := mkReading {
  dt_str : string;
  mgdl : Z;
  mmol : pynum
}.

Definition parse_glucose (data : list byte) : result reading :=
  (flags <- index data 0 ;;
   let time_offset_present := Z.land flags 0x01 =? 1 in
   let type_sample_location_present := Z.land flags 0x02 =? 2 in
   let concentration_unit_kg_l := Z.land flags 0x04 =? 0 in
   let offset := 1%nat in
   let offset := (offset + 2)%nat in
   year <- unpack_H (slice data offset (offset + 2)) ;;
   month <- index data (offset + 2) ;;
   day <- index data (offset + 3) ;;
   hours <- index data (offset + 4) ;;
   minutes <- index data (offset + 5) ;;
   seconds <- index data (offset + 6) ;;
   let offset := (offset + 7)%nat in
   let offset := if time_offset_present then (offset + 2)%nat else offset in
   let dt_str := format_timestamp year month day hours minutes seconds in
   raw_sfloat <- unpack_H (slice data offset (offset + 2)) ;;
   val <- sfloat_value raw_sfloat ;;
   g <- glucose_fields concentration_unit_kg_l val ;;
   Ok (mkReading dt_str (fst g) (snd g)))%result.

(* ------------------------------------------------------------------ *)
(** ** Global state, the CSV file and stdout *)

(** One element of [readings_cache]: the dict with the keys
    ["timestamp"], ["mgdl"] and ["mmol"]. *)
Record row := mkRow {
  row_timestamp : string;
  row_mgdl : string;
  row_mmol : string
}.

(** What the process does that an observer can see, in order. *)
Inductive event :=
| EStatus (s : string)          (* latest_status = s *)
| EPrint (s : string)           (* print(s) *)
| EScan (timeout : Z)           (* BleakScanner.find_device_by_filter *)
| EConnect (timeout : Z)        (* BleakClient.__aenter__ *)
| EStartNotify
| EStopNotify
| EDisconnect                   (* BleakClient.__aexit__ *)
| ESleep (seconds : Z).         (* asyncio.sleep *)

Record world := mkWorld {
  latest_status : string;
  readings_cache : list row;
  csv_file : option (list (list string));  (* rows of sugar_readings.csv *)
  trace : list event                       (* oldest first *)
}.

Definition M (A : Type) : Type := world -> result A * world.

Definition ret {A} (a : A) : M A := fun w => (Ok a, w).

Definition bind {A B} (m : M A) (k : A -> M B) : M B :=
  fun w =>
    match m w with
    | (Ok a, w') => k a w'
    | (Raise e, w') => (Raise e, w')
    end.

Declare Scope M_scope.
Delimit Scope M_scope with M.
Notation "x <- m ;; k" := (bind m (fun x => k))
  (at level 61, m at next level, right associativity) : M_scope.
Notation "m ;; k" := (bind m (fun _ => k))
  (at level 61, right associativity) : M_scope.

Definition lift {A} (r : result A) : M A := fun w => (r, w).

Definition log (ev : event) (w : world) : world :=
  mkWorld (latest_status w) (readings_cache w) (csv_file w) (trace w ++ [ev]).

Definition print (s : string) : M unit := fun w => (Ok tt, log (EPrint s) w).

Definition set_latest_status (s : string) : M unit :=
  fun w => (Ok tt, log (EStatus s)
                     (mkWorld s (readings_cache w) (csv_file w) (trace w))).

Definition set_readings_cache (rows : list row) : M unit :=
  fun w => (Ok tt, mkWorld (latest_status w) rows (csv_file w) (trace w)).

(** [try: body except Exception as e: handler(e)] *)
Definition try_except {A} (body : M A) (handler : exn -> M A) : M A :=
  fun w =>
    match body w with
    | (Raise e, w') => if is_Exception e then handler e w' else (Raise e, w')
    | ok => ok
    end.

(** An awaited call into the environment: the event is recorded and the
    environment's answer (a value or an exception) is delivered. *)
Definition await {A} (ev : event) (answer : result A) : M A :=
  fun w => (answer, log ev w).

(** [async with enter as x: body]: [exit] runs however [body] ends, and
    an exception of [exit] replaces the one of [body]. *)
Definition async_with {A B} (enter : M A) (exit : M unit) (body : A -> M B) : M B :=
  fun w =>
    match enter w with
    | (Raise e, w1) => (Raise e, w1)
    | (Ok x, w1) =>
        match body x w1 with
        | (r, w2) =>
            match exit w2 with
            | (Ok _, w3) => (r, w3)
            | (Raise e, w3) => (Raise e, w3)
            end
        end
    end.

(** [/api/data]: the snapshot handed to the query surface. *)
Definition get_data (w : world) : string * list row :=
  (latest_status w, readings_cache w).

(* ------------------------------------------------------------------ *)
(** ** The persistence sink and the store: [save_reading] *)

(** What the file system answers when the CSV file is rewritten. *)
Inductive io_outcome :=
| IoOk
| IoOpenFails (e : exn)    (* open(CSV_FILE, 'w') raises: file untouched *)
| IoWriteFails (e : exn).  (* a write raises after the file was truncated *)

Definition write_csv (io : io_outcome) (rows : list (list string)) : M unit :=
  fun w =>
    match io with
    | IoOk => (Ok tt, mkWorld (latest_status w) (readings_cache w) (Some rows) (trace w))
    | IoOpenFails e => (Raise e, w)
    | IoWriteFails e => (Raise e, mkWorld (latest_status w) (readings_cache w) (Some []) (trace w))
    end.

Definition csv_header : list string :=
  ["Timestamp"; "Glucose (mg/dL)"; "Glucose (mmol/L)"]%string.

Definition save_reading (io : io_outcome) (timestamp : string) (mgdl mmol : pynum) : M unit :=
  (write_csv io [csv_header; [timestamp; py_str mgdl; py_str mmol]] ;;
   set_readings_cache [mkRow timestamp (py_str mgdl) (py_str mmol)] ;;
   print ("NEW READING: " ++ py_str mgdl ++ " mg/dL. UI will update on next poll."))%M.

Definition notification_handler (io : io_outcome) (data : list byte) : M unit :=
  try_except
    (r <- lift (parse_glucose data) ;;
     print (" [BLE] Parsed: " ++ str_int (mgdl r) ++ " mg/dL at " ++ dt_str r) ;;
     save_reading io (dt_str r) (PyInt (mgdl r)) (mmol r))%M
    (fun e => print (" [BLE] Parse Error: " ++ exn_msg e)).

(* ------------------------------------------------------------------ *)
(** ** The acquisition loop: [ble_loop] *)

(** A discovered peer; [device.name] may be [None]. *)
Record device := mkDevice { dev_name : option string }.

Definition name_str (d : device) : string :=
  match dev_name d with
  | Some n => n
  | None => "None"
  end.

(** What the environment answers during one pass through the loop body. *)
Record script := mkScript {
  scan_by_uuid : result (option device);
  scan_by_name : result (option device);
  client_connect : result unit;
  client_is_connected : bool;
  client_start_notify : result unit;
  dwell_notifications : list (io_outcome * list byte);
  dwell_sleep : result unit;
  client_stop_notify : result unit;
  client_disconnect : result unit;
  idle_sleep : result unit
}.

Fixpoint deliver (ns : list (io_outcome * list byte)) : M unit :=
  match ns with
  | [] => ret tt
  | (io, data) :: rest => (notification_handler io data ;; deliver rest)%M
  end.

Definition scanning_status : string := "Scanning for Accu-Chek...".

Definition connecting_status (d : device) : string :=
  ("Connecting to " ++ name_str d ++ "...")%string.

Definition session (sc : script) (d : device) : M unit :=
  async_with
    (await (EConnect 20) (client_connect sc))
    (await EDisconnect (client_disconnect sc))
    (fun _ =>
       if client_is_connected sc then
         (set_latest_status "Connected! Waiting for Data..." ;;
          print " [BLE] Connected. Subscribing..." ;;
          await EStartNotify (client_start_notify sc) ;;
          deliver (dwell_notifications sc) ;;
          await (ESleep 10) (dwell_sleep sc) ;;
          await EStopNotify (client_stop_notify sc) ;;
          print " [BLE] Sync Complete.")%M
       else ret tt).

(** One pass through the body of [while True]. *)
Definition ble_iteration (sc : script) : M unit :=
  (set_latest_status scanning_status ;;
   try_except
     (device <- await (EScan 5) (scan_by_uuid sc) ;;
      device <- match device with
                | None => await (EScan 2) (scan_by_name sc)
                | Some d => ret (Some d)
                end ;;
      match device with
      | Some d =>
          set_latest_status (connecting_status d) ;;
          print (" [BLE] Found " ++ name_str d ++ ", Connecting...") ;;
          try_except (session sc d)
            (fun e => print (" [BLE] Connection Error: " ++ exn_msg e))
      | None => ret tt
      end)
     (fun e => print (" [BLE] Loop Error: " ++ exn_msg e)) ;;
   await (ESleep 2) (idle_sleep sc))%M.

(** The loop after some passes: still running, or ended by an exception
    that left the loop body. *)
Inductive loop_state :=
| Running (w : world)
| Terminated (e : exn) (w : world).

Fixpoint ble_loop_from (scripts : list script) (w : world) : loop_state :=
  match scripts with
  | [] => Running w
  | sc :: rest =>
      match ble_iteration sc w with
      | (Ok _, w') => ble_loop_from rest w'
      | (Raise e, w') => Terminated e w'
      end
  end.

Definition ble_loop (scripts : list script) (w : world) : loop_state :=
  ble_loop_from scripts (log (EPrint "--- Background Bluetooth Service Started ---") w).

(** The state at process start (before [load_csv]). *)
Definition initial_world : world := mkWorld "Initializing..." [] None [].

(* ------------------------------------------------------------------ *)
(** ** Definitions used to state the properties *)

(** Where the concentration word starts, by flag bit 0. *)
Definition concentration_offset (flags : Z) : nat :=
  if Z.testbit flags 0 then 12%nat else 10%nat.

(** The flags byte with bit 1 (type-and-sample-location-present) toggled. *)
Definition flip_bit1 (b : byte) : byte :=
  match Byte.of_N (N.lxor (Byte.to_N b) 2) with
  | Some b' => b'
  | None => b
  end.

(** [P] holds on [lo], [lo+1], ..., [lo + fuel - 1]. *)
Fixpoint forall_range (fuel : nat) (lo : Z) (P : Z -> bool) : bool :=
  match fuel with
  | O => true
  | S k => P lo && forall_range k (lo + 1) P
  end.

(** What is left of [parse_glucose] once the bytes are read: lines
    111-126 on the timestamp, the unit flag and the concentration word. *)
Definition finish_decode (concentration_unit_kg_l : bool) (dt_str : string)
    (raw_sfloat : Z) : result reading :=
  (val <- sfloat_value raw_sfloat ;;
   g <- glucose_fields concentration_unit_kg_l val ;;
   Ok (mkReading dt_str (fst g) (snd g)))%result.

(** The exact value of a Python number. *)
Definition pynum_exact (v : pynum) : option Q :=
  match v with
  | PyInt z => Some (inject_Z z)
  | PyFloat f => float_exact f
  end.

(** The mathematical product [mantissa * 10^exponent] of a word. *)
Definition exact_product (raw : Z) : Q :=
  let m := sfloat_mantissa raw in
  let e := sfloat_exponent raw in
  if 0 <=? e then inject_Z (m * 10 ^ e) else (m # Z.to_pos (10 ^ (- e)))%Q.

(** [val] is the exact product. *)
Definition value_is_exact (raw : Z) : bool :=
  match sfloat_value raw with
  | Ok v =>
      match pynum_exact v with
      | Some q => Qeq_bool q (exact_product raw)
      | None => false
      end
  | Raise _ => false
  end.

(** [|val - product| <= 2^-52 * |product|] *)
Definition value_within_ulp (raw : Z) : bool :=
  match sfloat_value raw with
  | Ok v =>
      match pynum_exact v with
      | Some q =>
          Qle_bool (Qabs (q - exact_product raw) * inject_Z (2 ^ 52))
                   (Qabs (exact_product raw))
      | None => false
      end
  | Raise _ => false
  end.

(** The shape [YYYY-MM-DD HH:MM:SS]. *)
Definition is_digit (c : ascii) : bool :=
  let n := N_of_ascii c in (48 <=? n)%N && (n <=? 57)%N.

Definition is_fixed_width_timestamp (s : string) : bool :=
  match list_ascii_of_string s with
  | [y1; y2; y3; y4; a; m1; m2; b; d1; d2; c; h1; h2; d; n1; n2; e; s1; s2] =>
      forallb is_digit [y1; y2; y3; y4; m1; m2; d1; d2; h1; h2; n1; n2; s1; s2]
      && Ascii.eqb a "-" && Ascii.eqb b "-" && Ascii.eqb c " "
      && Ascii.eqb d ":" && Ascii.eqb e ":"
  | _ => false
  end.

(** The decimal digit of [n] at weight [10^k], as a character. *)
Definition digit_char (n : Z) (k : Z) : ascii :=
  ascii_of_N (48 + Z.to_N ((n / 10 ^ k) mod 10)).

Definition digits4 (n : Z) : string :=
  String (digit_char n 3) (String (digit_char n 2)
    (String (digit_char n 1) (String (digit_char n 0) ""))).

Definition digits2 (n : Z) : string :=
  String (digit_char n 1) (String (digit_char n 0) "").

(** A result is a value or an exception of class [Exception]. *)
Definition raises_only_Exception {A} (r : result A) : bool :=
  match r with
  | Ok _ => true
  | Raise e => is_Exception e
  end.

Definition io_raises_only_Exception (io : io_outcome) : bool :=
  match io with
  | IoOk => true
  | IoOpenFails e | IoWriteFails e => is_Exception e
  end.

Definition io_fails (io : io_outcome) : bool :=
  match io with
  | IoOk => false
  | _ => true
  end.

Definition is_Ok {A} (r : result A) : bool :=
  match r with
  | Ok _ => true
  | Raise _ => false
  end.

(** A pass in which the environment misbehaves only through faults of
    the peer, the transport or the file system: whatever it raises is of
    class [Exception], and the two sleeps return. *)
Definition peer_faults_only (sc : script) : bool :=
  raises_only_Exception (scan_by_uuid sc) && raises_only_Exception (scan_by_name sc)
  && raises_only_Exception (client_connect sc)
  && raises_only_Exception (client_start_notify sc)
  && forallb (fun n => io_raises_only_Exception (fst n)) (dwell_notifications sc)
  && is_Ok (dwell_sleep sc)
  && raises_only_Exception (client_stop_notify sc)
  && raises_only_Exception (client_disconnect sc)
  && is_Ok (idle_sleep sc).

Definition is_status_event (ev : event) : bool :=
  match ev with
  | EStatus _ => true
  | _ => false
  end.

(** Sample payloads: 2024-03-15 08:30:00, mantissa 95, exponent -5,
    kg/L; the second one carries a time offset of 60 minutes. *)
Definition sample_payload : list byte :=
  [x00; x01; x00; xe8; x07; x03; x0f; x08; x1e; x00; x5f; xb0].

Definition sample_payload_with_offset : list byte :=
  [x01; x01; x00; xe8; x07; x03; x0f; x08; x1e; x00; x3c; x00; x5f; xb0].

Definition sample_reading : reading :=
  mkReading "2024-03-15 08:30:00" 95
    (PyFloat (S754_finite false 5967269506265907 (-50))).

(** The Bluetooth date-time value "unknown": all base-time bytes zero. *)
Definition unknown_date_payload : list byte :=
  [x00; x01; x00; x00; x00; x00; x00; x00; x00; x00; x5f; xb0].

(** The file system refusing to open the CSV file for writing. *)
Definition permission_denied : exn :=
  Exn OSError "[Errno 13] Permission denied: 'sugar_readings.csv'".

(** The device that the scans of a pass end up with. *)
Definition found_device (sc : script) : option device :=
  match scan_by_uuid sc with
  | Ok (Some d) => Some d
  | Ok None =>
      match scan_by_name sc with
      | Ok (Some d) => Some d
      | _ => None
      end
  | Raise _ => None
  end.

(** The scans a pass performs: the name scan only after an empty UUID scan. *)
Definition scan_events (sc : script) : list event :=
  match scan_by_uuid sc with
  | Ok None => [EScan 5; EScan 2]
  | _ => [EScan 5]
  end.

(** A computation only adds to the trace. *)
Definition appends {A} (m : M A) : Prop :=
  forall w, exists evs, trace (snd (m w)) = trace w ++ evs.

(** A pass in which the peer is found by its service UUID and the
    connection attempt fails. *)
Definition failing_connect_script : script :=
  mkScript (Ok (Some (mkDevice (Some "Accu-Chek"%string)))) (Ok None)
    (Raise (Exn BleakError "failed to connect")) false
    (Ok tt) [] (Ok tt) (Ok tt) (Ok tt) (Ok tt).

(** A computation ends normally, or with an exception of class
    [Exception]; a computation ends normally. *)
Definition catchable {A} (m : M A) : Prop :=
  forall w, raises_only_Exception (fst (m w)) = true.

Definition returns {A} (m : M A) : Prop :=
  forall w, is_Ok (fst (m w)) = true.

(** Sizes, to show that the arithmetic of the decoder never overflows. *)
(** A float is zero, or finite with magnitude below [2^K]; a number is
    an [int] below [2^K] in absolute value or such a float. *)
Definition sized (K : Z) (f : spec_float) : Prop :=
  match f with
  | S754_zero _ => True
  | S754_finite _ m e => Zpos (digits2_pos m) + e <= K
  | _ => False
  end.

Definition num_sized (K : Z) (v : pynum) : Prop :=
  match v with
  | PyInt z => Z.abs z < 2 ^ K
  | PyFloat f => sized K f
  end.

From Stdlib Require DecimalFacts.
From Stdlib Require Import Qround.

(* ------------------------------------------------------------------ *)
(** ** Further definitions used to state properties of the decoder *)

(** The exception a too short payload of [n] bytes ends in: [data[0]]
    and [data[5..9]] raise [IndexError], the two [struct.unpack] calls
    raise [struct.error]. *)
Definition decode_error (n : nat) : exn :=
  if Nat.eqb n 0 || (Nat.leb 5 n && Nat.ltb n 10)
  then Exn IndexError "bytearray index out of range"
  else Exn StructError "unpack requires a buffer of 2 bytes".

(** The bytes of the concentration word, as far as the buffer holds
    them, in the part [tail] of a payload that follows the base time. *)
Definition word_bytes (flags : Z) (tail : list byte) : list byte :=
  firstn 2 (if Z.testbit flags 0 then skipn 2 tail else tail).

(** Structural equality of floats that are zero or finite. *)
Definition same_float (a b : spec_float) : bool :=
  match a, b with
  | S754_zero s, S754_zero t => Bool.eqb s t
  | S754_finite s m e, S754_finite t n f => Bool.eqb s t && Pos.eqb m n && Z.eqb e f
  | _, _ => false
  end.

(** The double nearest to [t/10]; [0.0] for [t = 0]. *)
Definition float_of_tenths (t : Z) : spec_float :=
  match t with
  | Z0 => S754_zero false
  | Zpos p => float_of_ratio false p 10
  | Zneg p => float_of_ratio true p 10
  end.

(** Lines 111 and 119 on a word: [round(val * 100000)] is the mantissa. *)
Definition kg_mgdl_is_mantissa (raw : Z) : bool :=
  match sfloat_value raw with
  | Ok v =>
      match py_mul v (PyInt 100000) with
      | Ok x =>
          match py_round x with
          | Ok z => z =? sfloat_mantissa raw
          | Raise _ => false
          end
      | Raise _ => false
      end
  | Raise _ => false
  end.

(** Lines 111 and 123 on a word: [round(val * 1000, 1)] is the double
    nearest to a tenth of the mantissa. *)
Definition mol_mmol_is_tenths (raw : Z) : bool :=
  match sfloat_value raw with
  | Ok v =>
      match py_mul v (PyInt 1000) with
      | Ok x =>
          match py_round_ndigits x 1 with
          | Ok (PyFloat f) => same_float f (float_of_tenths (sfloat_mantissa raw))
          | _ => false
          end
      | Raise _ => false
      end
  | Raise _ => false
  end.

(** A mol/L payload: 2024-03-15 08:30:00, mantissa 53, exponent -4. *)
Definition sample_payload_mol : list byte :=
  [x04; x01; x00; xe8; x07; x03; x0f; x08; x1e; x00; x35; xc0].

(* ------------------------------------------------------------------ *)
(** ** Further definitions used to state properties of the store and of
    the loop *)

(** The row a notification leaves in the store: the decoded reading, if
    the payload is accepted and the file is written. *)
Definition committed_row (n : io_outcome * list byte) : option row :=
  match fst n with
  | IoOk =>
      match parse_glucose (snd n) with
      | Ok r => Some (mkRow (dt_str r) (str_int (mgdl r)) (py_str (mmol r)))
      | Raise _ => None
      end
  | _ => None
  end.

(** The row of the last notification of a list that leaves one. *)
Definition last_committed (ns : list (io_outcome * list byte)) : option row :=
  fold_left (fun acc n => match committed_row n with
                          | Some r => Some r
                          | None => acc
                          end) ns None.

(** The part of the state that holds readings. *)
Definition store_of (w : world) : list row * option (list (list string)) :=
  (readings_cache w, csv_file w).

(** A pass gets as far as the dwell window. *)
Definition reached_dwell (sc : script) : bool :=
  match found_device sc with
  | Some _ =>
      is_Ok (client_connect sc) && client_is_connected sc
      && is_Ok (client_start_notify sc)
  | None => false
  end.

(** A pass opens a connection. *)
Definition connected (sc : script) : bool :=
  match found_device sc with
  | Some _ => is_Ok (client_connect sc)
  | None => false
  end.

(** The events a pass adds to the trace. *)
Definition pass_events (sc : script) (w : world) : list event :=
  skipn (List.length (trace w)) (trace (snd (ble_iteration sc w))).

Definition is_disconnect (ev : event) : bool :=
  match ev with
  | EDisconnect => true
  | _ => false
  end.

(** The three kinds of status text the loop assigns. *)
Definition loop_status (s : string) : Prop :=
  s = scanning_status \/ s = "Connected! Waiting for Data..."%string \/
  exists d, s = connecting_status d.

Definition loop_event (ev : event) : Prop :=
  match ev with
  | EStatus s => loop_status s
  | _ => True
  end.

(** The status after some events: the one of the last assignment among
    them, or the one before. *)
Definition last_status (evs : list event) (before : string) : string :=
  fold_left (fun s ev => match ev with
                         | EStatus s' => s'
                         | _ => s
                         end) evs before.

(** From [w] to [w'] the trace grew by events of the loop, and the
    status is the one the last of them assigned. *)
Definition status_step (w w' : world) : Prop :=
  exists evs, trace w' = trace w ++ evs /\ Forall loop_event evs /\ latest_status w' = last_status evs (latest_status w).

(** From [w] to [w'] the trace grew by events other than a disconnect. *)
Definition quiet_step (w w' : world) : Prop :=
  exists evs, trace w' = trace w ++ evs /\ filter is_disconnect evs = [].

(** A computation relates the state before to the state after. *)
Definition keeps (R : world -> world -> Prop) {A} (m : M A) : Prop :=
  forall w, R w (snd (m w)).

(** The state the loop is in, running or not. *)
Definition loop_world (l : loop_state) : world :=
  match l with
  | Running w => w
  | Terminated _ w => w
  end.

(** A pass that is cancelled while the loop idles. *)
Definition cancelled_script : script :=
  mkScript (Ok None) (Ok None) (Ok tt) false (Ok tt) [] (Ok tt) (Ok tt) (Ok tt)
    (Raise (Exn CancelledError EmptyString)).

(** A pass in which the subscription fails after the connection is open. *)
Definition failing_subscribe_script : script :=
  mkScript (Ok (Some (mkDevice (Some "Accu-Chek"%string)))) (Ok None)
    (Ok tt) true (Raise (Exn BleakError "characteristic not found")) []
    (Ok tt) (Ok tt) (Ok tt) (Ok tt).

(* ------------------------------------------------------------------ *)
(** ** Reading the file back at start-up: [load_csv]

    [load_csv] goes through [open], [csv.DictReader] and [csv.reader];
    [save_reading] goes through [csv.writer].  Both use the default
    dialect (excel): comma as delimiter, the double quote as quote
    character, doubled quotes,
    line terminator CR LF, minimal quoting, not strict, no escape
    character; they are the reader and the writer of CPython 3.11 and
    later (earlier versions raise on a NUL character).  The text of the
    file is a [string]. *)

Definition delimiter : ascii := ","%char.
Definition quotechar : ascii := "034"%char.
Definition CR : ascii := "013"%char.
Definition LF : ascii := "010"%char.
Definition lineterminator : string := String CR (String LF EmptyString).

(** *** [csv.writer] *)

(** [join_append_data]: a character that makes the writer quote the
    field: the delimiter, the quote character, or a character of the
    line terminator. *)
Definition forces_quotes (c : ascii) : bool :=
  Ascii.eqb c delimiter || Ascii.eqb c quotechar || Ascii.eqb c CR || Ascii.eqb c LF.

Fixpoint field_is_quoted (s : string) : bool :=
  match s with
  | EmptyString => false
  | String c rest => forces_quotes c || field_is_quoted rest
  end.

(** The characters of the field, each quote character doubled. *)
Fixpoint field_data (s : string) : string :=
  match s with
  | EmptyString => EmptyString
  | String c rest =>
      if Ascii.eqb c quotechar then String quotechar (String c (field_data rest))
      else String c (field_data rest)
  end.

Definition join_append (s : string) : string :=
  if field_is_quoted s
  then String quotechar (field_data s ++ String quotechar EmptyString)
  else s.

Fixpoint join_fields (row : list string) : string :=
  match row with
  | [] => EmptyString
  | [s] => join_append s
  | s :: rest => join_append s ++ String delimiter (join_fields rest)
  end.

(** [writer.writerow(row)]: the text written.  A record that would be
    empty although it has a field (one empty field) is written as a
    pair of quotes. *)
Definition writerow (row : list string) : string :=
  let rec := join_fields row in
  (match row, rec with
   | _ :: _, EmptyString => String quotechar (String quotechar EmptyString)
   | _, _ => rec
   end ++ lineterminator)%string.

(** The text of a file written row by row with [newline='']. *)
Fixpoint csv_text (rows : list (list string)) : string :=
  match rows with
  | [] => EmptyString
  | row :: rest => writerow row ++ csv_text rest
  end.

(** *** [open(CSV_FILE, 'r')] *)

(** Universal newlines: CR LF and a lone CR are read as LF. *)
Fixpoint universal_newlines (s : string) : string :=
  match s with
  | EmptyString => EmptyString
  | String c rest =>
      if Ascii.eqb c CR then
        String LF
          match rest with
          | String c' rest' =>
              if Ascii.eqb c' LF then universal_newlines rest'
              else universal_newlines rest
          | EmptyString => EmptyString
          end
      else String c (universal_newlines rest)
  end.

(** Iterating over the file: its lines, each with its LF; the last one
    may lack it. *)
Fixpoint readlines (s : string) : list string :=
  match s with
  | EmptyString => []
  | String c rest =>
      if Ascii.eqb c LF then String c EmptyString :: readlines rest
      else match readlines rest with
           | [] => [String c EmptyString]
           | line :: more => String c line :: more
           end
  end.

(** *** [csv.reader] *)

Inductive ParserState :=
| START_RECORD | START_FIELD | IN_FIELD | IN_QUOTED_FIELD
| QUOTE_IN_QUOTED_FIELD | EAT_CRNL.

Record ReaderObj := mkReader {
  rd_state : ParserState;
  rd_fields : list string;   (* the fields of the record so far *)
  rd_field : string          (* the characters of the field so far *)
}.

(** The outcome of a parsing step: a value, or [csv.Error]. *)
Inductive parsed (A : Type) := Parsed (a : A) | Error (msg : string).
Arguments Parsed {A} a.
Arguments Error {A} msg.

Definition field_limit : Z := 131072.

Definition parse_reset : ReaderObj := mkReader START_RECORD [] EmptyString.

Definition parse_add_char (self : ReaderObj) (c : ascii) : parsed ReaderObj :=
  if field_limit <=? Z.of_nat (String.length (rd_field self))
  then Error "field larger than field limit (131072)"
  else Parsed (mkReader (rd_state self) (rd_fields self)
                 (rd_field self ++ String c EmptyString)).

Definition parse_save_field (self : ReaderObj) : ReaderObj :=
  mkReader (rd_state self) (rd_fields self ++ [rd_field self]) EmptyString.

Definition set_state (s : ParserState) (self : ReaderObj) : ReaderObj :=
  mkReader s (rd_fields self) (rd_field self).

Definition is_newline (c : ascii) : bool := Ascii.eqb c LF || Ascii.eqb c CR.

(** The end of a field at the end of a line: after a newline character
    the rest of the line is skipped. *)
Definition after_line_end (c : option ascii) : ParserState :=
  match c with
  | None => START_RECORD
  | Some _ => EAT_CRNL
  end.

(** [parse_process_char]; [None] is the end-of-line mark that the reader
    feeds after the last character of each line. *)
Definition parse_process_char (self : ReaderObj) (c : option ascii) : parsed ReaderObj :=
  let start_field :=
    match c with
    | None => Parsed (set_state START_RECORD (parse_save_field self))
    | Some ch =>
        if is_newline ch then Parsed (set_state EAT_CRNL (parse_save_field self))
        else if Ascii.eqb ch quotechar then Parsed (set_state IN_QUOTED_FIELD self)
        else if Ascii.eqb ch delimiter then Parsed (set_state START_FIELD (parse_save_field self))
        else match parse_add_char self ch with
             | Parsed self' => Parsed (set_state IN_FIELD self')
             | Error msg => Error msg
             end
    end in
  match rd_state self with
  | START_RECORD =>
      match c with
      | None => Parsed self
      | Some ch => if is_newline ch then Parsed (set_state EAT_CRNL self) else start_field
      end
  | START_FIELD => start_field
  | IN_FIELD =>
      match c with
      | None => Parsed (set_state START_RECORD (parse_save_field self))
      | Some ch =>
          if is_newline ch then Parsed (set_state EAT_CRNL (parse_save_field self))
          else if Ascii.eqb ch delimiter then Parsed (set_state START_FIELD (parse_save_field self))
          else parse_add_char self ch
      end
  | IN_QUOTED_FIELD =>
      match c with
      | None => Parsed self
      | Some ch =>
          if Ascii.eqb ch quotechar then Parsed (set_state QUOTE_IN_QUOTED_FIELD self)
          else parse_add_char self ch
      end
  | QUOTE_IN_QUOTED_FIELD =>
      match c with
      | None => Parsed (set_state START_RECORD (parse_save_field self))
      | Some ch =>
          if Ascii.eqb ch quotechar then
            match parse_add_char self ch with
            | Parsed self' => Parsed (set_state IN_QUOTED_FIELD self')
            | Error msg => Error msg
            end
          else if Ascii.eqb ch delimiter then Parsed (set_state START_FIELD (parse_save_field self))
          else if is_newline ch then Parsed (set_state EAT_CRNL (parse_save_field self))
          else match parse_add_char self ch with
               | Parsed self' => Parsed (set_state IN_FIELD self')
               | Error msg => Error msg
               end
      end
  | EAT_CRNL =>
      match c with
      | None => Parsed (set_state START_RECORD self)
      | Some ch =>
          if is_newline ch then Parsed self
          else Error "new-line character seen in unquoted field - do you need to open the file with newline=''?"
      end
  end.

(** The characters of one line, then the end-of-line mark. *)
Fixpoint parse_line (self : ReaderObj) (line : string) : parsed ReaderObj :=
  match line with
  | EmptyString => parse_process_char self None
  | String c rest =>
      match parse_process_char self (Some c) with
      | Parsed self' => parse_line self' rest
      | Error msg => Error msg
      end
  end.

(** How an iteration ends: the input is exhausted, the reader raises
    [csv.Error], or reading the file raises. *)
Inductive ending :=
| Exhausted
| ReaderError (msg : string)
| ReadError (e : exn).

(** The records that iterating over the reader yields, and how the
    iteration ends.  A record is complete when a line leaves the parser
    in [START_RECORD]; at the end of the input a record in progress is
    yielded if its last field has characters or is an open quoted
    field. *)
Fixpoint reader_records (self : ReaderObj) (input : list string) (last : ending)
  : list (list string) * ending :=
  match input with
  | [] =>
      match last with
      | Exhausted =>
          if negb (String.length (rd_field self) =? 0)%nat
             || match rd_state self with IN_QUOTED_FIELD => true | _ => false end
          then ([rd_fields (parse_save_field self)], Exhausted)
          else ([], Exhausted)
      | _ => ([], last)
      end
  | line :: more =>
      match parse_line self line with
      | Error msg => ([], ReaderError msg)
      | Parsed self' =>
          match rd_state self' with
          | START_RECORD =>
              let '(records, e) := reader_records parse_reset more last in
              (rd_fields self' :: records, e)
          | _ => reader_records self' more last
          end
      end
  end.

(** *** [csv.DictReader] *)

(** The dict of one row, as the assignments that build it, in order:
    [dict(zip(fieldnames, row))], then [None] for each field name
    beyond the row.  (Fields beyond the field names go under the key
    [None], which no string key reaches.) *)
Definition row_dict (fieldnames row : list string) : list (string * option string) :=
  combine fieldnames (map Some row) ++
  map (fun key => (key, None)) (skipn (List.length row) fieldnames).

(** [d[key]]: the value of the last assignment to [key]; [None] stands
    for [KeyError]. *)
Fixpoint getitem (d : list (string * option string)) (key : string)
  : option (option string) :=
  match d with
  | [] => None
  | (k, v) :: rest =>
      match getitem rest key with
      | Some v' => Some v'
      | None => if String.eqb k key then Some v else None
      end
  end.

Definition is_empty_row (record : list string) : bool :=
  match record with
  | [] => true
  | _ :: _ => false
  end.

(** The rows of a [DictReader]: the first record gives the field names,
    empty records are skipped. *)
Definition DictReader (records : list (list string))
  : list (list (string * option string)) :=
  match records with
  | [] => []
  | fieldnames :: rest =>
      map (row_dict fieldnames) (filter (fun r => negb (is_empty_row r)) rest)
  end.

(** *** [load_csv] *)

(** One element of [readings_cache] as [load_csv] builds it: a value
    is [None] where the row is shorter than the header. *)
Record loaded_row := mkLoaded {
  loaded_timestamp : option string;
  loaded_mgdl : option string;
  loaded_mmol : option string
}.

(** What [load_csv] finds on disk. *)
Inductive csv_on_disk :=
| NoFile                       (* os.path.exists(CSV_FILE) is false *)
| OpenFails (e : exn)          (* open(CSV_FILE, 'r') raises *)
| FileText (text : string) (last : ending).
    (* the text that is read, and how reading ends *)

(** Lines 43-47: the dict appended for one row; [None] for [KeyError]. *)
Definition loaded_entry (d : list (string * option string)) : option loaded_row :=
  match getitem d "Timestamp" with
  | Some t =>
      match getitem d "Glucose (mg/dL)" with
      | Some g =>
          match getitem d "Glucose (mmol/L)" with
          | Some m => Some (mkLoaded t g m)
          | None => None
          end
      | None => None
      end
  | None => None
  end.

(** Lines 42-49: the loop appends to the cache; whatever is raised ends
    it and is dropped by [except: pass], the cache keeps what it has. *)
Fixpoint load_rows (rows : list (list (string * option string)))
    (cache : list loaded_row) : list loaded_row :=
  match rows with
  | [] => cache
  | d :: rest =>
      match loaded_entry d with
      | Some entry => load_rows rest (cache ++ [entry])
      | None => cache
      end
  end.

(** [load_csv()]: the new value of [readings_cache]. *)
Definition load_csv (disk : csv_on_disk) : list loaded_row :=
  match disk with
  | NoFile => []
  | OpenFails _ => []
  | FileText text last =>
      let input := readlines (universal_newlines text) in
      load_rows (DictReader (fst (reader_records parse_reset input last))) []
  end.

(** The file that [save_reading] leaves for the next start. *)
Definition disk_of (w : world) : csv_on_disk :=
  match csv_file w with
  | None => NoFile
  | Some rows => FileText (csv_text rows) Exhausted
  end.

(** A cache element of [save_reading] seen as one of [load_csv]. *)
Definition loaded_of_row (r : row) : loaded_row :=
  mkLoaded (Some (row_timestamp r)) (Some (row_mgdl r)) (Some (row_mmol r)).

(** *** Definitions used to state the properties of the file *)

(** A field that the reader gives back as the writer got it: it has no
    carriage return (read as a line feed) and fits the field limit. *)
Fixpoint has_CR (s : string) : bool :=
  match s with
  | EmptyString => false
  | String c rest => Ascii.eqb c CR || has_CR rest
  end.

Definition reads_back (s : string) : bool :=
  negb (has_CR s) && (Z.of_nat (String.length s) <=? field_limit).

(** What the reader does with a line once it is parsed, and how it goes
    on in the middle of a line. *)
Definition emit (p : parsed ReaderObj) (more : list string) (last : ending)
  : list (list string) * ending :=
  match p with
  | Error msg => ([], ReaderError msg)
  | Parsed self =>
      match rd_state self with
      | START_RECORD =>
          let '(records, e) := reader_records parse_reset more last in
          (rd_fields self :: records, e)
      | _ => reader_records self more last
      end
  end.

Definition resume (self : ReaderObj) (s : string) (last : ending)
  : list (list string) * ending :=
  match readlines s with
  | [] => emit (parse_process_char self None) [] last
  | line :: more => emit (parse_line self line) more last
  end.

(** The reader between two fields of a record. *)
Definition between_fields (self : ReaderObj) : Prop :=
  rd_field self = EmptyString /\
  (rd_state self = START_FIELD \/ rd_state self = START_RECORD /\ rd_fields self = []).

(** The reader at the end of the text of a field [f]. *)
Definition at_field_end (before self : ReaderObj) (f : string) : Prop :=
  rd_fields self = rd_fields before /\ rd_field self = f /\
  (rd_state self = IN_FIELD \/ rd_state self = QUOTE_IN_QUOTED_FIELD \/
   rd_state self = rd_state before /\ f = EmptyString /\ between_fields before).

(** The text of a record as it is read: the line terminator has become
    a line feed. *)
Definition record_line (row : list string) : string :=
  match row, join_fields row with
  | _ :: _, EmptyString => String quotechar (String quotechar EmptyString)
  | _, rec => rec
  end.


(** The entry that [load_csv] makes of a record under the header that
    [save_reading] writes: the first three fields, [None] for a missing
    one. *)
Definition entry_of_record (record : list string) : loaded_row :=
  mkLoaded (nth_error record 0) (nth_error record 1) (nth_error record 2).

(** The records that the reader yields for a text. *)
Definition records_of_text (text : string) (last : ending) : list (list string) :=
  fst (reader_records parse_reset (readlines (universal_newlines text)) last).

(** A header names the three columns that [load_csv] asks for. *)
Definition names_all_columns (fieldnames : list string) : bool :=
  forallb (fun key => existsb (String.eqb key) fieldnames) csv_header.

(** A text with a comma, a line feed and an empty field, for the quoting. *)
Definition quoted_rows : list (list string) :=
  [ ["a,b"; String "l" (String LF "m"); String quotechar "q"]%string;
    [];
    [EmptyString];
    [EmptyString; "x"]%string ].

(** The value that a row has under a column name, [None] where
    [DictReader] filled in or the name is unknown. *)
Definition value_under (fieldnames record : list string) (key : string) : option string :=
  match getitem (row_dict fieldnames record) key with
  | Some v => v
  | None => None
  end.

Definition entry_under (fieldnames record : list string) : loaded_row :=
  mkLoaded (value_under fieldnames record "Timestamp")
           (value_under fieldnames record "Glucose (mg/dL)")
           (value_under fieldnames record "Glucose (mmol/L)").

(** A text without carriage return and of at most [n] characters. *)
Definition fits (n : Z) (s : string) : Prop :=
  has_CR s = false /\ Z.of_nat (String.length s) <= n.

(** *** The file and the cache *)

(** A restart would show what is shown now: [load_csv] would rebuild
    the cache that [/api/data] serves. *)
Definition restart_agrees (w : world) : Prop :=
  load_csv (disk_of w) = map loaded_of_row (readings_cache w).

(** A write that fails after the file was truncated. *)
Definition is_torn_write (io : io_outcome) : bool :=
  match io with
  | IoWriteFails _ => true
  | _ => false
  end.

Definition no_torn_write (sc : script) : bool :=
  forallb (fun n => negb (is_torn_write (fst n))) (dwell_notifications sc).

(** A pass in which the meter is found, sends one accepted measurement
    and one that is too short, and the file cannot be opened for a third. *)
Definition syncing_script : script :=
  mkScript (Ok (Some (mkDevice (Some "Accu-Chek"%string)))) (Ok None)
    (Ok tt) true (Ok tt)
    [(IoOk, sample_payload); (IoOk, []); (IoOpenFails permission_denied, sample_payload_with_offset)]
    (Ok tt) (Ok tt) (Ok tt) (Ok tt).

(* ------------------------------------------------------------------ *)
(** ** The formulas of the two glucose fields, as the spec words them *)

(** A field of [bits] bits read as a two's-complement number. *)
Definition twos_complement (bits field : Z) : Z :=
  if field <? 2 ^ (bits - 1) then field else field - 2 ^ bits.

(** [round] of an exact value: the nearest integer, a tie goes to the
    even one. *)
Definition Qround_half_even (q : Q) : Z :=
  let f := Qfloor q in
  match (q - inject_Z f ?= 1 # 2)%Q with
  | Lt => f
  | Gt => f + 1
  | Eq => if Z.even f then f else f + 1
  end.


(** The same formulas in Python's arithmetic.  The exact value of a
    double; [float(z)]; the double that the literal [18.0182] denotes;
    [round(x)] and [round(x, 1)] of a double. *)
Definition float_value (f : spec_float) : Q :=
  match float_exact f with
  | Some q => q
  | None => 0
  end.

Definition float_of_Z (z : Z) : spec_float := binary_normalize prec emax z 0 false.

Definition double_18_0182 : spec_float := S754_finite false 5071672425367942 (-48).

Definition round_to_int (f : spec_float) : Z := Qround_half_even (float_value f).

Definition round_to_tenth (f : spec_float) : spec_float :=
  match f with
  | S754_finite s _ _ =>
      match Qround_half_even (float_value f * inject_Z 10) with
      | Z0 => S754_zero s
      | t => float_of_tenths t
      end
  | _ => f
  end.

(** [(mgdl, mmol)] from the two fields of the word: with a non-negative
    exponent the value is an [int], with a negative one it is the
    rounded product of float(mantissa) and the double nearest to
    10^exponent; every later product and quotient is a binary64
    operation. *)
Definition binary64_fields (kg : bool) (mantissa exponent : Z) : Z * pynum :=
  if 0 <=? exponent then
    let v := mantissa * 10 ^ exponent in
    if kg then
      let mg := v * 100000 in
      (mg, PyFloat (round_to_tenth (SFdiv prec emax (float_of_Z mg) double_18_0182)))
    else
      let mm := v * 1000 in
      (round_to_int (SFmul prec emax (float_of_Z mm) double_18_0182), PyInt mm)
  else
    let v := SFmul prec emax (float_of_Z mantissa)
               (float_of_ratio false 1 (Z.to_pos (10 ^ (- exponent)))) in
    if kg then
      let mg := round_to_int (SFmul prec emax v (float_of_Z 100000)) in
      (mg, PyFloat (round_to_tenth (SFdiv prec emax (float_of_Z mg) double_18_0182)))
    else
      let mm := round_to_tenth (SFmul prec emax v (float_of_Z 1000)) in
      (round_to_int (SFmul prec emax mm double_18_0182), PyFloat mm).



Definition payload_0FFF : list byte :=
  [x00; x01; x00; xe8; x07; x03; x0f; x08; x1e; x00; xff; x0f].

(* ------------------------------------------------------------------ *)
(** * Properties *)

(** ** Bytes and ranges *)

Lemma byte_val_range (b : byte) : 0 <= byte_val b < 256.
Proof. destruct b; vm_compute; split; congruence. Qed.

Lemma forall_range_spec (P : Z -> bool) (fuel : nat) :
  forall lo, forall_range fuel lo P = true ->
  forall z, lo <= z < lo + Z.of_nat fuel -> P z = true.
Proof.
  induction fuel as [|k IH]; intros lo H z Hz.
  - simpl in Hz. lia.
  - cbn [forall_range] in H. apply andb_true_iff in H as [Hlo Hrest].
    destruct (Z.eq_dec z lo) as [->|Hne]; [exact Hlo|].
    apply (IH (lo + 1) Hrest). lia.
Qed.

Lemma flag_bit0 (f : byte) :
  (Z.land (byte_val f) 0x01 =? 1) = Z.testbit (byte_val f) 0.
Proof. destruct f; reflexivity. Qed.

Lemma flag_bit2 (f : byte) :
  (Z.land (byte_val f) 0x04 =? 0) = negb (Z.testbit (byte_val f) 2).
Proof. destruct f; reflexivity. Qed.

Lemma flip_bit1_val (f : byte) :
  byte_val (flip_bit1 f) = Z.lxor (byte_val f) 2.
Proof. destruct f; reflexivity. Qed.

Lemma unpack_H_value (lo hi : byte) :
  unpack_H [lo; hi] = Ok (byte_val lo + 256 * byte_val hi).
Proof.
  unfold unpack_H. f_equal.
  pose proof (byte_val_range lo) as Hlo.
  pose proof (byte_val_range hi) as Hhi.
  rewrite Z.shiftl_mul_pow2 by lia.
  assert (Hdisj : Z.land (byte_val lo) (byte_val hi * 2 ^ 8) = 0).
  { apply Z.bits_inj'. intros n Hn. rewrite Z.land_spec, Z.bits_0.
    destruct (Z.ltb_spec n 8).
    - rewrite Z.mul_pow2_bits_low by lia. apply andb_false_r.
    - replace (Z.testbit (byte_val lo) n) with false; [reflexivity|].
      symmetry. destruct (Z.eq_dec (byte_val lo) 0) as [->|]; [apply Z.bits_0|].
      apply Z.bits_above_log2; [lia|].
      apply Z.log2_lt_pow2; [lia|].
      apply Z.lt_le_trans with (2 ^ 8); [change (2 ^ 8) with 256; lia|].
      apply Z.pow_le_mono_r; lia. }
  rewrite <- (Z.lxor_lor _ _ Hdisj), <- (Z.add_nocarry_lxor _ _ Hdisj).
  change (2 ^ 8) with 256. lia.
Qed.

Lemma le16_value (lo hi : byte) :
  Z.lor (byte_val lo) (Z.shiftl (byte_val hi) 8) = byte_val lo + 256 * byte_val hi.
Proof.
  pose proof (unpack_H_value lo hi) as H. cbn [unpack_H] in H.
  injection H as H. exact H.
Qed.

(** ** The decoder on a buffer that holds the flags, the sequence number
    and the base time *)

(** After ten bytes the decoder has only the concentration word left to
    read; the flags byte matters through bits 0 and 2 alone. *)
Lemma parse_glucose_cons10 (f s1 s2 yl yh mo d h mi s : byte) (tail : list byte) :
  parse_glucose (f :: s1 :: s2 :: yl :: yh :: mo :: d :: h :: mi :: s :: tail) =
  (raw <- unpack_H (firstn 2 (if Z.land (byte_val f) 0x01 =? 1 then skipn 2 tail else tail)) ;;
   finish_decode (Z.land (byte_val f) 0x04 =? 0)
     (format_timestamp (byte_val yl + 256 * byte_val yh)
        (byte_val mo) (byte_val d) (byte_val h) (byte_val mi) (byte_val s))
     raw)%result.
Proof.
  rewrite <- le16_value.
  unfold parse_glucose, index, slice.
  cbn [nth_error skipn firstn rbind Nat.add Nat.sub unpack_H].
  destruct (Z.land (byte_val f) 1 =? 1); reflexivity.
Qed.

Lemma parse_glucose_short (data : list byte) :
  (List.length data < 10)%nat ->
  exists e, parse_glucose data = Raise e /\ is_Exception e = true.
Proof.
  intros Hlen.
  do 10 (destruct data as [|? data];
         [unfold parse_glucose, index, slice;
          cbn [nth_error skipn firstn rbind Nat.add Nat.sub unpack_H];
          eexists; split; reflexivity|]).
  cbn [List.length] in Hlen. lia.
Qed.


(** The concentration word lies behind the base time: a buffer of 10 or
    11 bytes is rejected as well. *)
Lemma parse_glucose_needs_12_bytes (data : list byte) :
  (List.length data < 12)%nat -> exists e, parse_glucose data = Raise e.
Proof.
  intros Hlen.
  destruct (Nat.lt_ge_cases (List.length data) 10) as [Hlt|Hge].
  { destruct (parse_glucose_short data Hlt) as (e & He & _). eauto. }
  do 10 (destruct data as [|? data]; [cbn [List.length] in Hge; lia|]).
  rewrite parse_glucose_cons10.
  destruct data as [|c1 [|c2 data]]; cbn [List.length] in Hlen; try lia;
    destruct (Z.land _ 1 =? 1); cbn; eauto.
Qed.


(* ------------------------------------------------------------------ *)
(** ** Sizes of binary64 results *)

Lemma digits2_pos_size (p : positive) : digits2_pos p = Pos.size p.
Proof. induction p; cbn; congruence. Qed.

Lemma Zdigits2_nonneg (m : Z) : 0 <= m -> 0 <= Zdigits2 m.
Proof. destruct m; cbn; lia. Qed.

Lemma Zdigits2_log2 (p : positive) : Zdigits2 (Zpos p) = Z.log2 (Zpos p) + 1.
Proof.
  destruct p as [q|q|]; cbn [Zdigits2 digits2_pos Z.log2];
    rewrite ?digits2_pos_size; lia.
Qed.

(** [m] has at most [k] binary digits iff [m < 2^k]. *)
Lemma Zdigits2_le_iff (m k : Z) :
  0 <= m -> 0 <= k -> (Zdigits2 m <= k <-> m < 2 ^ k).
Proof.
  intros Hm Hk. destruct m as [|p|p]; [|clear Hm|lia].
  - cbn. split; intros; [apply Z.pow_pos_nonneg|]; lia.
  - rewrite Zdigits2_log2, (Z.log2_lt_pow2 (Zpos p) k) by lia. lia.
Qed.

Lemma Zdigits2_mono (a b : Z) : 0 <= a <= b -> Zdigits2 a <= Zdigits2 b.
Proof.
  intros H. apply Zdigits2_le_iff; try lia.
  - apply Zdigits2_nonneg; lia.
  - eapply Z.le_lt_trans; [apply H|].
    apply Zdigits2_le_iff; try lia. apply Zdigits2_nonneg; lia.
Qed.

Lemma Zdigits2_succ (m : Z) : 0 <= m -> Zdigits2 (m + 1) <= Zdigits2 m + 1.
Proof.
  intros Hm. pose proof (Zdigits2_nonneg m Hm).
  apply Zdigits2_le_iff; try lia.
  assert (m < 2 ^ Zdigits2 m) by (apply Zdigits2_le_iff; lia).
  rewrite Z.pow_add_r by lia. lia.
Qed.

Lemma Zdigits2_mul (a b : Z) :
  0 <= a -> 0 <= b -> Zdigits2 (a * b) <= Zdigits2 a + Zdigits2 b.
Proof.
  intros Ha Hb.
  pose proof (Zdigits2_nonneg a Ha). pose proof (Zdigits2_nonneg b Hb).
  apply Zdigits2_le_iff; try nia.
  assert (a < 2 ^ Zdigits2 a) by (apply Zdigits2_le_iff; lia).
  assert (b < 2 ^ Zdigits2 b) by (apply Zdigits2_le_iff; lia).
  rewrite Z.pow_add_r by lia. nia.
Qed.

Lemma Zdigits2_div_pow2 (m n : Z) :
  0 <= m -> 0 <= n -> Zdigits2 (m / 2 ^ n) <= Z.max 0 (Zdigits2 m - n).
Proof.
  intros Hm Hn. pose proof (Zdigits2_nonneg m Hm).
  assert (0 < 2 ^ n) by (apply Z.pow_pos_nonneg; lia).
  assert (0 <= m / 2 ^ n) by (apply Z.div_pos; lia).
  apply Zdigits2_le_iff; try lia.
  assert (Hlt : m < 2 ^ Zdigits2 m) by (apply Zdigits2_le_iff; lia).
  apply Z.div_lt_upper_bound; [lia|].
  eapply Z.lt_le_trans; [exact Hlt|].
  rewrite <- Z.pow_add_r by lia. apply Z.pow_le_mono_r; lia.
Qed.

(** [shr_1] halves; iterating it divides by a power of two. *)
Lemma shr_1_m (mrs : shr_record) :
  0 <= shr_m mrs -> shr_m (shr_1 mrs) = shr_m mrs / 2.
Proof.
  destruct mrs as [m r s]. cbn [shr_m]. intros Hm.
  destruct m as [|[p|p|]|p]; cbn [shr_1 shr_m]; try lia; try reflexivity.
  - rewrite Pos2Z.inj_xI. apply Z.div_unique with 1; lia.
  - rewrite Pos2Z.inj_xO. apply Z.div_unique with 0; lia.
Qed.

Lemma iter_shr_1_m (p : positive) :
  forall mrs, 0 <= shr_m mrs ->
  shr_m (iter_pos shr_1 p mrs) = shr_m mrs / 2 ^ Zpos p.
Proof.
  induction p as [p IH|p IH|]; intros mrs Hm; cbn [iter_pos].
  - assert (H1 : 0 <= shr_m (shr_1 mrs))
      by (rewrite shr_1_m by lia; apply Z.div_pos; lia).
    assert (0 < 2 ^ Zpos p) by (apply Z.pow_pos_nonneg; lia).
    assert (H2 : 0 <= shr_m (iter_pos shr_1 p (shr_1 mrs)))
      by (rewrite IH by lia; apply Z.div_pos; lia).
    rewrite IH, IH, shr_1_m by lia.
    rewrite !Z.div_div by lia. f_equal.
    replace (Z.pos p~1) with (Z.pos p + Z.pos p + 1) by lia.
    rewrite !Z.pow_add_r by lia. change (2 ^ 1) with 2. ring.
  - assert (0 < 2 ^ Zpos p) by (apply Z.pow_pos_nonneg; lia).
    assert (H2 : 0 <= shr_m (iter_pos shr_1 p mrs))
      by (rewrite IH by lia; apply Z.div_pos; lia).
    rewrite IH, IH by lia.
    rewrite !Z.div_div by lia. f_equal.
    replace (Z.pos p~0) with (Z.pos p + Z.pos p) by lia.
    rewrite !Z.pow_add_r by lia. ring.
  - rewrite shr_1_m by lia. reflexivity.
Qed.


Lemma sized_weaken (K K' : Z) (f : spec_float) : sized K f -> K <= K' -> sized K' f.
Proof. destruct f; cbn; lia. Qed.

Lemma fexp_le (x : Z) : fexp prec emax x <= Z.max x (-1074).
Proof. unfold fexp, SpecFloat.emin, prec, emax. lia. Qed.

Lemma fexp_mono (x y : Z) : x <= y -> fexp prec emax x <= fexp prec emax y.
Proof. unfold fexp. lia. Qed.

Lemma shr_record_of_loc_m (m : Z) (l : location) : shr_m (shr_record_of_loc m l) = m.
Proof. destruct l as [|[]]; reflexivity. Qed.

(** One normalisation step keeps the mantissa non-negative and the
    magnitude below the bound. *)
Lemma shr_fexp_sized (m e : Z) (l : location) (K : Z) :
  0 <= m -> Zdigits2 m + e <= K -> -1074 <= K ->
  0 <= shr_m (fst (shr_fexp prec emax m e l)) /\
  Zdigits2 (shr_m (fst (shr_fexp prec emax m e l))) + snd (shr_fexp prec emax m e l) <= K.
Proof.
  intros Hm HK Hmin. unfold shr_fexp, shr.
  pose proof (Zdigits2_nonneg m Hm) as Hd.
  pose proof (fexp_le (Zdigits2 m + e)) as Hf.
  destruct (fexp prec emax (Zdigits2 m + e) - e) as [|p|p] eqn:Hn;
    cbn [fst snd]; rewrite ?shr_record_of_loc_m; try (split; lia).
  rewrite iter_shr_1_m, shr_record_of_loc_m by (rewrite shr_record_of_loc_m; lia).
  assert (0 < 2 ^ Zpos p) by (apply Z.pow_pos_nonneg; lia).
  split; [apply Z.div_pos; lia|].
  pose proof (Zdigits2_div_pow2 m (Zpos p) Hm ltac:(lia)). lia.
Qed.

Lemma round_nearest_even_bound (m : Z) (l : location) :
  0 <= m -> m <= round_nearest_even m l <= m + 1.
Proof.
  intros Hm. destruct l as [|[]]; cbn [round_nearest_even]; try lia.
  destruct (Z.even m); lia.
Qed.

(** Rounding a value of magnitude below [2^K], [K <= 971], gives zero or
    a finite float of magnitude below [2^(K+1)]: no overflow. *)
Lemma binary_round_aux_sized (s : bool) (mx ex : Z) (lx : location) (K : Z) :
  0 <= mx -> Zdigits2 mx + ex <= K -> -1074 <= K <= 971 ->
  sized (K + 1) (binary_round_aux prec emax s mx ex lx).
Proof.
  intros Hm HK HKr. unfold binary_round_aux.
  destruct (shr_fexp_sized mx ex lx K Hm HK ltac:(lia)) as [H1 H2].
  destruct (shr_fexp prec emax mx ex lx) as [mrs' e']. cbn [fst snd] in H1, H2.
  pose proof (round_nearest_even_bound (shr_m mrs') (loc_of_shr_record mrs') H1) as Hr.
  set (m1 := round_nearest_even (shr_m mrs') (loc_of_shr_record mrs')) in *.
  assert (Hm1 : Zdigits2 m1 + e' <= K + 1).
  { pose proof (Zdigits2_mono m1 (shr_m mrs' + 1) ltac:(lia)).
    pose proof (Zdigits2_succ (shr_m mrs') H1). lia. }
  destruct (shr_fexp_sized m1 e' loc_Exact (K + 1) ltac:(lia) Hm1 ltac:(lia)) as [H3 H4].
  destruct (shr_fexp prec emax m1 e' loc_Exact) as [mrs'' e'']. cbn [fst snd] in H3, H4.
  destruct (shr_m mrs'') as [|m|m]; [exact I| |lia].
  cbn [Zdigits2] in H4.
  destruct (Z.leb_spec e'' (emax - prec)); [exact H4|].
  unfold emax, prec in *. lia.
Qed.


Lemma SFmul_sized (K1 K2 : Z) (x y : spec_float) :
  sized K1 x -> sized K2 y -> -1074 <= K1 + K2 <= 971 ->
  sized (K1 + K2 + 1) (SFmul prec emax x y).
Proof.
  destruct x as [sx|sx| |sx mx ex], y as [sy|sy| |sy my ey]; cbn [sized SFmul];
    try tauto.
  intros H1 H2 HK. apply binary_round_aux_sized; [lia| |lia].
  pose proof (Zdigits2_mul (Zpos mx) (Zpos my) ltac:(lia) ltac:(lia)) as Hd.
  cbn [Zdigits2 Z.mul] in Hd. cbn [Zdigits2]. lia.
Qed.

Lemma digits2_iter_xO (d : positive) (m : positive) :
  Zpos (digits2_pos (Pos.iter xO m d)) = Zpos (digits2_pos m) + Zpos d.
Proof.
  induction d as [|d IH] using Pos.peano_ind.
  - cbn. lia.
  - rewrite Pos.iter_succ. cbn [digits2_pos]. lia.
Qed.

Lemma binary_normalize_sized (z : Z) (K : Z) :
  Z.abs z < 2 ^ K -> 0 <= K <= 971 ->
  sized (K + 1) (binary_normalize prec emax z 0 false).
Proof.
  intros Hz HK.
  assert (Hbr : forall s m, Zpos m < 2 ^ K ->
                sized (K + 1) (binary_round prec emax s m 0)).
  { intros s m Hm. unfold binary_round, shl_align.
    assert (Hd : Zpos (digits2_pos m) <= K)
      by (apply (Zdigits2_le_iff (Zpos m) K); lia).
    destruct (fexp prec emax (Z.pos (digits2_pos m) + 0) - 0) as [|p|p] eqn:Hn;
      apply binary_round_aux_sized; cbn [Zdigits2]; try lia.
    rewrite digits2_iter_xO. lia. }
  destruct z as [|m|m]; cbn [binary_normalize]; [exact I| |]; apply Hbr; lia.
Qed.

Lemma SFdiv_sized (K : Z) (x : spec_float) (sy : bool) (my : positive) (ey : Z) :
  sized K x -> -1074 <= K - ey <= 971 ->
  sized (K - ey + 1) (SFdiv prec emax x (S754_finite sy my ey)).
Proof.
  destruct x as [sx|sx| |sx mx ex]; cbn [sized SFdiv]; try tauto.
  intros Hx HK. unfold SFdiv_core_binary.
  set (e' := Z.min _ _).
  set (s := ex - ey - e').
  assert (Hs : 0 <= s) by (unfold s, e'; lia).
  set (m' := match s with Z.pos _ => Z.shiftl (Z.pos mx) s | 0 => Z.pos mx | Z.neg _ => 0 end).
  assert (Hm' : 0 <= m' /\ Zdigits2 m' <= Zpos (digits2_pos mx) + s).
  { unfold m'. destruct s as [|p|p]; [cbn [Zdigits2]; lia| |lia].
    rewrite Z.shiftl_mul_pow2 by lia.
    assert (0 < 2 ^ Zpos p) by (apply Z.pow_pos_nonneg; lia).
    split; [nia|].
    apply Zdigits2_le_iff; [nia|lia|].
    assert (Zpos mx < 2 ^ Zpos (digits2_pos mx))
      by (apply (Zdigits2_le_iff (Zpos mx)); cbn [Zdigits2]; lia).
    rewrite Z.pow_add_r by lia. nia. }
  destruct Hm' as [Hm0 Hmd].
  destruct (Z.div_eucl m' (Z.pos my)) as [q r] eqn:Hqr.
  assert (Hq : q = m' / Zpos my) by (unfold Z.div; rewrite Hqr; reflexivity).
  assert (Hq0 : 0 <= q) by (subst q; apply Z.div_pos; lia).
  assert (Hqm : q <= m').
  { subst q. apply Z.div_le_upper_bound; [lia|]. nia. }
  apply binary_round_aux_sized; [exact Hq0| |lia].
  pose proof (Zdigits2_mono q m' ltac:(lia)). unfold s in Hmd. lia.
Qed.

(** ** Python operations on numbers of bounded size do not raise *)

Lemma sized_not_overflow (K : Z) (f : spec_float) :
  sized K f ->
  match f with S754_infinity _ => False | S754_nan => False | _ => True end.
Proof. destruct f; cbn; tauto. Qed.

Lemma float_of_int_sized (z K : Z) :
  Z.abs z < 2 ^ K -> 0 <= K <= 971 ->
  exists f, float_of_int z = Ok f /\ sized (K + 1) f.
Proof.
  intros Hz HK. pose proof (binary_normalize_sized z K Hz HK) as Hs.
  unfold float_of_int.
  destruct (binary_normalize prec emax z 0 false) as [s|s| |s m e] eqn:E;
    cbn [sized] in Hs; try tauto; eauto.
Qed.

Lemma py_mul_sized (K1 K2 : Z) (a b : pynum) :
  num_sized K1 a -> num_sized K2 b -> 0 <= K1 -> 0 <= K2 -> K1 + K2 + 2 <= 971 ->
  exists v, py_mul a b = Ok v /\ num_sized (K1 + K2 + 3) v.
Proof.
  intros Ha Hb H1 H2 HK.
  destruct a as [x|f], b as [y|g]; cbn [num_sized py_mul] in *.
  - eexists. split; [reflexivity|]. cbn [num_sized].
    rewrite Z.abs_mul.
    assert (2 ^ K1 * 2 ^ K2 <= 2 ^ (K1 + K2 + 3)).
    { rewrite <- Z.pow_add_r by lia. apply Z.pow_le_mono_r; lia. }
    assert (0 < 2 ^ K1) by (apply Z.pow_pos_nonneg; lia).
    assert (0 < 2 ^ K2) by (apply Z.pow_pos_nonneg; lia).
    nia.
  - destruct (float_of_int_sized x K1 Ha ltac:(lia)) as (f & -> & Hf). cbn [rbind].
    eexists. split; [reflexivity|]. cbn [num_sized].
    eapply sized_weaken; [apply (SFmul_sized (K1 + 1) K2); auto; lia | lia].
  - destruct (float_of_int_sized y K2 Hb ltac:(lia)) as (g & -> & Hg). cbn [rbind].
    eexists. split; [reflexivity|]. cbn [num_sized].
    eapply sized_weaken; [apply (SFmul_sized K1 (K2 + 1)); auto; lia | lia].
  - eexists. split; [reflexivity|]. cbn [num_sized].
    eapply sized_weaken; [apply (SFmul_sized K1 K2); auto; lia | lia].
Qed.


Lemma round_half_even_bound (n : Z) (d : positive) :
  0 <= n -> 0 <= round_half_even n d <= n / Zpos d + 1.
Proof.
  intros Hn. unfold round_half_even.
  assert (0 <= n / Zpos d) by (apply Z.div_pos; lia).
  destruct (2 * (n mod Z.pos d) ?= Z.pos d); [destruct (Z.even _)| |]; lia.
Qed.

(** The exact value [n/d] of a float of magnitude below [2^K]. *)
Lemma ratio_of_finite_bound (m : positive) (e K : Z) :
  0 <= K -> Zpos (digits2_pos m) + e <= K ->
  0 < fst (ratio_of_finite m e) /\
  fst (ratio_of_finite m e) < 2 ^ K * Zpos (snd (ratio_of_finite m e)).
Proof.
  intros HK Hd.
  assert (Hm : Zpos m < 2 ^ Zpos (digits2_pos m))
    by (apply (Zdigits2_le_iff (Zpos m)); cbn [Zdigits2]; lia).
  destruct e as [|p|p]; cbn [ratio_of_finite fst snd].
  - split; [lia|]. rewrite Z.mul_1_r.
    eapply Z.lt_le_trans; [exact Hm|]. apply Z.pow_le_mono_r; lia.
  - assert (0 < 2 ^ Zpos p) by (apply Z.pow_pos_nonneg; lia).
    split; [nia|]. rewrite Z.mul_1_r.
    apply Z.lt_le_trans with (2 ^ Zpos (digits2_pos m) * 2 ^ Zpos p); [nia|].
    rewrite <- Z.pow_add_r by lia. apply Z.pow_le_mono_r; lia.
  - split; [lia|]. rewrite Pos2Z.inj_pow.
    assert (0 < 2 ^ Zpos p) by (apply Z.pow_pos_nonneg; lia).
    eapply Z.lt_le_trans; [exact Hm|].
    rewrite <- Z.pow_add_r by lia. apply Z.pow_le_mono_r; lia.
Qed.

Lemma py_round_sized (K : Z) (x : pynum) :
  num_sized K x -> 0 <= K ->
  exists z, py_round x = Ok z /\ Z.abs z < 2 ^ (K + 1).
Proof.
  intros Hx HK.
  assert (Hpow : 2 ^ (K + 1) = 2 * 2 ^ K)
    by (rewrite Z.pow_add_r by lia; change (2 ^ 1) with 2; lia).
  assert (0 < 2 ^ K) by (apply Z.pow_pos_nonneg; lia).
  destruct x as [z|[s|s| |s m e]]; cbn [num_sized sized py_round] in *; try tauto.
  - exists z. split; [reflexivity | lia].
  - exists 0. split; [reflexivity | cbn; lia].
  - destruct (ratio_of_finite_bound m e K HK Hx) as [Hn0 Hn].
    destruct (ratio_of_finite m e) as [n d]. cbn [fst snd] in Hn0, Hn.
    pose proof (round_half_even_bound n d ltac:(lia)) as Hr.
    assert (n / Zpos d < 2 ^ K) by (apply Z.div_lt_upper_bound; lia).
    eexists. split; [reflexivity|]. destruct s; lia.
Qed.

Lemma py_round_ndigits_sized (K : Z) (x : pynum) :
  num_sized K x -> 0 <= K <= 960 ->
  exists v, py_round_ndigits x 1 = Ok v /\ num_sized (K + 6) v.
Proof.
  intros Hx HK.
  assert (Hmono : 2 ^ K <= 2 ^ (K + 6)) by (apply Z.pow_le_mono_r; lia).
  destruct x as [z|[s|s| |s m e]]; cbn [num_sized sized py_round_ndigits] in *;
    try tauto.
  - exists (PyInt z). split; [reflexivity | cbn; lia].
  - eexists. split; [reflexivity | exact I].
  - destruct (ratio_of_finite_bound m e K ltac:(lia) Hx) as [Hn0 Hn].
    destruct (ratio_of_finite m e) as [n d]. cbn [fst snd] in Hn0, Hn.
    change (Z.to_pos (10 ^ Z.of_N 1)) with 10%positive.
    pose proof (round_half_even_bound (n * 10) d ltac:(lia)) as Hr.
    assert (Hq : n * 10 / Zpos d < 10 * 2 ^ K) by (apply Z.div_lt_upper_bound; lia).
    destruct (round_half_even (n * 10) d) as [|r|r];
      [eexists; split; [reflexivity | exact I] | | lia].
    assert (Hs : sized (K + 5) (float_of_ratio s r 10)).
    { unfold float_of_ratio.
      replace (K + 5) with (K + 4 - 0 + 1) by lia.
      apply SFdiv_sized; [|lia]. cbn [sized].
      assert (Zpos (digits2_pos r) <= K + 4); [|lia].
      apply (Zdigits2_le_iff (Zpos r)); try lia.
      replace (K + 4) with (4 + K) by lia.
      rewrite Z.pow_add_r by lia. change (2 ^ 4) with 16. lia. }
    destruct (float_of_ratio s r 10) as [s'|s'| |s' m' e'];
      cbn [sized] in Hs; try tauto;
      (eexists; split; [reflexivity|]); cbn [num_sized sized]; [exact I | lia].
Qed.

Lemma c_18_0182_value :
  c_18_0182 = PyFloat (S754_finite false 5071672425367942 (-48)).
Proof. vm_compute. reflexivity. Qed.

Lemma py_truediv_c_sized (K : Z) (z : Z) :
  Z.abs z < 2 ^ K -> 0 <= K <= 900 ->
  exists q, py_truediv (PyInt z) c_18_0182 = Ok q /\ num_sized (K + 50) q.
Proof.
  intros Hz HK. rewrite c_18_0182_value. cbn [py_truediv].
  destruct (float_of_int_sized z K Hz ltac:(lia)) as (f & -> & Hf). cbn [rbind].
  unfold float_div. cbn [float_is_zero].
  eexists. split; [reflexivity|]. cbn [num_sized].
  replace (K + 50) with (K + 1 - (-48) + 1) by lia.
  apply SFdiv_sized; [exact Hf | lia].
Qed.

Lemma pow10_sized (e : Z) : -8 <= e <= 7 -> num_sized 24 (pow10 e).
Proof.
  intros He. unfold pow10. destruct (Z.leb_spec 0 e); cbn [num_sized].
  - rewrite Z.abs_eq by (apply Z.pow_nonneg; lia).
    apply Z.le_lt_trans with (10 ^ 7); [apply Z.pow_le_mono_r; lia | reflexivity].
  - eapply sized_weaken; [|instantiate (1 := 1 - 0 + 1); lia].
    unfold float_of_ratio. apply SFdiv_sized; [cbn; lia | lia].
Qed.

Lemma sfloat_mantissa_range (raw : Z) : 0 <= raw -> Z.abs (sfloat_mantissa raw) < 2 ^ 12.
Proof.
  intros Hraw. unfold sfloat_mantissa.
  change 0x0FFF with (Z.ones 12). rewrite Z.land_ones by lia.
  pose proof (Z.mod_pos_bound raw (2 ^ 12) ltac:(lia)).
  change (2 ^ 12) with 4096 in *.
  destruct (Z.leb_spec 0x0800 (raw mod 4096)); lia.
Qed.

Lemma sfloat_exponent_range (raw : Z) :
  0 <= raw < 65536 -> -8 <= sfloat_exponent raw <= 7.
Proof.
  intros Hraw. unfold sfloat_exponent.
  rewrite Z.shiftr_div_pow2 by lia. change (2 ^ 12) with 4096.
  assert (0 <= raw / 4096 < 16)
    by (split; [apply Z.div_pos; lia | apply Z.div_lt_upper_bound; lia]).
  destruct (Z.leb_spec 0x08 (raw / 4096)); lia.
Qed.



(** ** Every concentration word decodes *)

Lemma sfloat_value_sized (raw : Z) :
  0 <= raw < 65536 -> exists val, sfloat_value raw = Ok val /\ num_sized 39 val.
Proof.
  intros Hraw. unfold sfloat_value.
  apply (py_mul_sized 12 24); try lia.
  - apply sfloat_mantissa_range; lia.
  - apply pow10_sized, sfloat_exponent_range, Hraw.
Qed.

Lemma glucose_fields_total (u : bool) (val : pynum) :
  num_sized 39 val -> exists g, glucose_fields u val = Ok g.
Proof.
  intros Hval. unfold glucose_fields. destruct u.
  - destruct (py_mul_sized 39 17 val (PyInt 100000) Hval) as (x & -> & Hx);
      [cbn; lia | lia ..|]. cbn [rbind].
    destruct (py_round_sized _ x Hx) as (mg & -> & Hmg); [lia|]. cbn [rbind].
    destruct (py_truediv_c_sized _ mg Hmg) as (q & -> & Hq); [lia|]. cbn [rbind].
    destruct (py_round_ndigits_sized _ q Hq) as (mm & -> & _); [lia|]. cbn [rbind].
    eauto.
  - destruct (py_mul_sized 39 10 val (PyInt 1000) Hval) as (x & -> & Hx);
      [cbn; lia | lia ..|]. cbn [rbind].
    destruct (py_round_ndigits_sized _ x Hx) as (mm & -> & Hmm); [lia|]. cbn [rbind].
    destruct (py_mul_sized _ 5 mm c_18_0182 Hmm) as (y & -> & Hy);
      [rewrite c_18_0182_value; cbn; lia | lia ..|]. cbn [rbind].
    destruct (py_round_sized _ y Hy) as (mg & -> & _); [lia|]. cbn [rbind].
    eauto.
Qed.

Lemma finish_decode_total (u : bool) (ts : string) (raw : Z) :
  0 <= raw < 65536 -> exists r, finish_decode u ts raw = Ok r /\ dt_str r = ts.
Proof.
  intros Hraw. unfold finish_decode.
  destruct (sfloat_value_sized raw Hraw) as (val & -> & Hval). cbn [rbind].
  destruct (glucose_fields_total u val Hval) as (g & ->). cbn [rbind].
  eexists. split; reflexivity.
Qed.

Lemma word_range (lo hi : byte) : 0 <= byte_val lo + 256 * byte_val hi < 65536.
Proof.
  pose proof (byte_val_range lo). pose proof (byte_val_range hi). lia.
Qed.

(** A payload is accepted as soon as it holds the concentration word:
    12 bytes, or 14 when flag bit 0 announces a time offset. *)
Lemma parse_glucose_accepts (data : list byte) (flags : Z) :
  index data 0 = Ok flags ->
  (concentration_offset flags + 2 <= List.length data)%nat ->
  exists r, parse_glucose data = Ok r.
Proof.
  intros Hf Hlen.
  assert (Hge : (10 <= List.length data)%nat)
    by (unfold concentration_offset in Hlen; destruct (Z.testbit flags 0); lia).
  do 10 (destruct data as [|? data]; [cbn [List.length] in Hge; lia|]).
  cbn in Hf. injection Hf as <-.
  rewrite parse_glucose_cons10, flag_bit0.
  unfold concentration_offset in Hlen. cbn [List.length] in Hlen.
  destruct (Z.testbit (byte_val b) 0).
  - destruct data as [|o1 [|o2 [|c1 [|c2 data]]]]; cbn [List.length] in Hlen; try lia.
    cbn [skipn firstn]. rewrite unpack_H_value. cbn [rbind].
    destruct (finish_decode_total (Z.land (byte_val b) 4 =? 0)
                (format_timestamp (byte_val b2 + 256 * byte_val b3) (byte_val b4)
                   (byte_val b5) (byte_val b6) (byte_val b7) (byte_val b8))
                _ (word_range c1 c2)) as (r & Hr & _).
    eauto.
  - destruct data as [|c1 [|c2 data]]; cbn [List.length] in Hlen; try lia.
    cbn [firstn]. rewrite unpack_H_value. cbn [rbind].
    destruct (finish_decode_total (Z.land (byte_val b) 4 =? 0)
                (format_timestamp (byte_val b2 + 256 * byte_val b3) (byte_val b4)
                   (byte_val b5) (byte_val b6) (byte_val b7) (byte_val b8))
                _ (word_range c1 c2)) as (r & Hr & _).
    eauto.
Qed.



(* ------------------------------------------------------------------ *)
(** ** Flag bits *)

Lemma parse_glucose_flags_only (f f' : byte) (rest : list byte) :
  Z.land (byte_val f) 0x01 = Z.land (byte_val f') 0x01 ->
  Z.land (byte_val f) 0x04 = Z.land (byte_val f') 0x04 ->
  parse_glucose (f :: rest) = parse_glucose (f' :: rest).
Proof.
  intros H0 H2. unfold parse_glucose, index, slice.
  cbn [nth_error skipn firstn rbind Nat.add Nat.sub].
  rewrite H0, H2.
  destruct (Z.land (byte_val f') 1 =? 1); reflexivity.
Qed.

(** C10: toggling bit 1 of the flags byte (type-and-sample-location
    present) changes nothing: the decoder returns the same result, and
    the concentration word is read at the same place, right after the
    base time and the optional two bytes of time offset. *)
Theorem flags_bit1_is_ignored (flags : byte) (rest : list byte) :
  byte_val (flip_bit1 flags) = Z.lxor (byte_val flags) 2 /\
  concentration_offset (byte_val (flip_bit1 flags)) = concentration_offset (byte_val flags) /\
  parse_glucose (flip_bit1 flags :: rest) = parse_glucose (flags :: rest).
Proof.
  split; [apply flip_bit1_val|]. split.
  - destruct flags; reflexivity.
  - apply parse_glucose_flags_only; destruct flags; reflexivity.
Qed.

(* ------------------------------------------------------------------ *)
(** ** Short payloads *)

Lemma handler_on_parse_error (io : io_outcome) (data : list byte) (w : world) (e : exn) :
  parse_glucose data = Raise e -> is_Exception e = true ->
  notification_handler io data w =
  (Ok tt, log (EPrint (" [BLE] Parse Error: " ++ exn_msg e)) w).
Proof.
  intros Hp He. unfold notification_handler, try_except, bind, lift.
  rewrite Hp, He. reflexivity.
Qed.

(** C3: a payload shorter than 10 bytes is rejected with an exception,
    never decoded into a reading; the notification handler then leaves
    the status, the readings cache and the CSV file as they were, so the
    snapshot seen by the query surface is unchanged. *)
Theorem short_payload_is_rejected_and_not_committed
    (data : list byte) (io : io_outcome) (w : world) :
  (List.length data < 10)%nat ->
  (exists e, parse_glucose data = Raise e) /\
  fst (notification_handler io data w) = Ok tt /\
  latest_status (snd (notification_handler io data w)) = latest_status w /\
  readings_cache (snd (notification_handler io data w)) = readings_cache w /\
  csv_file (snd (notification_handler io data w)) = csv_file w /\
  get_data (snd (notification_handler io data w)) = get_data w.
Proof.
  intros Hlen.
  destruct (parse_glucose_short data Hlen) as (e & Hp & He).
  split; [exists e; exact Hp|].
  rewrite (handler_on_parse_error io data w e Hp He).
  repeat split.
Qed.

Lemma short_payload_is_rejected_and_not_committed_witness :
  (List.length [x00; x01; x00; xe8; x07; x03; x0f; x08; x1e] < 10)%nat /\
  readings_cache
    (snd (notification_handler IoOk [x00; x01; x00; xe8; x07; x03; x0f; x08; x1e]
            initial_world)) = [].
Proof.
  split; [cbn; lia|].
  apply (short_payload_is_rejected_and_not_committed
           [x00; x01; x00; xe8; x07; x03; x0f; x08; x1e] IoOk initial_world).
  cbn; lia.
Defined.



(* ------------------------------------------------------------------ *)
(** ** What an accepted payload looks like *)

Lemma rbind_Ok {A B} (r : result A) (k : A -> result B) (b : B) :
  rbind r k = Ok b -> exists a, r = Ok a /\ k a = Ok b.
Proof. destruct r as [a|e]; cbn; [eauto | discriminate]. Qed.

Lemma accepted_payload (data : list byte) (r : reading) :
  parse_glucose data = Ok r ->
  exists f s1 s2 yl yh mo d h mi s tail raw val g,
    data = f :: s1 :: s2 :: yl :: yh :: mo :: d :: h :: mi :: s :: tail /\
    unpack_H (firstn 2 (if Z.testbit (byte_val f) 0 then skipn 2 tail else tail)) = Ok raw /\
    sfloat_value raw = Ok val /\
    glucose_fields (negb (Z.testbit (byte_val f) 2)) val = Ok g /\
    r = mkReading
          (format_timestamp (byte_val yl + 256 * byte_val yh)
             (byte_val mo) (byte_val d) (byte_val h) (byte_val mi) (byte_val s))
          (fst g) (snd g).
Proof.
  intros Hp.
  destruct (Nat.lt_ge_cases (List.length data) 10) as [Hlt|Hge].
  { destruct (parse_glucose_short data Hlt) as (e & He & _). congruence. }
  do 10 (destruct data as [|? data]; [cbn [List.length] in Hge; lia|]).
  rewrite parse_glucose_cons10, flag_bit0, flag_bit2 in Hp.
  apply rbind_Ok in Hp as (raw & Hraw & Hp). unfold finish_decode in Hp.
  apply rbind_Ok in Hp as (val & Hval & Hp).
  apply rbind_Ok in Hp as (g & Hg & Hp).
  injection Hp as <-.
  repeat eexists; eassumption.
Qed.

(** An accepted payload is decoded from its flags, its timestamp and its
    concentration word. *)
Lemma accepted_payload_word (data : list byte) (r : reading) :
  parse_glucose data = Ok r ->
  exists flags raw,
    index data 0 = Ok flags /\
    unpack_H (slice data (concentration_offset flags) (concentration_offset flags + 2))
      = Ok raw /\
    0 <= raw < 65536 /\
    finish_decode (negb (Z.testbit flags 2)) (dt_str r) raw = Ok r.
Proof.
  intros Hp.
  assert (Hlen : (10 <= List.length data)%nat).
  { destruct (Nat.lt_ge_cases (List.length data) 10) as [Hlt|]; [|assumption].
    destruct (parse_glucose_short data Hlt) as (e & He & _). congruence. }
  do 10 (destruct data as [|? data]; [cbn [List.length] in Hlen; lia|]).
  rewrite parse_glucose_cons10, flag_bit0, flag_bit2 in Hp.
  exists (byte_val b). cbn [index nth_error].
  assert (Hslice : slice (b :: b0 :: b1 :: b2 :: b3 :: b4 :: b5 :: b6 :: b7 :: b8 :: data)
                     (concentration_offset (byte_val b))
                     (concentration_offset (byte_val b) + 2) =
                   firstn 2 (if Z.testbit (byte_val b) 0 then skipn 2 data else data)).
  { unfold slice, concentration_offset.
    destruct (Z.testbit (byte_val b) 0);
      rewrite Nat.add_sub_swap, Nat.sub_diag by lia; reflexivity. }
  rewrite Hslice.
  destruct (firstn 2 _) as [|c1 [|c2 [|c3 l]]]; cbn [unpack_H rbind] in Hp;
    try discriminate.
  rewrite le16_value in Hp. rewrite unpack_H_value.
  exists (byte_val c1 + 256 * byte_val c2).
  split; [reflexivity|]. split; [reflexivity|]. split; [apply word_range|].
  assert (Ht : dt_str r = format_timestamp (byte_val b2 + 256 * byte_val b3)
                 (byte_val b4) (byte_val b5) (byte_val b6) (byte_val b7) (byte_val b8)).
  { unfold finish_decode in Hp.
    destruct (sfloat_value _) as [v|]; [|discriminate]. cbn [rbind] in Hp.
    destruct (glucose_fields _ v) as [g|]; [|discriminate]. cbn [rbind] in Hp.
    injection Hp as <-. reflexivity. }
  rewrite Ht. exact Hp.
Qed.

(* ------------------------------------------------------------------ *)
(** ** Rounding, on exact values and in the code *)

Lemma Qround_half_even_comp (p q : Q) :
  (p == q)%Q -> Qround_half_even p = Qround_half_even q.
Proof.
  intros H. unfold Qround_half_even.
  rewrite (Qfloor_comp p q H).
  assert (Hc : ((p - inject_Z (Qfloor q) ?= 1 # 2) = (q - inject_Z (Qfloor q) ?= 1 # 2))%Q)
    by (apply Qcompare_comp; [rewrite H|]; reflexivity).
  rewrite Hc. reflexivity.
Qed.

(** On a fraction, the exact rounding is the rounding of the code. *)
Lemma Qround_half_even_frac (a : Z) (b : positive) :
  Qround_half_even (a # b) = round_half_even a b.
Proof.
  unfold Qround_half_even, round_half_even, Qfloor, Qcompare, Qminus, Qplus, Qopp,
    inject_Z.
  cbn [Qnum Qden].
  pose proof (Z.div_mod a (Zpos b) ltac:(lia)) as Hdm.
  set (f := a / Zpos b) in *. set (r := a mod Zpos b) in *.
  rewrite Pos2Z.inj_mul.
  destruct (Z.compare_spec ((a * 1 + - f * Zpos b) * 2) (1 * (Zpos b * 1)));
    destruct (Z.compare_spec (2 * r) (Zpos b)); try reflexivity; exfalso; lia.
Qed.

Lemma round_half_even_opp (n : Z) (d : positive) :
  round_half_even (- n) d = - round_half_even n d.
Proof.
  unfold round_half_even.
  pose proof (Z.div_mod n (Zpos d) ltac:(lia)) as Hdm.
  pose proof (Z.mod_pos_bound n (Zpos d) ltac:(lia)) as Hr.
  destruct (Z.eq_dec (n mod Zpos d) 0) as [Hz|Hnz].
  - rewrite (Z.div_opp_l_z n (Zpos d)), (Z.mod_opp_l_z n (Zpos d)) by (lia || exact Hz).
    rewrite Hz. cbn [Z.mul]. destruct (0 ?= Zpos d) eqn:E; try reflexivity.
    + apply Z.compare_eq in E. lia.
    + apply Z.compare_gt_iff in E. lia.
  - rewrite (Z.div_opp_l_nz n (Zpos d)), (Z.mod_opp_l_nz n (Zpos d)) by (lia || exact Hnz).
    set (q := n / Zpos d) in *. set (r := n mod Zpos d) in *.
    assert (Heven : Z.even (- q - 1) = negb (Z.even q)).
    { replace (- q - 1) with (- (Z.succ q)) by lia.
      rewrite Z.even_opp, Z.even_succ. symmetry. apply Z.negb_even. }
    destruct (Z.compare_spec (2 * (Zpos d - r)) (Zpos d));
      destruct (Z.compare_spec (2 * r) (Zpos d)); try (exfalso; lia); try lia.
    rewrite Heven. destruct (Z.even q); cbn [negb]; lia.
Qed.

Lemma float_value_finite (s : bool) (m : positive) (e : Z) :
  float_value (S754_finite s m e) =
  ((if s then - fst (ratio_of_finite m e) else fst (ratio_of_finite m e))
   # snd (ratio_of_finite m e)).
Proof.
  unfold float_value, float_exact. destruct (ratio_of_finite m e). reflexivity.
Qed.

(** [round(x)] of the code is the exact rounding of the value of [x]. *)
Lemma py_round_exact (f : spec_float) (z : Z) :
  py_round (PyFloat f) = Ok z -> z = round_to_int f.
Proof.
  unfold round_to_int. destruct f as [s|s| |s m e]; cbn [py_round]; try discriminate.
  - intros [= <-]. reflexivity.
  - rewrite float_value_finite. destruct (ratio_of_finite m e) as [n d].
    cbn [fst snd]. intros [= <-].
    destruct s; rewrite Qround_half_even_frac; [apply eq_sym, round_half_even_opp|].
    reflexivity.
Qed.

(** [round(x, 1)] of the code is the double nearest to the exact
    rounding of the value of [x] to tenths. *)
Lemma py_round_ndigits_exact (f : spec_float) (v : pynum) :
  py_round_ndigits (PyFloat f) 1 = Ok v -> v = PyFloat (round_to_tenth f).
Proof.
  destruct f as [s|s| |s m e]; cbn [py_round_ndigits round_to_tenth];
    try (intros [= <-]; reflexivity).
  rewrite float_value_finite.
  pose proof (ratio_of_finite_bound m e (Z.max 0 (Zpos (digits2_pos m) + e))
                ltac:(lia) ltac:(lia)) as [Hn _].
  destruct (ratio_of_finite m e) as [n d]. cbn [fst snd] in *.
  change (Z.to_pos (10 ^ Z.of_N 1)) with 10%positive.
  pose proof (round_half_even_bound (n * 10) d ltac:(lia)) as [Hr _].
  assert (Ht : Qround_half_even (((if s then - n else n) # d) * inject_Z 10) =
               if s then - round_half_even (n * 10) d else round_half_even (n * 10) d).
  { rewrite (Qround_half_even_comp _ (((if s then - n else n) * 10) # d)).
    - rewrite Qround_half_even_frac. destruct s; [|reflexivity].
      rewrite <- round_half_even_opp. f_equal. lia.
    - unfold Qeq, Qmult, inject_Z. cbn [Qnum Qden]. rewrite Pos2Z.inj_mul. lia. }
  rewrite Ht.
  destruct (round_half_even (n * 10) d) as [|t|t]; [| |lia].
  - intros [= <-]. destruct s; reflexivity.
  - destruct s; cbn [Z.opp float_of_tenths];
      (destruct (float_of_ratio _ t 10); [| discriminate | |]; intros [= <-]; reflexivity).
Qed.

Lemma float_of_int_value (z : Z) (f : spec_float) :
  float_of_int z = Ok f -> f = float_of_Z z.
Proof.
  unfold float_of_int, float_of_Z.
  destruct (binary_normalize prec emax z 0 false); intros [= <-]; reflexivity.
Qed.

Lemma c_18_0182_double : c_18_0182 = PyFloat double_18_0182.
Proof. apply c_18_0182_value. Qed.

(** ** The two fields of an accepted payload *)

(** The rest of the decoder, from the word on, computes the formulas in
    binary64. *)
Lemma finish_decode_fields (u : bool) (ts : string) (raw : Z) (r : reading) :
  finish_decode u ts raw = Ok r ->
  (mgdl r, mmol r) = binary64_fields u (sfloat_mantissa raw) (sfloat_exponent raw).
Proof.
  unfold finish_decode, sfloat_value, pow10, binary64_fields.
  set (m := sfloat_mantissa raw). set (e := sfloat_exponent raw).
  intros H.
  apply rbind_Ok in H as (val & Hval & H).
  apply rbind_Ok in H as (g & Hg & H).
  injection H as <-. cbn [mgdl mmol].
  unfold glucose_fields in Hg. rewrite c_18_0182_double in Hg.
  destruct (0 <=? e).
  - cbn [py_mul] in Hval. injection Hval as <-.
    destruct u; cbn [py_mul rbind py_round py_truediv py_round_ndigits] in Hg.
    + apply rbind_Ok in Hg as (q & Hq & Hg).
      apply rbind_Ok in Hg as (mm & Hmm & Hg). injection Hg as <-. cbn [fst snd].
      apply rbind_Ok in Hq as (fz & Hfz & Hq).
      apply float_of_int_value in Hfz. subst fz.
      unfold float_div in Hq. cbn [float_is_zero double_18_0182] in Hq.
      injection Hq as <-.
      apply py_round_ndigits_exact in Hmm. subst mm. reflexivity.
    + apply rbind_Ok in Hg as (y & Hy & Hg).
      apply rbind_Ok in Hg as (mg & Hmg & Hg). injection Hg as <-. cbn [fst snd].
      apply rbind_Ok in Hy as (fz & Hfz & Hy).
      apply float_of_int_value in Hfz. subst fz. injection Hy as <-.
      apply py_round_exact in Hmg. subst mg. reflexivity.
  - cbn [py_mul] in Hval.
    apply rbind_Ok in Hval as (fm & Hfm & Hval).
    apply float_of_int_value in Hfm. subst fm. injection Hval as <-.
    destruct u; cbn [py_mul] in Hg.
    + apply rbind_Ok in Hg as (x & Hx & Hg).
      apply rbind_Ok in Hg as (mg & Hmg & Hg).
      apply rbind_Ok in Hg as (q & Hq & Hg).
      apply rbind_Ok in Hg as (mm & Hmm & Hg). injection Hg as <-. cbn [fst snd].
      apply rbind_Ok in Hx as (fk & Hfk & Hx).
      apply float_of_int_value in Hfk. subst fk. injection Hx as <-.
      apply py_round_exact in Hmg. subst mg.
      cbn [py_truediv] in Hq.
      apply rbind_Ok in Hq as (fz & Hfz & Hq).
      apply float_of_int_value in Hfz. subst fz.
      unfold float_div in Hq. cbn [float_is_zero double_18_0182] in Hq.
      injection Hq as <-.
      apply py_round_ndigits_exact in Hmm. subst mm. reflexivity.
    + apply rbind_Ok in Hg as (x & Hx & Hg).
      apply rbind_Ok in Hg as (mm & Hmm & Hg).
      apply rbind_Ok in Hg as (y & Hy & Hg).
      apply rbind_Ok in Hg as (mg & Hmg & Hg). injection Hg as <-. cbn [fst snd].
      apply rbind_Ok in Hx as (fk & Hfk & Hx).
      apply float_of_int_value in Hfk. subst fk. injection Hx as <-.
      apply py_round_ndigits_exact in Hmm. subst mm.
      cbn [py_mul] in Hy. injection Hy as <-.
      apply py_round_exact in Hmg. subst mg. reflexivity.
Qed.

(** An accepted payload is decoded from its flags and its concentration
    word by these formulas. *)
Lemma accepted_fields (data : list byte) (r : reading) (flags raw : Z) :
  parse_glucose data = Ok r ->
  index data 0 = Ok flags ->
  unpack_H (slice data (concentration_offset flags) (concentration_offset flags + 2))
    = Ok raw ->
  0 <= raw < 65536 /\
  (mgdl r, mmol r) =
  binary64_fields (negb (Z.testbit flags 2)) (sfloat_mantissa raw) (sfloat_exponent raw).
Proof.
  intros Hp Hf Hw.
  destruct (accepted_payload_word data r Hp) as (flags' & raw' & Hf' & Hw' & Hr & Hd).
  rewrite Hf in Hf'. injection Hf' as <-.
  rewrite Hw in Hw'. injection Hw' as <-.
  split; [exact Hr|]. exact (finish_decode_fields _ _ _ _ Hd).
Qed.





(* ------------------------------------------------------------------ *)
(** ** The two fields of the word are two's-complement numbers *)

Lemma sfloat_fields_twos (raw : Z) :
  0 <= raw < 65536 ->
  sfloat_mantissa raw = twos_complement 12 (raw mod 2 ^ 12) /\
  sfloat_exponent raw = twos_complement 4 (raw / 2 ^ 12).
Proof.
  intros Hraw. unfold twos_complement.
  change (2 ^ 12) with 4096. change (2 ^ (12 - 1)) with 2048.
  change (2 ^ 4) with 16. change (2 ^ (4 - 1)) with 8.
  assert (Hm : Z.land raw 0x0FFF = raw mod 4096).
  { change 0x0FFF with (Z.ones 12). rewrite Z.land_ones by lia. reflexivity. }
  assert (Hx : Z.shiftr raw 12 = raw / 4096).
  { rewrite Z.shiftr_div_pow2 by lia. reflexivity. }
  assert (0 <= raw mod 4096 < 4096) by (apply Z.mod_pos_bound; lia).
  assert (0 <= raw / 4096 < 16)
    by (split; [apply Z.div_pos; lia | apply Z.div_lt_upper_bound; lia]).
  split.
  - unfold sfloat_mantissa. rewrite Hm.
    destruct (Z.leb_spec 0x0800 (raw mod 4096)), (Z.ltb_spec (raw mod 4096) 2048); lia.
  - unfold sfloat_exponent. rewrite Hx.
    destruct (Z.leb_spec 0x08 (raw / 4096)), (Z.ltb_spec (raw / 4096) 8); lia.
Qed.

(** C2: the decoder reads the two bytes of the concentration word of an
    accepted payload as a little-endian 16-bit word and interprets bits
    0-11 as a two's-complement mantissa and bits 12-15 as a
    two's-complement exponent: these are the mantissa and the exponent
    of lines 100-109, and the glucose fields it returns are the ones
    computed from them.  In a kg/L
    payload with a non-negative exponent mgdl is
    mantissa * 10^(exponent + 5), so the mantissa shows in the result
    with its sign.  Word 0x0FFF has mantissa -1 and exponent 0, word
    0x07FF has mantissa 2047, the sign boundary is at 0x0800, exponent
    field 0xD is -3 and exponent field 0x3 is 3. *)
Theorem sfloat_fields_are_twos_complement
    (data : list byte) (r : reading) (flags : Z) (lo hi : byte) :
  parse_glucose data = Ok r ->
  index data 0 = Ok flags ->
  slice data (concentration_offset flags) (concentration_offset flags + 2) = [lo; hi] ->
  let raw := byte_val lo + 256 * byte_val hi in
  let mantissa := twos_complement 12 (raw mod 2 ^ 12) in
  let exponent := twos_complement 4 (raw / 2 ^ 12) in
  sfloat_mantissa raw = mantissa /\ sfloat_exponent raw = exponent /\
  (mgdl r, mmol r) = binary64_fields (negb (Z.testbit flags 2)) mantissa exponent /\
  (Z.testbit flags 2 = false -> 0 <= exponent ->
   mgdl r = mantissa * 10 ^ (exponent + 5)) /\
  (raw = 0x0FFF -> mantissa = -1 /\ exponent = 0) /\
  (raw = 0x07FF -> mantissa = 2047) /\
  (raw = 0x0800 -> mantissa = -2048) /\
  (raw / 2 ^ 12 = 0xD -> exponent = -3) /\
  (raw / 2 ^ 12 = 0x3 -> exponent = 3).
Proof.
  intros Hp Hf Hs raw mantissa exponent.
  assert (Hw : unpack_H (slice data (concentration_offset flags)
                           (concentration_offset flags + 2)) = Ok raw)
    by (rewrite Hs; apply unpack_H_value).
  destruct (accepted_fields data r flags raw Hp Hf Hw) as [Hraw Hfields].
  destruct (sfloat_fields_twos raw Hraw) as [Hm He].
  fold mantissa in Hm. fold exponent in He. rewrite Hm, He in Hfields.
  split; [exact Hm|]. split; [exact He|].
  split; [exact Hfields|]. split.
  { intros Hkg Hexp. rewrite Hkg in Hfields. cbn [negb] in Hfields.
    unfold binary64_fields in Hfields.
    destruct (Z.leb_spec 0 exponent); [|lia].
    injection Hfields as Hmg _. rewrite Hmg, Z.pow_add_r by lia.
    change (10 ^ 5) with 100000. ring. }
  unfold mantissa, exponent.
  split; [intros E; rewrite E; split; reflexivity|].
  repeat (split; [intros E; rewrite E; reflexivity|]).
  intros E. rewrite E. reflexivity.
Qed.

Lemma sfloat_fields_are_twos_complement_witness :
  exists r, parse_glucose payload_0FFF = Ok r /\ mgdl r = -1 * 10 ^ (0 + 5).
Proof.
  destruct (parse_glucose payload_0FFF) as [r|e] eqn:Hp;
    [|vm_compute in Hp; discriminate].
  exists r. split; [reflexivity|].
  destruct (sfloat_fields_are_twos_complement payload_0FFF r 0 xff x0f Hp eq_refl eq_refl)
    as (_ & _ & _ & Hmg & _).
  apply Hmg; [reflexivity | apply Z.leb_le; reflexivity].
Defined.


(* ------------------------------------------------------------------ *)
(** ** The time offset *)

(** C6: with flag bit 0 set the decoder steps over two more bytes after
    the base time and reads the concentration word behind them; the two
    bytes are not used.  Take a payload without the offset field and a
    payload with it, having the same base time and the same
    concentration word: both are accepted and decoded from that
    timestamp and that word, so their timestamps are the same whatever
    the offset bytes are, and when the flags agree on the unit bit the
    readings are the same. *)
Theorem time_offset_is_skipped_not_applied
    (f0 f1 s1 s2 t1 t2 yl yh mo d h mi s o1 o2 c1 c2 : byte)
    (rest0 rest1 : list byte) :
  Z.testbit (byte_val f0) 0 = false ->
  Z.testbit (byte_val f1) 0 = true ->
  let p0 := f0 :: s1 :: s2 :: yl :: yh :: mo :: d :: h :: mi :: s ::
            c1 :: c2 :: rest0 in
  let p1 := f1 :: t1 :: t2 :: yl :: yh :: mo :: d :: h :: mi :: s ::
            o1 :: o2 :: c1 :: c2 :: rest1 in
  let ts := format_timestamp (byte_val yl + 256 * byte_val yh)
              (byte_val mo) (byte_val d) (byte_val h) (byte_val mi) (byte_val s) in
  let raw := byte_val c1 + 256 * byte_val c2 in
  parse_glucose p0 = finish_decode (negb (Z.testbit (byte_val f0) 2)) ts raw /\
  parse_glucose p1 = finish_decode (negb (Z.testbit (byte_val f1) 2)) ts raw /\
  exists r0 r1,
    parse_glucose p0 = Ok r0 /\ parse_glucose p1 = Ok r1 /\
    dt_str r0 = ts /\ dt_str r1 = ts /\
    (Z.testbit (byte_val f0) 2 = Z.testbit (byte_val f1) 2 -> r1 = r0).
Proof.
  intros H0 H1 p0 p1 ts raw.
  assert (E0 : parse_glucose p0 = finish_decode (negb (Z.testbit (byte_val f0) 2)) ts raw).
  { unfold p0. rewrite parse_glucose_cons10, flag_bit0, flag_bit2, H0.
    cbn [firstn]. rewrite unpack_H_value. reflexivity. }
  assert (E1 : parse_glucose p1 = finish_decode (negb (Z.testbit (byte_val f1) 2)) ts raw).
  { unfold p1. rewrite parse_glucose_cons10, flag_bit0, flag_bit2, H1.
    cbn [skipn firstn]. rewrite unpack_H_value. reflexivity. }
  split; [exact E0|]. split; [exact E1|].
  destruct (finish_decode_total (negb (Z.testbit (byte_val f0) 2)) ts raw
              (word_range c1 c2)) as (r0 & Hr0 & Ht0).
  destruct (finish_decode_total (negb (Z.testbit (byte_val f1) 2)) ts raw
              (word_range c1 c2)) as (r1 & Hr1 & Ht1).
  exists r0, r1. rewrite E0, E1.
  repeat split; try assumption.
  intros Hu. rewrite Hu in Hr0. congruence.
Qed.

Lemma time_offset_is_skipped_not_applied_witness :
  Z.testbit (byte_val x00) 0 = false /\
  Z.testbit (byte_val x01) 0 = true /\
  parse_glucose sample_payload = Ok sample_reading /\
  exists r0 r1,
    parse_glucose sample_payload = Ok r0 /\
    parse_glucose sample_payload_with_offset = Ok r1 /\
    dt_str r0 = "2024-03-15 08:30:00"%string /\
    dt_str r1 = "2024-03-15 08:30:00"%string /\
    (Z.testbit (byte_val x00) 2 = Z.testbit (byte_val x01) 2 -> r1 = r0).
Proof.
  split; [reflexivity|]. split; [reflexivity|].
  split; [vm_compute; reflexivity|].
  apply (time_offset_is_skipped_not_applied
           x00 x01 x01 x00 x01 x00 xe8 x07 x03 x0f x08 x1e x00 x3c x00 x5f xb0 [] []);
    reflexivity.
Defined.



(* ------------------------------------------------------------------ *)
(** ** The timestamp *)

Lemma is_digit_digit_char (n k : Z) : is_digit (digit_char n k) = true.
Proof.
  unfold digit_char.
  assert (H : 0 <= (n / 10 ^ k) mod 10 < 10) by (apply Z.mod_pos_bound; lia).
  set (v := (n / 10 ^ k) mod 10) in *.
  assert (Hv : v = 0 \/ v = 1 \/ v = 2 \/ v = 3 \/ v = 4 \/ v = 5 \/ v = 6 \/
               v = 7 \/ v = 8 \/ v = 9) by lia.
  repeat (destruct Hv as [Hv|Hv]; [rewrite Hv; reflexivity|]).
  rewrite Hv. reflexivity.
Qed.

Lemma four_digit_years :
  forall_range (Z.to_nat 9000) 1000 (fun y => String.eqb (str_int y) (digits4 y)) = true.
Proof. vm_cast_no_check (eq_refl true). Qed.

Lemma str_int_four_digits (y : Z) :
  1000 <= y <= 9999 -> str_int y = digits4 y.
Proof.
  intros Hy. apply String.eqb_eq.
  apply (forall_range_spec _ _ _ four_digit_years y).
  rewrite Z2Nat.id by lia. lia.
Qed.

Lemma two_digit_fields :
  forall_range (Z.to_nat 100) 0 (fun n => String.eqb (format_02d n) (digits2 n)) = true.
Proof. vm_cast_no_check (eq_refl true). Qed.

Lemma format_02d_two_digits (n : Z) :
  0 <= n < 100 -> format_02d n = digits2 n.
Proof.
  intros Hn. apply String.eqb_eq.
  apply (forall_range_spec _ _ _ two_digit_fields n).
  rewrite Z2Nat.id by lia. lia.
Qed.

Lemma fixed_width_shape (y a b c d e : Z) :
  is_fixed_width_timestamp
    (digits4 y ++ "-" ++ digits2 a ++ "-" ++ digits2 b ++ " " ++
     digits2 c ++ ":" ++ digits2 d ++ ":" ++ digits2 e) = true.
Proof.
  unfold is_fixed_width_timestamp, digits4, digits2.
  cbn [append list_ascii_of_string forallb].
  rewrite !is_digit_digit_char. reflexivity.
Qed.

(** C9, as the code has it: the timestamp of an accepted payload is
    built from the seven bytes of the base time: the little-endian
    16-bit year in decimal without padding, then month, day, hours,
    minutes and seconds, each padded with a zero to at least two digits.
    It has the fixed-width shape YYYY-MM-DD HH:MM:SS when the year lies
    in 1000..9999 and the five other fields are below 100. *)
Theorem timestamp_of_accepted_payload
    (data : list byte) (r : reading) (yl yh mo d h mi s : byte) :
  parse_glucose data = Ok r ->
  slice data 3 10 = [yl; yh; mo; d; h; mi; s] ->
  let year := byte_val yl + 256 * byte_val yh in
  dt_str r =
    (str_int year ++ "-" ++ format_02d (byte_val mo) ++ "-" ++
     format_02d (byte_val d) ++ " " ++ format_02d (byte_val h) ++ ":" ++
     format_02d (byte_val mi) ++ ":" ++ format_02d (byte_val s))%string /\
  (1000 <= year <= 9999 /\ byte_val mo < 100 /\ byte_val d < 100 /\
   byte_val h < 100 /\ byte_val mi < 100 /\ byte_val s < 100 ->
   dt_str r =
     (digits4 year ++ "-" ++ digits2 (byte_val mo) ++ "-" ++
      digits2 (byte_val d) ++ " " ++ digits2 (byte_val h) ++ ":" ++
      digits2 (byte_val mi) ++ ":" ++ digits2 (byte_val s))%string /\
   is_fixed_width_timestamp (dt_str r) = true).
Proof.
  intros Hp Hs year.
  destruct (accepted_payload data r Hp)
    as (f & s1 & s2 & yl' & yh' & mo' & d' & h' & mi' & s' & tail & raw & val & g
        & -> & _ & _ & _ & ->).
  unfold slice in Hs. cbn [skipn firstn Nat.sub] in Hs.
  injection Hs as -> -> -> -> -> -> ->.
  cbn [dt_str]. split; [reflexivity|].
  intros (Hy & Hmo & Hd & Hh & Hmi & Hsec).
  pose proof (byte_val_range mo). pose proof (byte_val_range d).
  pose proof (byte_val_range h). pose proof (byte_val_range mi).
  pose proof (byte_val_range s).
  unfold format_timestamp. fold year.
  rewrite (str_int_four_digits year Hy), !format_02d_two_digits by lia.
  split; [reflexivity | apply fixed_width_shape].
Qed.

Lemma timestamp_of_accepted_payload_witness :
  parse_glucose sample_payload = Ok sample_reading /\
  slice sample_payload 3 10 = [xe8; x07; x03; x0f; x08; x1e; x00] /\
  dt_str sample_reading = "2024-03-15 08:30:00"%string /\
  is_fixed_width_timestamp (dt_str sample_reading) = true.
Proof.
  assert (Hp : parse_glucose sample_payload = Ok sample_reading)
    by (vm_compute; reflexivity).
  assert (Hs : slice sample_payload 3 10 = [xe8; x07; x03; x0f; x08; x1e; x00])
    by reflexivity.
  split; [exact Hp|]. split; [exact Hs|]. split; [reflexivity|].
  apply (timestamp_of_accepted_payload _ _ _ _ _ _ _ _ _ Hp Hs).
  vm_compute. repeat split; congruence.
Defined.

(** C9 as stated fails: the Bluetooth date-time value "unknown" (all
    base-time bytes zero) is accepted and yields a 15-character string. *)
Lemma timestamp_not_fixed_width_for_unknown_date :
  exists r,
    parse_glucose unknown_date_payload = Ok r /\
    dt_str r = "0-00-00 00:00:00"%string /\
    is_fixed_width_timestamp (dt_str r) = false.
Proof.
  eexists. split; [vm_compute; reflexivity|]. split; reflexivity.
Qed.



(* ------------------------------------------------------------------ *)
(** ** The arithmetic of [val] *)

Lemma negative_exponent_words_within_ulp :
  forall_range (Z.to_nat 32768) 32768 value_within_ulp = true.
Proof. vm_cast_no_check (eq_refl true). Qed.

(** C4, as the code has it: [val = mantissa * (10 ** exponent)] is
    computed in Python's own arithmetic.  With a non-negative exponent
    it is an [int] and equals the mathematical product.  With a negative
    exponent it is a binary64 float, the rounded product of
    float(mantissa) and the double nearest to 10^exponent; it lies
    within a relative error of 2^-52 of the mathematical product. *)
Theorem value_arithmetic (raw : Z) :
  0 <= raw < 65536 ->
  let m := sfloat_mantissa raw in
  let e := sfloat_exponent raw in
  (0 <= e -> sfloat_value raw = Ok (PyInt (m * 10 ^ e))) /\
  (e < 0 ->
   exists fm q,
     float_of_int m = Ok fm /\
     sfloat_value raw =
       Ok (PyFloat (SFmul prec emax fm (float_of_ratio false 1 (Z.to_pos (10 ^ (- e)))))) /\
     float_exact (SFmul prec emax fm (float_of_ratio false 1 (Z.to_pos (10 ^ (- e)))))
       = Some q /\
     (Qabs (q - (m # Z.to_pos (10 ^ (- e)))) * inject_Z (2 ^ 52)
      <= Qabs (m # Z.to_pos (10 ^ (- e))))%Q).
Proof.
  intros Hraw m e. split; intros He.
  - unfold sfloat_value, pow10. fold e m.
    destruct (Z.leb_spec 0 e); [reflexivity | lia].
  - assert (Hhigh : 32768 <= raw).
    { destruct (Z.lt_ge_cases raw 32768) as [Hlow|]; [|assumption].
      exfalso. unfold e, sfloat_exponent in He.
      rewrite Z.shiftr_div_pow2 in He by lia. change (2 ^ 12) with 4096 in He.
      assert (0 <= raw / 4096 < 8)
        by (split; [apply Z.div_pos; lia | apply Z.div_lt_upper_bound; lia]).
      destruct (Z.leb_spec 0x08 (raw / 4096)); lia. }
    pose proof (forall_range_spec _ _ _ negative_exponent_words_within_ulp raw) as H.
    rewrite Z2Nat.id in H by lia. specialize (H ltac:(lia)).
    unfold value_within_ulp, exact_product in H. fold m e in H.
    unfold sfloat_value, pow10 in *. fold m e in H |- *.
    destruct (Z.leb_spec 0 e); [lia|].
    cbn [py_mul] in *.
    destruct (float_of_int m) as [fm|]; cbn [rbind] in *; [|discriminate].
    cbn [pynum_exact] in H.
    destruct (float_exact _) as [q|] eqn:Hq; [|discriminate].
    exists fm, q. split; [reflexivity|]. split; [reflexivity|].
    split; [exact Hq|]. apply Qle_bool_iff. exact H.
Qed.

Lemma value_arithmetic_witness :
  0 <= 0xB05F < 65536 /\
  sfloat_exponent 0xB05F < 0 /\
  exists fm q,
    float_of_int 95 = Ok fm /\
    sfloat_value 0xB05F =
      Ok (PyFloat (SFmul prec emax fm (float_of_ratio false 1 100000))) /\
    float_exact (SFmul prec emax fm (float_of_ratio false 1 100000)) = Some q /\
    (Qabs (q - (95 # 100000)) * inject_Z (2 ^ 52) <= Qabs (95 # 100000))%Q.
Proof.
  split; [lia|]. split; [vm_compute; reflexivity|].
  apply (value_arithmetic 0xB05F); [lia | vm_compute; reflexivity].
Defined.

(** C4 as stated fails: mantissa 1 with exponent -1 gives the double
    0.1, which is not one tenth. *)
Lemma value_is_not_exact_for_one_tenth :
  sfloat_mantissa 0xF001 = 1 /\ sfloat_exponent 0xF001 = -1 /\
  value_is_exact 0xF001 = false /\
  exists f q,
    sfloat_value 0xF001 = Ok (PyFloat f) /\
    float_exact f = Some q /\
    ~ (q == 1 # 10)%Q.
Proof.
  split; [reflexivity|]. split; [reflexivity|].
  split; [vm_compute; reflexivity|].
  exists (S754_finite false 7205759403792794 (-56)).
  eexists. split; [vm_compute; reflexivity|]. split; [vm_compute; reflexivity|].
  intros H. apply Qeq_bool_iff in H. vm_compute in H. discriminate.
Qed.



(* ------------------------------------------------------------------ *)
(** ** The store and the sink *)

Lemma rbind_raises_only_Exception {A B} (r : result A) (k : A -> result B) :
  raises_only_Exception r = true ->
  (forall a, raises_only_Exception (k a) = true) ->
  raises_only_Exception (rbind r k) = true.
Proof. destruct r as [a|e]; cbn; auto. Qed.

Lemma float_of_int_raises (z : Z) : raises_only_Exception (float_of_int z) = true.
Proof. unfold float_of_int. destruct (binary_normalize prec emax z 0 false); reflexivity. Qed.

Lemma float_div_raises (f g : spec_float) : raises_only_Exception (float_div f g) = true.
Proof. unfold float_div. destruct (float_is_zero g); reflexivity. Qed.

Lemma py_mul_raises (a b : pynum) : raises_only_Exception (py_mul a b) = true.
Proof.
  destruct a, b; cbn [py_mul]; try reflexivity;
    (apply rbind_raises_only_Exception; [apply float_of_int_raises | reflexivity]).
Qed.

Lemma py_truediv_raises (a b : pynum) : raises_only_Exception (py_truediv a b) = true.
Proof.
  destruct a as [x|f], b as [y|g]; cbn [py_truediv].
  - destruct x, y; try reflexivity;
      match goal with |- context [float_of_ratio ?s ?n ?d] =>
        destruct (float_of_ratio s n d); reflexivity end.
  - apply rbind_raises_only_Exception; [apply float_of_int_raises | intros; apply float_div_raises].
  - apply rbind_raises_only_Exception; [apply float_of_int_raises | intros; apply float_div_raises].
  - apply float_div_raises.
Qed.

Lemma py_round_raises (x : pynum) : raises_only_Exception (py_round x) = true.
Proof.
  destruct x as [z|[s|s| |s m e]]; cbn [py_round]; try reflexivity.
  destruct (ratio_of_finite m e). reflexivity.
Qed.

Lemma py_round_ndigits_raises (x : pynum) (n : N) :
  raises_only_Exception (py_round_ndigits x n) = true.
Proof.
  destruct x as [z|[s|s| |s m e]]; cbn [py_round_ndigits]; try reflexivity.
  destruct (ratio_of_finite m e) as [num den].
  destruct (round_half_even _ _); try reflexivity.
  match goal with |- context [float_of_ratio ?s ?n ?d] =>
    destruct (float_of_ratio s n d); reflexivity end.
Qed.

Lemma finish_decode_raises (u : bool) (ts : string) (raw : Z) :
  raises_only_Exception (finish_decode u ts raw) = true.
Proof.
  unfold finish_decode, sfloat_value, glucose_fields.
  apply rbind_raises_only_Exception; [apply py_mul_raises|]. intros val.
  apply rbind_raises_only_Exception; [|reflexivity].
  destruct u;
    repeat (apply rbind_raises_only_Exception; [|intros ?]);
    auto using py_mul_raises, py_round_raises, py_truediv_raises,
      py_round_ndigits_raises, float_of_int_raises, float_div_raises.
Qed.

(** Whatever the decoder raises is of class [Exception]. *)
Lemma parse_error_is_Exception (data : list byte) (e : exn) :
  parse_glucose data = Raise e -> is_Exception e = true.
Proof.
  intros Hp.
  destruct (Nat.lt_ge_cases (List.length data) 10) as [Hlt|Hge].
  { destruct (parse_glucose_short data Hlt) as (e' & He' & Hc). congruence. }
  do 10 (destruct data as [|? data]; [cbn [List.length] in Hge; lia|]).
  rewrite parse_glucose_cons10 in Hp.
  match type of Hp with
  | rbind ?r ?k = _ =>
      assert (H : raises_only_Exception (rbind r k) = true)
  end.
  { apply rbind_raises_only_Exception; [|intros; apply finish_decode_raises].
    unfold unpack_H.
    repeat match goal with
           | |- context [match ?l with [] => _ | _ :: _ => _ end] => destruct l
           end; reflexivity. }
  rewrite Hp in H. exact H.
Qed.

Lemma save_reading_ok (timestamp : string) (mgdl mmol : pynum) (w : world) :
  save_reading IoOk timestamp mgdl mmol w =
  (Ok tt,
   log (EPrint ("NEW READING: " ++ py_str mgdl ++ " mg/dL. UI will update on next poll."))
     (mkWorld (latest_status w)
        [mkRow timestamp (py_str mgdl) (py_str mmol)]
        (Some [csv_header; [timestamp; py_str mgdl; py_str mmol]])
        (trace w))).
Proof. reflexivity. Qed.

(** C8: after every commit (a call of [save_reading] that returns) the
    readings of the snapshot are exactly one element, the reading just
    committed, whatever the store held before. *)
Theorem store_keeps_only_latest_reading
    (io : io_outcome) (timestamp : string) (mgdl mmol : pynum) (w : world) :
  fst (save_reading io timestamp mgdl mmol w) = Ok tt ->
  snd (get_data (snd (save_reading io timestamp mgdl mmol w))) =
    [mkRow timestamp (py_str mgdl) (py_str mmol)] /\
  List.length (snd (get_data (snd (save_reading io timestamp mgdl mmol w)))) = 1%nat.
Proof.
  destruct io as [|e|e]; cbn; intros H; [split; reflexivity | discriminate ..].
Qed.

Lemma store_keeps_only_latest_reading_witness :
  fst (save_reading IoOk "2024-03-15 08:30:00" (PyInt 95) (mmol sample_reading)
         (mkWorld "Connected! Waiting for Data..."
            [mkRow "2024-03-14 21:05:10" "101" "5.6"] None [])) = Ok tt /\
  snd (get_data
         (snd (save_reading IoOk "2024-03-15 08:30:00" (PyInt 95) (mmol sample_reading)
                 (mkWorld "Connected! Waiting for Data..."
                    [mkRow "2024-03-14 21:05:10" "101" "5.6"] None [])))) =
    [mkRow "2024-03-15 08:30:00" "95" "5.3"].
Proof.
  split; [reflexivity|].
  apply (store_keeps_only_latest_reading IoOk "2024-03-15 08:30:00" (PyInt 95)
           (mmol sample_reading)).
  reflexivity.
Defined.

Lemma handler_on_accepted (io : io_outcome) (data : list byte) (r : reading) (w : world) :
  parse_glucose data = Ok r ->
  notification_handler io data w =
  try_except
    (save_reading io (dt_str r) (PyInt (mgdl r)) (mmol r))
    (fun e => print (" [BLE] Parse Error: " ++ exn_msg e))
    (log (EPrint (" [BLE] Parsed: " ++ str_int (mgdl r) ++ " mg/dL at " ++ dt_str r)) w).
Proof.
  intros Hp. unfold notification_handler, try_except, bind, lift, print.
  rewrite Hp. reflexivity.
Qed.

Lemma save_reading_raises (io : io_outcome) (timestamp : string) (mgdl mmol : pynum)
    (w : world) :
  io_fails io = true ->
  exists e w',
    save_reading io timestamp mgdl mmol w = (Raise e, w') /\
    (io = IoOpenFails e \/ io = IoWriteFails e) /\
    get_data w' = get_data w /\ trace w' = trace w.
Proof.
  destruct io as [|e|e]; [discriminate| |]; intros _;
    exists e; eexists; (split; [reflexivity|]); auto.
Qed.

Lemma notification_handler_returns (io : io_outcome) (data : list byte) (w : world) :
  io_raises_only_Exception io = true ->
  fst (notification_handler io data w) = Ok tt.
Proof.
  intros Hio.
  destruct (parse_glucose data) as [r|e] eqn:Hp.
  - rewrite (handler_on_accepted io data r w Hp). unfold try_except.
    destruct (io_fails io) eqn:Hf.
    + destruct (save_reading_raises io (dt_str r) (PyInt (mgdl r)) (mmol r)
                  (log (EPrint (" [BLE] Parsed: " ++ str_int (mgdl r) ++ " mg/dL at "
                                ++ dt_str r)) w) Hf)
        as (e & w' & -> & [->| ->] & _); cbn in Hio; rewrite Hio; reflexivity.
    + destruct io; [|discriminate ..]. reflexivity.
  - rewrite (handler_on_parse_error io data w e Hp (parse_error_is_Exception data e Hp)).
    reflexivity.
Qed.

(** C5, as the code has it: an exception of the sink never leaves
    [notification_handler]: the handler catches it, prints it and
    returns.  The file is rewritten before the cache is replaced, so when
    the sink raises the reading is not committed and the store keeps its
    status and its readings; when the sink succeeds on an accepted
    payload the store holds that reading. *)
Theorem sink_failure_is_caught_and_reading_dropped
    (io : io_outcome) (data : list byte) (w : world) :
  io_raises_only_Exception io = true ->
  fst (notification_handler io data w) = Ok tt /\
  (io_fails io = true ->
   get_data (snd (notification_handler io data w)) = get_data w) /\
  (io = IoOk -> forall r, parse_glucose data = Ok r ->
   get_data (snd (notification_handler io data w)) =
     (latest_status w, [mkRow (dt_str r) (str_int (mgdl r)) (py_str (mmol r))])).
Proof.
  intros Hio. split; [apply notification_handler_returns, Hio|]. split.
  - intros Hf.
    destruct (parse_glucose data) as [r|e] eqn:Hp.
    + rewrite (handler_on_accepted io data r w Hp). unfold try_except.
      destruct (save_reading_raises io (dt_str r) (PyInt (mgdl r)) (mmol r)
                  (log (EPrint (" [BLE] Parsed: " ++ str_int (mgdl r) ++ " mg/dL at "
                                ++ dt_str r)) w) Hf)
        as (e & w' & -> & Hcase & Hkeep & _).
      assert (He : is_Exception e = true)
        by (destruct Hcase as [->| ->]; exact Hio).
      rewrite He. cbn [snd print]. exact Hkeep.
    + rewrite (handler_on_parse_error io data w e Hp (parse_error_is_Exception data e Hp)).
      reflexivity.
  - intros -> r Hp.
    rewrite (handler_on_accepted IoOk data r w Hp). unfold try_except.
    rewrite save_reading_ok. reflexivity.
Qed.

Lemma sink_failure_is_caught_and_reading_dropped_witness :
  io_raises_only_Exception (IoOpenFails permission_denied) = true /\
  fst (notification_handler (IoOpenFails permission_denied) sample_payload
         initial_world) = Ok tt /\
  get_data (snd (notification_handler (IoOpenFails permission_denied) sample_payload
                   initial_world)) = get_data initial_world.
Proof.
  split; [reflexivity|].
  destruct (sink_failure_is_caught_and_reading_dropped
              (IoOpenFails permission_denied) sample_payload initial_world)
    as (Hret & Hkeep & _); [reflexivity|].
  split; [exact Hret | apply Hkeep; reflexivity].
Defined.

(** C5 as stated fails: when the file cannot be opened the reading of an
    accepted payload is not in the store, while it is when the sink
    succeeds. *)
Lemma sink_failure_loses_the_reading :
  readings_cache (snd (notification_handler IoOk sample_payload initial_world)) =
    [mkRow "2024-03-15 08:30:00" "95" "5.3"] /\
  readings_cache (snd (notification_handler (IoOpenFails permission_denied)
                         sample_payload initial_world)) = [] /\
  readings_cache (snd (notification_handler (IoOpenFails permission_denied)
                         sample_payload initial_world)) <>
  readings_cache (snd (notification_handler IoOk sample_payload initial_world)).
Proof.
  assert (Hok : readings_cache
                  (snd (notification_handler IoOk sample_payload initial_world)) =
                [mkRow "2024-03-15 08:30:00" "95" "5.3"])
    by (vm_compute; reflexivity).
  assert (Hfail : readings_cache
                    (snd (notification_handler (IoOpenFails permission_denied)
                            sample_payload initial_world)) = [])
    by (vm_compute; reflexivity).
  split; [exact Hok|]. split; [exact Hfail|].
  rewrite Hok, Hfail. discriminate.
Qed.



(* ------------------------------------------------------------------ *)
(** ** The trace only grows *)

Section Appends.
Context {A B : Type}.

Lemma appends_ret (a : A) : appends (ret a).
Proof. intros w. exists []. cbn. now rewrite app_nil_r. Qed.

Lemma appends_lift (r : result A) : appends (lift r).
Proof. intros w. exists []. cbn. now rewrite app_nil_r. Qed.

Lemma appends_await (ev : event) (r : result A) : appends (await ev r).
Proof. intros w. exists [ev]. reflexivity. Qed.

Lemma appends_bind (m : M A) (k : A -> M B) :
  appends m -> (forall a, appends (k a)) -> appends (bind m k).
Proof.
  intros Hm Hk w. unfold bind.
  destruct (Hm w) as (evs & Hevs).
  destruct (m w) as [[a|e] w1]; cbn [snd] in Hevs.
  - destruct (Hk a w1) as (evs' & Hevs').
    exists (evs ++ evs'). rewrite Hevs', Hevs. now rewrite app_assoc.
  - exists evs. exact Hevs.
Qed.

Lemma appends_try_except (m : M A) (h : exn -> M A) :
  appends m -> (forall e, appends (h e)) -> appends (try_except m h).
Proof.
  intros Hm Hh w. unfold try_except.
  destruct (Hm w) as (evs & Hevs).
  destruct (m w) as [[a|e] w1]; cbn [snd] in Hevs.
  - exists evs. exact Hevs.
  - destruct (is_Exception e).
    + destruct (Hh e w1) as (evs' & Hevs').
      exists (evs ++ evs'). rewrite Hevs', Hevs. now rewrite app_assoc.
    + exists evs. exact Hevs.
Qed.

Lemma appends_async_with (enter : M A) (exit : M unit) (body : A -> M B) :
  appends enter -> appends exit -> (forall a, appends (body a)) ->
  appends (async_with enter exit body).
Proof.
  intros He Hx Hb w. unfold async_with.
  destruct (He w) as (evs & Hevs).
  destruct (enter w) as [[a|e] w1]; cbn [snd] in Hevs.
  - destruct (Hb a w1) as (evs1 & Hevs1).
    destruct (body a w1) as [r w2]; cbn [snd] in Hevs1.
    destruct (Hx w2) as (evs2 & Hevs2).
    destruct (exit w2) as [[u|e] w3]; cbn [snd] in Hevs2 |- *;
      exists (evs ++ evs1 ++ evs2);
      rewrite Hevs2, Hevs1, Hevs; now rewrite !app_assoc.
  - exists evs. exact Hevs.
Qed.
End Appends.

Lemma appends_print (s : string) : appends (print s).
Proof. intros w. exists [EPrint s]. reflexivity. Qed.

Lemma appends_set_latest_status (s : string) : appends (set_latest_status s).
Proof. intros w. exists [EStatus s]. reflexivity. Qed.

Lemma appends_save_reading (io : io_outcome) (ts : string) (a b : pynum) :
  appends (save_reading io ts a b).
Proof.
  intros w. destruct io; cbn.
  - eexists. reflexivity.
  - exists []. now rewrite app_nil_r.
  - exists []. now rewrite app_nil_r.
Qed.

Lemma appends_notification_handler (io : io_outcome) (data : list byte) :
  appends (notification_handler io data).
Proof.
  unfold notification_handler.
  apply appends_try_except; [|intros; apply appends_print].
  apply appends_bind; [apply appends_lift|]. intros r.
  apply appends_bind; [apply appends_print|]. intros _.
  apply appends_save_reading.
Qed.

Lemma appends_deliver (ns : list (io_outcome * list byte)) : appends (deliver ns).
Proof.
  induction ns as [|[io data] ns IH]; cbn [deliver].
  - apply appends_ret.
  - apply appends_bind; [apply appends_notification_handler | intros _; exact IH].
Qed.

Lemma appends_session (sc : script) (d : device) : appends (session sc d).
Proof.
  unfold session.
  apply appends_async_with; try apply appends_await.
  intros _. destruct (client_is_connected sc); [|apply appends_ret].
  repeat (apply appends_bind; [|intros ?]);
    auto using appends_set_latest_status, appends_print, appends_await, appends_deliver.
Qed.

Lemma status_then_appends (s : string) (k : unit -> M unit) (w : world) :
  appends (k tt) ->
  exists rest,
    trace (snd (bind (set_latest_status s) k w)) = trace w ++ EStatus s :: rest.
Proof.
  intros Hk. unfold bind, set_latest_status.
  match goal with
  | |- context [k tt ?w1] => destruct (Hk w1) as (rest & Hrest)
  end.
  exists rest. rewrite Hrest. cbn. now rewrite <- app_assoc.
Qed.

(** Whatever the environment does, a pass starts by publishing the
    Scanning status. *)
Lemma iteration_publishes_scanning_first (sc : script) (w : world) :
  exists rest,
    trace (snd (ble_iteration sc w)) = trace w ++ EStatus scanning_status :: rest.
Proof.
  unfold ble_iteration. apply status_then_appends.
  apply appends_bind; [|intros _; apply appends_await].
  apply appends_try_except; [|intros; apply appends_print].
  apply appends_bind; [apply appends_await|]. intros dev.
  apply appends_bind.
  { destruct dev; [apply appends_ret | apply appends_await]. }
  intros [d|]; [|apply appends_ret].
  apply appends_bind; [apply appends_set_latest_status|]. intros _.
  apply appends_bind; [apply appends_print|]. intros _.
  apply appends_try_except; [apply appends_session | intros; apply appends_print].
Qed.

(* ------------------------------------------------------------------ *)
(** ** Exceptions that reach the loop *)

Section Catchable.
Context {A B : Type}.

Lemma returns_catchable (m : M A) : returns m -> catchable m.
Proof. intros H w. specialize (H w). destruct (fst (m w)); [reflexivity | discriminate]. Qed.

Lemma returns_ret (a : A) : returns (ret a).
Proof. intros w. reflexivity. Qed.

Lemma catchable_await (ev : event) (r : result A) :
  raises_only_Exception r = true -> catchable (await ev r).
Proof. intros H w. exact H. Qed.

Lemma returns_await (ev : event) (r : result A) :
  is_Ok r = true -> returns (await ev r).
Proof. intros H w. exact H. Qed.

Lemma catchable_bind (m : M A) (k : A -> M B) :
  catchable m -> (forall a, catchable (k a)) -> catchable (bind m k).
Proof.
  intros Hm Hk w. unfold bind. specialize (Hm w).
  destruct (m w) as [[a|e] w1]; [apply Hk | exact Hm].
Qed.

Lemma returns_bind (m : M A) (k : A -> M B) :
  returns m -> (forall a, returns (k a)) -> returns (bind m k).
Proof.
  intros Hm Hk w. unfold bind. specialize (Hm w).
  destruct (m w) as [[a|e] w1]; [apply Hk | discriminate].
Qed.

Lemma returns_try_except (m : M A) (h : exn -> M A) :
  catchable m -> (forall e, returns (h e)) -> returns (try_except m h).
Proof.
  intros Hm Hh w. unfold try_except. specialize (Hm w).
  destruct (m w) as [[a|e] w1]; [reflexivity|].
  cbn in Hm. rewrite Hm. apply Hh.
Qed.

Lemma catchable_async_with (enter : M A) (exit : M unit) (body : A -> M B) :
  catchable enter -> catchable exit -> (forall a, catchable (body a)) ->
  catchable (async_with enter exit body).
Proof.
  intros He Hx Hb w. unfold async_with. specialize (He w).
  destruct (enter w) as [[a|e] w1]; [|exact He].
  specialize (Hb a w1). destruct (body a w1) as [r w2].
  specialize (Hx w2). destruct (exit w2) as [[u|e] w3]; assumption.
Qed.
End Catchable.

Lemma returns_print (s : string) : returns (print s).
Proof. intros w. reflexivity. Qed.

Lemma returns_set_latest_status (s : string) : returns (set_latest_status s).
Proof. intros w. reflexivity. Qed.

Lemma returns_notification_handler (io : io_outcome) (data : list byte) :
  io_raises_only_Exception io = true -> returns (notification_handler io data).
Proof.
  intros Hio w. rewrite (notification_handler_returns io data w Hio). reflexivity.
Qed.

Lemma returns_deliver (ns : list (io_outcome * list byte)) :
  forallb (fun n => io_raises_only_Exception (fst n)) ns = true ->
  returns (deliver ns).
Proof.
  induction ns as [|[io data] ns IH]; cbn [deliver forallb fst]; intros H.
  - apply returns_ret.
  - apply andb_true_iff in H as [Hio Hns].
    apply returns_bind; [apply returns_notification_handler; exact Hio|].
    intros _. apply IH, Hns.
Qed.

Lemma catchable_session (sc : script) (d : device) :
  peer_faults_only sc = true -> catchable (session sc d).
Proof.
  unfold peer_faults_only. rewrite !andb_true_iff.
  intros ((((((((Hu & Hn) & Hc) & Hs) & Hd) & Hw) & Hp) & Hx) & Hi).
  unfold session. apply catchable_async_with; try (apply catchable_await; assumption).
  intros _. destruct (client_is_connected sc); [|apply returns_catchable, returns_ret].
  apply catchable_bind; [apply returns_catchable, returns_set_latest_status|]. intros _.
  apply catchable_bind; [apply returns_catchable, returns_print|]. intros _.
  apply catchable_bind; [apply catchable_await, Hs|]. intros _.
  apply catchable_bind; [apply returns_catchable, returns_deliver, Hd|]. intros _.
  apply catchable_bind; [apply returns_catchable, returns_await, Hw|]. intros _.
  apply catchable_bind; [apply catchable_await, Hp|]. intros _.
  apply returns_catchable, returns_print.
Qed.

(** No exception of class [Exception] raised by the transport, the peer
    or the file system leaves a pass of the loop. *)
Lemma iteration_survives_peer_faults (sc : script) (w : world) :
  peer_faults_only sc = true -> fst (ble_iteration sc w) = Ok tt.
Proof.
  intros Hsc.
  assert (Hret : returns (ble_iteration sc)).
  { pose proof (catchable_session sc) as Hsess.
    unfold peer_faults_only in Hsc. rewrite !andb_true_iff in Hsc.
    destruct Hsc as ((((((((Hu & Hn) & Hc) & Hs) & Hd) & Hw) & Hp) & Hx) & Hi).
    unfold ble_iteration.
    apply returns_bind; [apply returns_set_latest_status|]. intros _.
    apply returns_bind; [|intros _; apply returns_await, Hi].
    apply returns_try_except; [|intros; apply returns_print].
    apply catchable_bind; [apply catchable_await, Hu|]. intros dev.
    apply catchable_bind.
    { destruct dev; [apply returns_catchable, returns_ret | apply catchable_await, Hn]. }
    intros [d|]; [|apply returns_catchable, returns_ret].
    apply catchable_bind; [apply returns_catchable, returns_set_latest_status|]. intros _.
    apply catchable_bind; [apply returns_catchable, returns_print|]. intros _.
    apply returns_catchable, returns_try_except; [|intros; apply returns_print].
    apply Hsess. unfold peer_faults_only. rewrite !andb_true_iff. tauto. }
  specialize (Hret w). destruct (fst (ble_iteration sc w)) as [[]|]; [reflexivity | discriminate].
Qed.

Lemma loop_keeps_running (scripts : list script) :
  forallb peer_faults_only scripts = true ->
  forall w, exists w', ble_loop_from scripts w = Running w'.
Proof.
  induction scripts as [|sc scripts IH]; cbn [forallb ble_loop_from]; intros H w.
  - exists w. reflexivity.
  - apply andb_true_iff in H as [Hsc Hrest].
    pose proof (iteration_survives_peer_faults sc w Hsc) as Hok.
    destruct (ble_iteration sc w) as [r w1]. cbn [fst] in Hok. subst r.
    apply IH, Hrest.
Qed.

(* ------------------------------------------------------------------ *)
(** ** A failed connection attempt *)

Lemma failed_connect_pass (sc : script) (d : device) (e : exn) (w : world) :
  found_device sc = Some d ->
  client_connect sc = Raise e -> is_Exception e = true ->
  idle_sleep sc = Ok tt ->
  ble_iteration sc w =
  (Ok tt,
   mkWorld (connecting_status d) (readings_cache w) (csv_file w)
     (trace w ++ EStatus scanning_status :: scan_events sc ++
        [EStatus (connecting_status d);
         EPrint (" [BLE] Found " ++ name_str d ++ ", Connecting...");
         EConnect 20;
         EPrint (" [BLE] Connection Error: " ++ exn_msg e);
         ESleep 2])).
Proof.
  intros Hd Hc He Hi.
  unfold found_device in Hd. unfold scan_events.
  unfold ble_iteration, session, async_with, try_except, bind, await,
    set_latest_status, print, ret, log.
  destruct (scan_by_uuid sc) as [[d'|]|e']; [| |discriminate].
  - injection Hd as ->. cbn. rewrite Hc, He, Hi. cbn.
    rewrite <- !app_assoc. reflexivity.
  - destruct (scan_by_name sc) as [[d'|]|e']; try discriminate.
    injection Hd as ->. cbn. rewrite Hc, He, Hi. cbn.
    rewrite <- !app_assoc. reflexivity.
Qed.

(** C7, as the code has it: when the connection attempt of a pass fails
    with an exception, the pass prints the error (it is not written to
    the status), sleeps the 2 seconds of the idle delay and ends
    normally.  The status stays "Connecting to <name>..." during that
    delay; the next pass starts by publishing "Scanning for
    Accu-Chek...", whatever happens in it.  From there the loop goes on
    through any sequence of passes in which the environment raises only
    exceptions of class Exception. *)
Theorem failed_connect_returns_to_scanning
    (sc : script) (d : device) (e : exn) (w : world) :
  found_device sc = Some d ->
  client_connect sc = Raise e -> is_Exception e = true ->
  idle_sleep sc = Ok tt ->
  fst (ble_iteration sc w) = Ok tt /\
  trace (snd (ble_iteration sc w)) =
    trace w ++ EStatus scanning_status :: scan_events sc ++
      [EStatus (connecting_status d);
       EPrint (" [BLE] Found " ++ name_str d ++ ", Connecting...");
       EConnect 20;
       EPrint (" [BLE] Connection Error: " ++ exn_msg e);
       ESleep 2] /\
  latest_status (snd (ble_iteration sc w)) = connecting_status d /\
  (forall sc', exists rest,
     trace (snd (ble_iteration sc' (snd (ble_iteration sc w)))) =
       trace (snd (ble_iteration sc w)) ++ EStatus scanning_status :: rest) /\
  (forall scripts, forallb peer_faults_only scripts = true ->
     exists w', ble_loop_from (sc :: scripts) w = Running w').
Proof.
  intros Hd Hc He Hi.
  pose proof (failed_connect_pass sc d e w Hd Hc He Hi) as Hpass.
  split; [rewrite Hpass; reflexivity|].
  split; [rewrite Hpass; reflexivity|].
  split; [rewrite Hpass; reflexivity|].
  split.
  - intros sc'. apply iteration_publishes_scanning_first.
  - intros scripts Hs. cbn [ble_loop_from]. rewrite Hpass.
    apply loop_keeps_running, Hs.
Qed.

Lemma failed_connect_returns_to_scanning_witness :
  found_device failing_connect_script = Some (mkDevice (Some "Accu-Chek"%string)) /\
  client_connect failing_connect_script = Raise (Exn BleakError "failed to connect") /\
  fst (ble_iteration failing_connect_script initial_world) = Ok tt /\
  latest_status (snd (ble_iteration failing_connect_script initial_world)) =
    "Connecting to Accu-Chek..."%string.
Proof.
  split; [reflexivity|]. split; [reflexivity|].
  destruct (failed_connect_returns_to_scanning failing_connect_script
              (mkDevice (Some "Accu-Chek"%string))
              (Exn BleakError "failed to connect") initial_world)
    as (Hret & _ & Hstatus & _); try reflexivity.
  split; [exact Hret | exact Hstatus].
Defined.

(** C7 as stated fails: after the failed connection attempt nothing is
    published to the status before the idle delay is over; the error
    goes to stdout and the status still reads "Connecting to ...". *)
Lemma connect_failure_is_not_published_to_status :
  trace (snd (ble_iteration failing_connect_script initial_world)) =
    [EStatus "Scanning for Accu-Chek..."; EScan 5;
     EStatus "Connecting to Accu-Chek...";
     EPrint " [BLE] Found Accu-Chek, Connecting..."; EConnect 20] ++
    [EPrint " [BLE] Connection Error: failed to connect"; ESleep 2] /\
  existsb is_status_event
    [EPrint " [BLE] Connection Error: failed to connect"; ESleep 2] = false /\
  latest_status (snd (ble_iteration failing_connect_script initial_world)) =
    "Connecting to Accu-Chek..."%string.
Proof. repeat split. Qed.

(* ------------------------------------------------------------------ *)
(** * Further properties of the decoder *)

(** X1: a payload is accepted exactly when it reaches to the end of the
    concentration word: 12 bytes, or 14 when flag bit 0 is set.  Nothing
    else in the payload can make the decoder fail. *)
Theorem parse_glucose_accepts_iff (data : list byte) :
  (exists r, parse_glucose data = Ok r) <->
  (exists flags, index data 0 = Ok flags /\
                 (concentration_offset flags + 2 <= List.length data)%nat).
Proof.
  split.
  - intros (r & Hp).
    destruct (accepted_payload data r Hp)
      as (f & s1 & s2 & yl & yh & mo & d & h & mi & s & tail & raw & val & g
          & -> & Hraw & _).
    exists (byte_val f). split; [reflexivity|].
    unfold concentration_offset. cbn [List.length].
    destruct (Z.testbit (byte_val f) 0).
    + destruct tail as [|o1 [|o2 [|c1 [|c2 tail]]]]; cbn in Hraw; try discriminate;
        cbn [List.length]; lia.
    + destruct tail as [|c1 [|c2 tail]]; cbn in Hraw; try discriminate;
        cbn [List.length]; lia.
  - intros (flags & Hf & Hlen). exact (parse_glucose_accepts data flags Hf Hlen).
Qed.

(** X2: the only exceptions of the decoder are [IndexError] and
    [struct.error], and which one it is depends on the length of the
    payload alone: [IndexError] for an empty payload and for 5 to 9
    bytes, [struct.error] otherwise.  The arithmetic never raises. *)
Theorem parse_glucose_error_by_length (data : list byte) (e : exn) :
  parse_glucose data = Raise e -> e = decode_error (List.length data).
Proof.
  intros Hp.
  destruct (Nat.lt_ge_cases (List.length data) 10) as [Hlt|Hge].
  - do 10 (destruct data as [|? data];
           [unfold parse_glucose, index, slice in Hp;
            cbn [nth_error skipn firstn rbind Nat.add Nat.sub unpack_H] in Hp;
            injection Hp as <-; reflexivity|]).
    cbn [List.length] in Hlt. lia.
  - assert (Hd : decode_error (List.length data) =
                 Exn StructError "unpack requires a buffer of 2 bytes").
    { unfold decode_error.
      destruct (Nat.eqb_spec (List.length data) 0); [lia|].
      destruct (Nat.ltb_spec (List.length data) 10); [lia|].
      rewrite andb_false_r. reflexivity. }
    rewrite Hd. clear Hd.
    do 10 (destruct data as [|? data]; [cbn [List.length] in Hge; lia|]).
    rewrite parse_glucose_cons10 in Hp.
    set (l := if Z.land (byte_val b) 1 =? 1 then skipn 2 data else data) in Hp.
    destruct l as [|c1 [|c2 l]]; cbn [firstn unpack_H rbind] in Hp;
      try (injection Hp as <-; reflexivity).
    rewrite le16_value in Hp.
    destruct (finish_decode_total (Z.land (byte_val b) 4 =? 0)
                (format_timestamp (byte_val b2 + 256 * byte_val b3) (byte_val b4)
                   (byte_val b5) (byte_val b6) (byte_val b7) (byte_val b8))
                _ (word_range c1 c2)) as (r & Hr & _).
    rewrite Hr in Hp. discriminate.
Qed.

Lemma parse_glucose_error_by_length_witness :
  parse_glucose [x00; x01; x00; xe8; x07; x03; x0f] =
    Raise (Exn IndexError "bytearray index out of range") /\
  Exn IndexError "bytearray index out of range" = decode_error 7.
Proof.
  split; [reflexivity|].
  apply (parse_glucose_error_by_length [x00; x01; x00; xe8; x07; x03; x0f]).
  reflexivity.
Defined.

(** X3: of a payload the decoder uses flag bits 0 and 2, the seven
    bytes of the base time and the two bytes of the concentration word.
    Two payloads that agree on these give the same result, whatever
    their other flag bits, sequence numbers, time offsets and trailing
    bytes (type, sample location, sensor status) are. *)
Theorem parse_glucose_reads_flags_time_and_word
    (f f' s1 s2 s1' s2' yl yh mo d h mi s : byte) (tail tail' : list byte) :
  Z.testbit (byte_val f) 0 = Z.testbit (byte_val f') 0 ->
  Z.testbit (byte_val f) 2 = Z.testbit (byte_val f') 2 ->
  word_bytes (byte_val f) tail = word_bytes (byte_val f') tail' ->
  parse_glucose (f :: s1 :: s2 :: yl :: yh :: mo :: d :: h :: mi :: s :: tail) =
  parse_glucose (f' :: s1' :: s2' :: yl :: yh :: mo :: d :: h :: mi :: s :: tail').
Proof.
  intros H0 H2 Hw. unfold word_bytes in Hw.
  rewrite !parse_glucose_cons10, !flag_bit0, !flag_bit2, Hw, H2. reflexivity.
Qed.

Lemma parse_glucose_reads_flags_time_and_word_witness :
  parse_glucose [x00; x01; x00; xe8; x07; x03; x0f; x08; x1e; x00; x5f; xb0] =
  parse_glucose [xf8; x2a; x00; xe8; x07; x03; x0f; x08; x1e; x00; x5f; xb0;
                 x11; x00; x00].
Proof.
  apply (parse_glucose_reads_flags_time_and_word
           x00 xf8 x01 x00 x2a x00 xe8 x07 x03 x0f x08 x1e x00
           [x5f; xb0] [x5f; xb0; x11; x00; x00]); reflexivity.
Defined.

Lemma sfloat_fields_split (raw : Z) :
  0 <= raw < 65536 ->
  sfloat_mantissa raw =
    (if raw mod 4096 <? 2048 then raw mod 4096 else raw mod 4096 - 4096) /\
  sfloat_exponent raw =
    (if raw / 4096 <? 8 then raw / 4096 else raw / 4096 - 16).
Proof.
  intros Hraw. unfold sfloat_mantissa, sfloat_exponent.
  change 0x0FFF with (Z.ones 12). rewrite Z.land_ones, Z.shiftr_div_pow2 by lia.
  change (2 ^ 12) with 4096.
  pose proof (Z.mod_pos_bound raw 4096 ltac:(lia)).
  assert (0 <= raw / 4096 < 16)
    by (split; [apply Z.div_pos; lia | apply Z.div_lt_upper_bound; lia]).
  split.
  - destruct (Z.leb_spec 0x0800 (raw mod 4096)), (Z.ltb_spec (raw mod 4096) 2048); lia.
  - destruct (Z.leb_spec 0x08 (raw / 4096)), (Z.ltb_spec (raw / 4096) 8); lia.
Qed.

(** X4: the split of a word into mantissa and exponent loses nothing:
    two 16-bit words with the same mantissa and the same exponent are
    the same word. *)
Theorem sfloat_fields_determine_word (raw raw' : Z) :
  0 <= raw < 65536 -> 0 <= raw' < 65536 ->
  sfloat_mantissa raw = sfloat_mantissa raw' ->
  sfloat_exponent raw = sfloat_exponent raw' ->
  raw = raw'.
Proof.
  intros Hr Hr' Hm He.
  destruct (sfloat_fields_split raw Hr) as (Em & Ee).
  destruct (sfloat_fields_split raw' Hr') as (Em' & Ee').
  rewrite Em, Em' in Hm. rewrite Ee, Ee' in He.
  pose proof (Z.mod_pos_bound raw 4096 ltac:(lia)).
  pose proof (Z.mod_pos_bound raw' 4096 ltac:(lia)).
  assert (0 <= raw / 4096 < 16)
    by (split; [apply Z.div_pos; lia | apply Z.div_lt_upper_bound; lia]).
  assert (0 <= raw' / 4096 < 16)
    by (split; [apply Z.div_pos; lia | apply Z.div_lt_upper_bound; lia]).
  rewrite (Z.div_mod raw 4096), (Z.div_mod raw' 4096) by lia.
  destruct (Z.ltb_spec (raw mod 4096) 2048), (Z.ltb_spec (raw' mod 4096) 2048),
    (Z.ltb_spec (raw / 4096) 8), (Z.ltb_spec (raw' / 4096) 8); lia.
Qed.

Lemma sfloat_fields_determine_word_witness :
  0 <= 0xB05F < 65536 /\ 0xB05F = 0xB05F.
Proof.
  split; [lia|].
  apply (sfloat_fields_determine_word 0xB05F 0xB05F); try lia; reflexivity.
Defined.

(** ** The usual encodings are decoded without rounding error *)

Lemma same_float_eq (a b : spec_float) : same_float a b = true -> a = b.
Proof.
  destruct a as [s|s| |s m e], b as [t|t| |t n f]; cbn; try discriminate.
  - intros H. apply Bool.eqb_prop in H. congruence.
  - rewrite !andb_true_iff. intros [[H1 H2] H3].
    apply Bool.eqb_prop in H1. apply Pos.eqb_eq in H2. apply Z.eqb_eq in H3.
    congruence.
Qed.

Lemma exponent_selects_block (raw k : Z) :
  0 <= raw < 65536 -> 8 <= k < 16 ->
  sfloat_exponent raw = k - 16 -> k * 4096 <= raw < k * 4096 + 4096.
Proof.
  intros Hraw Hk He.
  destruct (sfloat_fields_split raw Hraw) as [_ Ee]. rewrite Ee in He.
  assert (0 <= raw / 4096 < 16)
    by (split; [apply Z.div_pos; lia | apply Z.div_lt_upper_bound; lia]).
  pose proof (Z.div_mod raw 4096 ltac:(lia)).
  pose proof (Z.mod_pos_bound raw 4096 ltac:(lia)).
  destruct (Z.ltb_spec (raw / 4096) 8); lia.
Qed.

Lemma kg_words_with_exponent_minus_5 :
  forall_range (Z.to_nat 4096) (11 * 4096) kg_mgdl_is_mantissa = true.
Proof. vm_cast_no_check (eq_refl true). Qed.

Lemma mol_words_with_exponent_minus_4 :
  forall_range (Z.to_nat 4096) (12 * 4096) mol_mmol_is_tenths = true.
Proof. vm_cast_no_check (eq_refl true). Qed.

Lemma finish_decode_kg_minus_5 (ts : string) (raw : Z) :
  0 <= raw < 65536 -> sfloat_exponent raw = -5 ->
  exists mm, finish_decode true ts raw = Ok (mkReading ts (sfloat_mantissa raw) mm).
Proof.
  intros Hraw He.
  pose proof (exponent_selects_block raw 11 Hraw ltac:(lia) He) as Hblock.
  pose proof (forall_range_spec _ _ _ kg_words_with_exponent_minus_5 raw) as H.
  rewrite Z2Nat.id in H by lia. specialize (H ltac:(lia)).
  unfold kg_mgdl_is_mantissa in H. unfold finish_decode.
  destruct (sfloat_value_sized raw Hraw) as (val & Hval & Hsz).
  rewrite Hval in H |- *. cbn [rbind].
  destruct (glucose_fields_total true val Hsz) as (g & Hg). rewrite Hg. cbn [rbind].
  unfold glucose_fields in Hg.
  destruct (py_mul val (PyInt 100000)) as [x|]; [|discriminate]. cbn [rbind] in Hg.
  destruct (py_round x) as [z|]; [|discriminate]. cbn [rbind] in Hg.
  apply Z.eqb_eq in H. subst z.
  destruct (py_truediv _ _) as [q|]; [|discriminate]. cbn [rbind] in Hg.
  destruct (py_round_ndigits q 1) as [mm|]; [|discriminate]. cbn [rbind] in Hg.
  injection Hg as <-. exists mm. reflexivity.
Qed.

Lemma finish_decode_mol_minus_4 (ts : string) (raw : Z) :
  0 <= raw < 65536 -> sfloat_exponent raw = -4 ->
  exists mg,
    finish_decode false ts raw =
      Ok (mkReading ts mg (PyFloat (float_of_tenths (sfloat_mantissa raw)))).
Proof.
  intros Hraw He.
  pose proof (exponent_selects_block raw 12 Hraw ltac:(lia) He) as Hblock.
  pose proof (forall_range_spec _ _ _ mol_words_with_exponent_minus_4 raw) as H.
  rewrite Z2Nat.id in H by lia. specialize (H ltac:(lia)).
  unfold mol_mmol_is_tenths in H. unfold finish_decode.
  destruct (sfloat_value_sized raw Hraw) as (val & Hval & Hsz).
  rewrite Hval in H |- *. cbn [rbind].
  destruct (glucose_fields_total false val Hsz) as (g & Hg). rewrite Hg. cbn [rbind].
  unfold glucose_fields in Hg.
  destruct (py_mul val (PyInt 1000)) as [x|]; [|discriminate]. cbn [rbind] in Hg.
  destruct (py_round_ndigits x 1) as [[z|f]|]; try discriminate. cbn [rbind] in Hg.
  apply same_float_eq in H. subst f.
  destruct (py_mul _ _) as [y|]; [|discriminate]. cbn [rbind] in Hg.
  destruct (py_round y) as [mg|]; [|discriminate]. cbn [rbind] in Hg.
  injection Hg as <-. exists mg. reflexivity.
Qed.


(** X5: in the usual kg/L encoding, exponent -5, the decoded mg/dL value
    is the mantissa itself, for every mantissa: the two float
    multiplications and the rounding introduce no error. *)
Theorem kg_exponent_minus_5_gives_mantissa
    (data : list byte) (r : reading) (flags raw : Z) :
  parse_glucose data = Ok r ->
  index data 0 = Ok flags ->
  unpack_H (slice data (concentration_offset flags) (concentration_offset flags + 2))
    = Ok raw ->
  Z.testbit flags 2 = false ->
  sfloat_exponent raw = -5 ->
  mgdl r = sfloat_mantissa raw.
Proof.
  intros Hp Hf Hw Hu He.
  destruct (accepted_payload_word data r Hp) as (flags' & raw' & Hf' & Hw' & Hr & Hd).
  rewrite Hf in Hf'. injection Hf' as <-.
  rewrite Hw in Hw'. injection Hw' as <-.
  rewrite Hu in Hd. cbn [negb] in Hd.
  destruct (finish_decode_kg_minus_5 (dt_str r) raw Hr He) as (mm & Hk).
  rewrite Hk in Hd. injection Hd as <-. reflexivity.
Qed.

Lemma kg_exponent_minus_5_gives_mantissa_witness :
  parse_glucose sample_payload = Ok sample_reading /\
  sfloat_exponent 0xB05F = -5 /\
  mgdl sample_reading = sfloat_mantissa 0xB05F.
Proof.
  assert (Hp : parse_glucose sample_payload = Ok sample_reading)
    by (vm_compute; reflexivity).
  split; [exact Hp|]. split; [reflexivity|].
  apply (kg_exponent_minus_5_gives_mantissa sample_payload sample_reading 0 0xB05F Hp);
    reflexivity.
Defined.

(** X6: in the mol/L encoding with exponent -4 (tenths of a mmol/L) the
    decoded mmol/L value is the double nearest to mantissa/10, the same
    float as the literal with one decimal, for every mantissa. *)
Theorem mol_exponent_minus_4_gives_tenths
    (data : list byte) (r : reading) (flags raw : Z) :
  parse_glucose data = Ok r ->
  index data 0 = Ok flags ->
  unpack_H (slice data (concentration_offset flags) (concentration_offset flags + 2))
    = Ok raw ->
  Z.testbit flags 2 = true ->
  sfloat_exponent raw = -4 ->
  mmol r = PyFloat (float_of_tenths (sfloat_mantissa raw)).
Proof.
  intros Hp Hf Hw Hu He.
  destruct (accepted_payload_word data r Hp) as (flags' & raw' & Hf' & Hw' & Hr & Hd).
  rewrite Hf in Hf'. injection Hf' as <-.
  rewrite Hw in Hw'. injection Hw' as <-.
  rewrite Hu in Hd. cbn [negb] in Hd.
  destruct (finish_decode_mol_minus_4 (dt_str r) raw Hr He) as (mg & Hk).
  rewrite Hk in Hd. injection Hd as <-. reflexivity.
Qed.

Lemma mol_exponent_minus_4_gives_tenths_witness :
  parse_glucose sample_payload_mol = Ok sample_reading /\
  sfloat_exponent 0xC035 = -4 /\
  mmol sample_reading = PyFloat (float_of_tenths (sfloat_mantissa 0xC035)).
Proof.
  assert (Hp : parse_glucose sample_payload_mol = Ok sample_reading)
    by (vm_compute; reflexivity).
  split; [exact Hp|]. split; [reflexivity|].
  apply (mol_exponent_minus_4_gives_tenths sample_payload_mol sample_reading 4 0xC035 Hp);
    reflexivity.
Defined.


(* ------------------------------------------------------------------ *)
(** * Further properties of the store *)

Lemma handler_cache (n : io_outcome * list byte) (w : world) :
  io_raises_only_Exception (fst n) = true ->
  fst (notification_handler (fst n) (snd n) w) = Ok tt /\
  latest_status (snd (notification_handler (fst n) (snd n) w)) = latest_status w /\
  readings_cache (snd (notification_handler (fst n) (snd n) w)) =
    match committed_row n with
    | Some r => [r]
    | None => readings_cache w
    end.
Proof.
  destruct n as [io data]. cbn [fst snd]. intros Hio.
  split; [apply notification_handler_returns, Hio|].
  unfold committed_row. cbn [fst snd].
  destruct (parse_glucose data) as [r|e] eqn:Hp.
  - rewrite (handler_on_accepted io data r w Hp). unfold try_except.
    destruct io as [|e|e].
    + rewrite save_reading_ok. split; reflexivity.
    + cbn in Hio |- *. rewrite Hio. split; reflexivity.
    + cbn in Hio |- *. rewrite Hio. split; reflexivity.
  - rewrite (handler_on_parse_error io data w e Hp (parse_error_is_Exception data e Hp)).
    destruct io; split; reflexivity.
Qed.

Lemma last_committed_from (ns : list (io_outcome * list byte)) (acc : option row) :
  fold_left (fun acc n => match committed_row n with
                          | Some r => Some r
                          | None => acc
                          end) ns acc =
  match last_committed ns with
  | Some r => Some r
  | None => acc
  end.
Proof.
  unfold last_committed. revert acc.
  induction ns as [|n ns IH]; intros acc; cbn [fold_left]; [reflexivity|].
  rewrite (IH (match committed_row n with Some r => Some r | None => acc end)).
  rewrite (IH (match committed_row n with Some r => Some r | None => None end)).
  destruct (fold_left _ ns None); [reflexivity|].
  destruct (committed_row n); reflexivity.
Qed.

(** X7: however many notifications arrive in a row, the store ends up
    with the reading of the last one that was accepted and written, and
    with nothing else; if none was, the readings are the ones from
    before.  The status is not touched. *)
Theorem deliver_keeps_last_committed (ns : list (io_outcome * list byte)) (w : world) :
  forallb (fun n => io_raises_only_Exception (fst n)) ns = true ->
  fst (deliver ns w) = Ok tt /\
  latest_status (snd (deliver ns w)) = latest_status w /\
  readings_cache (snd (deliver ns w)) =
    match last_committed ns with
    | Some r => [r]
    | None => readings_cache w
    end.
Proof.
  revert w. induction ns as [|n ns IH]; intros w H.
  - repeat split.
  - cbn [forallb] in H. apply andb_true_iff in H as [Hn Hns].
    destruct (handler_cache n w Hn) as (Hret & Hst & Hc).
    destruct n as [io data]. cbn [fst snd] in Hret, Hst, Hc.
    cbn [deliver]. unfold bind.
    destruct (notification_handler io data w) as [res w1].
    cbn [fst snd] in Hret, Hst, Hc. subst res.
    destruct (IH w1 Hns) as (Hret' & Hst' & Hc').
    split; [exact Hret'|]. split; [congruence|].
    rewrite Hc'. unfold last_committed at 2. cbn [fold_left].
    rewrite last_committed_from.
    destruct (last_committed ns); [reflexivity|].
    rewrite Hc. destruct (committed_row (io, data)); reflexivity.
Qed.

Lemma deliver_keeps_last_committed_witness :
  readings_cache
    (snd (deliver [(IoOk, sample_payload_mol);
                   (IoOpenFails permission_denied, sample_payload);
                   (IoOk, [x00; x01])]
            initial_world)) =
  [mkRow "2024-03-15 08:30:00" "95" "5.3"].
Proof.
  assert (H : last_committed [(IoOk, sample_payload_mol);
                              (IoOpenFails permission_denied, sample_payload);
                              (IoOk, [x00; x01])] =
              Some (mkRow "2024-03-15 08:30:00" "95" "5.3"))
    by (vm_compute; reflexivity).
  destruct (deliver_keeps_last_committed
              [(IoOk, sample_payload_mol);
               (IoOpenFails permission_denied, sample_payload);
               (IoOk, [x00; x01])] initial_world) as (_ & _ & Hc); [reflexivity|].
  rewrite H in Hc. exact Hc.
Defined.


(** The effect of a notification on the readings does not depend on the
    status or on the trace. *)
Lemma handler_store_independent (io : io_outcome) (data : list byte) (w1 w2 : world) :
  store_of w1 = store_of w2 ->
  fst (notification_handler io data w1) = fst (notification_handler io data w2) /\
  store_of (snd (notification_handler io data w1)) =
  store_of (snd (notification_handler io data w2)).
Proof.
  unfold store_of. intros H. injection H as Hc Hf.
  destruct (parse_glucose data) as [r|e] eqn:Hp.
  - rewrite !(handler_on_accepted io data r _ Hp). unfold try_except.
    destruct io as [|e|e]; cbn; try (destruct (is_Exception e)); cbn;
      split; congruence.
  - rewrite !(handler_on_parse_error io data _ e Hp (parse_error_is_Exception data e Hp)).
    cbn. split; congruence.
Qed.

Lemma deliver_store_independent (ns : list (io_outcome * list byte)) :
  forall w1 w2, store_of w1 = store_of w2 ->
  fst (deliver ns w1) = fst (deliver ns w2) /\
  store_of (snd (deliver ns w1)) = store_of (snd (deliver ns w2)).
Proof.
  induction ns as [|[io data] ns IH]; intros w1 w2 H; cbn [deliver].
  - split; [reflexivity | exact H].
  - unfold bind.
    destruct (handler_store_independent io data w1 w2 H) as [Hr Hs].
    destruct (notification_handler io data w1) as [r1 v1].
    destruct (notification_handler io data w2) as [r2 v2].
    cbn [fst snd] in Hr, Hs. subst r2.
    destruct r1 as [[]|e]; [apply IH, Hs | split; [reflexivity | exact Hs]].
Qed.

Ltac split_exceptions :=
  repeat match goal with
         | |- context [is_Exception ?e] => destruct (is_Exception e); cbn
         end.

Lemma session_store (sc : script) (d : device) (w0 w : world) :
  store_of w0 = store_of w ->
  store_of (snd (session sc d w0)) =
  store_of (if is_Ok (client_connect sc) && client_is_connected sc
               && is_Ok (client_start_notify sc)
            then snd (deliver (dwell_notifications sc) w) else w).
Proof.
  intros H0.
  unfold session, async_with, bind, await, set_latest_status, print, ret, log.
  destruct (client_connect sc) as [[]|e2]; cbn -[deliver]; [|exact H0].
  destruct (client_is_connected sc); cbn -[deliver];
    [|destruct (client_disconnect sc) as [[]|e7]; exact H0].
  destruct (client_start_notify sc) as [[]|e3]; cbn -[deliver];
    [|destruct (client_disconnect sc) as [[]|e7]; exact H0].
  match goal with
  | |- context [deliver ?ns ?W] =>
      destruct (deliver_store_independent ns W w H0) as [_ Hs];
      destruct (deliver ns W) as [res W']
  end.
  cbn [snd] in Hs. rewrite <- Hs.
  destruct res as [[]|e4]; cbn;
    [destruct (dwell_sleep sc) as [[]|e5]; cbn;
     [destruct (client_stop_notify sc) as [[]|e6]; cbn|]|];
    destruct (client_disconnect sc) as [[]|e7]; reflexivity.
Qed.

(** The store after a pass. *)
Lemma pass_store (sc : script) (w : world) :
  store_of (snd (ble_iteration sc w)) =
  store_of (if reached_dwell sc then snd (deliver (dwell_notifications sc) w) else w).
Proof.
  unfold reached_dwell, found_device.
  unfold ble_iteration, try_except, bind, await, set_latest_status, print, ret, log.
  assert (Hsession : forall d w0, store_of w0 = store_of w ->
            store_of (snd (session sc d w0)) =
            store_of (if is_Ok (client_connect sc) && client_is_connected sc
                         && is_Ok (client_start_notify sc)
                      then snd (deliver (dwell_notifications sc) w) else w))
    by (intros; apply session_store; assumption).
  destruct (scan_by_uuid sc) as [[d|]|e1]; cbn -[deliver session].
  - match goal with
    | |- context [session sc d ?W] =>
        rewrite <- (Hsession d W eq_refl); destruct (session sc d W) as [[[]|e] w1]
    end; cbn; split_exceptions; destruct (idle_sleep sc); reflexivity.
  - destruct (scan_by_name sc) as [[d|]|e1]; cbn -[deliver session].
    + match goal with
      | |- context [session sc d ?W] =>
          rewrite <- (Hsession d W eq_refl); destruct (session sc d W) as [[[]|e] w1]
      end; cbn; split_exceptions; destruct (idle_sleep sc); reflexivity.
    + destruct (idle_sleep sc); reflexivity.
    + split_exceptions; destruct (idle_sleep sc); reflexivity.
  - split_exceptions; destruct (idle_sleep sc); reflexivity.
Qed.

(** X8: a pass of the loop changes the readings and the CSV file only
    by handling the notifications of its dwell window.  If the pass does
    not get that far (no device, connection or subscription failed) the
    store is left as it was; if it does, the store is what the
    notifications make of it, whatever happens afterwards in the pass. *)
Theorem pass_changes_store_only_by_notifications (sc : script) (w : world) :
  store_of (snd (ble_iteration sc w)) =
  store_of (if reached_dwell sc then snd (deliver (dwell_notifications sc) w) else w).
Proof.
  destruct (reached_dwell sc) eqn:H; rewrite (pass_store sc w), H; reflexivity.
Qed.


(* ------------------------------------------------------------------ *)
(** * Further properties of the loop *)

(** ** Relations that every step of a computation keeps *)

Section Keeps.
Variable R : world -> world -> Prop.
Hypothesis R_refl : forall w, R w w.
Hypothesis R_trans : forall w1 w2 w3, R w1 w2 -> R w2 w3 -> R w1 w3.
Context {A B : Type}.

Lemma keeps_ret (a : A) : keeps R (ret a).
Proof. intros w. apply R_refl. Qed.

Lemma keeps_lift (r : result A) : keeps R (lift r).
Proof. intros w. apply R_refl. Qed.

Lemma keeps_bind (m : M A) (k : A -> M B) :
  keeps R m -> (forall a, keeps R (k a)) -> keeps R (bind m k).
Proof.
  intros Hm Hk w. unfold bind. specialize (Hm w).
  destruct (m w) as [[a|e] w1]; cbn [snd] in *; [|exact Hm].
  eapply R_trans; [exact Hm | apply Hk].
Qed.

Lemma keeps_try_except (m : M A) (h : exn -> M A) :
  keeps R m -> (forall e, keeps R (h e)) -> keeps R (try_except m h).
Proof.
  intros Hm Hh w. unfold try_except. specialize (Hm w).
  destruct (m w) as [[a|e] w1]; cbn [snd] in *; [exact Hm|].
  destruct (is_Exception e); [|exact Hm].
  eapply R_trans; [exact Hm | apply Hh].
Qed.

Lemma keeps_async_with (enter : M A) (exit : M unit) (body : A -> M B) :
  keeps R enter -> keeps R exit -> (forall a, keeps R (body a)) ->
  keeps R (async_with enter exit body).
Proof.
  intros He Hx Hb w. unfold async_with. specialize (He w).
  destruct (enter w) as [[a|e] w1]; cbn [snd] in *; [|exact He].
  specialize (Hb a w1). destruct (body a w1) as [r w2]. cbn [snd] in Hb.
  specialize (Hx w2). destruct (exit w2) as [[u|e] w3]; cbn [snd] in *;
    (eapply R_trans; [exact He|]); (eapply R_trans; [exact Hb | exact Hx]).
Qed.
End Keeps.

(** When every primitive step keeps a relation, the notification
    handler, the session and a pass of the loop keep it. *)
Section KeptByTheLoop.
Variable R : world -> world -> Prop.
Hypothesis R_refl : forall w, R w w.
Hypothesis R_trans : forall w1 w2 w3, R w1 w2 -> R w2 w3 -> R w1 w3.
Hypothesis R_print : forall s, keeps R (print s).
Hypothesis R_write : forall io rows, keeps R (write_csv io rows).
Hypothesis R_cache : forall rows, keeps R (set_readings_cache rows).

Lemma keeps_notification_handler (io : io_outcome) (data : list byte) :
  keeps R (notification_handler io data).
Proof.
  unfold notification_handler, save_reading.
  apply keeps_try_except; auto.
  apply keeps_bind; auto using keeps_lift. intros r.
  repeat (apply keeps_bind; auto; intros ?).
Qed.

Lemma keeps_deliver (ns : list (io_outcome * list byte)) : keeps R (deliver ns).
Proof.
  induction ns as [|[io data] ns IH]; cbn [deliver].
  - apply keeps_ret; auto.
  - apply keeps_bind; auto using keeps_notification_handler.
Qed.

Hypothesis R_status : forall s, loop_status s -> keeps R (set_latest_status s).
Hypothesis R_await : forall A ev (r : result A),
  is_disconnect ev = false -> is_status_event ev = false -> keeps R (await ev r).

Lemma keeps_session_body (sc : script) :
  keeps R
    (if client_is_connected sc then
       (set_latest_status "Connected! Waiting for Data..." ;;
        print " [BLE] Connected. Subscribing..." ;;
        await EStartNotify (client_start_notify sc) ;;
        deliver (dwell_notifications sc) ;;
        await (ESleep 10) (dwell_sleep sc) ;;
        await EStopNotify (client_stop_notify sc) ;;
        print " [BLE] Sync Complete.")%M
     else ret tt).
Proof.
  destruct (client_is_connected sc); [|apply keeps_ret; auto].
  apply keeps_bind; auto.
  { apply R_status. right. left. reflexivity. }
  intros _. repeat (apply keeps_bind; auto using keeps_deliver; intros _).
  all: auto.
Qed.

Hypothesis R_disconnect : forall r : result unit, keeps R (await EDisconnect r).

Lemma keeps_ble_iteration (sc : script) : keeps R (ble_iteration sc).
Proof.
  unfold ble_iteration.
  apply keeps_bind; auto.
  { apply R_status. left. reflexivity. }
  intros _. apply keeps_bind; auto. apply keeps_try_except; auto.
  apply keeps_bind; auto. intros dev.
  apply keeps_bind; auto.
  { destruct dev; [apply keeps_ret; auto | auto]. }
  intros [d|]; [|apply keeps_ret; auto].
  apply keeps_bind; auto.
  { apply R_status. right. right. exists d. reflexivity. }
  intros _. apply keeps_bind; auto. intros _.
  apply keeps_try_except; auto.
  unfold session. apply keeps_async_with; auto.
  intros _. apply keeps_session_body.
Qed.

End KeptByTheLoop.

(** ** The status variable *)

Lemma status_step_refl (w : world) : status_step w w.
Proof. exists []. rewrite app_nil_r. repeat split. constructor. Qed.

Lemma status_step_trans (w1 w2 w3 : world) :
  status_step w1 w2 -> status_step w2 w3 -> status_step w1 w3.
Proof.
  intros (e1 & H1 & F1 & S1) (e2 & H2 & F2 & S2). exists (e1 ++ e2).
  repeat split.
  - rewrite H2, H1. now rewrite app_assoc.
  - apply Forall_app. split; assumption.
  - unfold last_status in *. rewrite fold_left_app, <- S1. exact S2.
Qed.

Lemma status_step_log (ev : event) (w : world) :
  is_status_event ev = false -> status_step w (log ev w).
Proof.
  intros H. exists [ev]. repeat split.
  - constructor; [|constructor]. destruct ev; try exact I. discriminate.
  - destruct ev; try reflexivity. discriminate.
Qed.

Lemma status_step_set (s : string) :
  loop_status s -> keeps status_step (set_latest_status s).
Proof.
  intros H w. exists [EStatus s]. repeat split.
  constructor; [exact H | constructor].
Qed.

Lemma status_step_silent (w w' : world) :
  trace w' = trace w -> latest_status w' = latest_status w -> status_step w w'.
Proof.
  intros Ht Hs. exists []. rewrite app_nil_r. repeat split; try assumption.
  constructor.
Qed.

Lemma status_step_write (io : io_outcome) (rows : list (list string)) :
  keeps status_step (write_csv io rows).
Proof. intros w. destruct io; apply status_step_silent; reflexivity. Qed.

Lemma status_step_cache (rows : list row) :
  keeps status_step (set_readings_cache rows).
Proof. intros w. apply status_step_silent; reflexivity. Qed.

Lemma status_step_print (s : string) : keeps status_step (print s).
Proof. intros w. apply status_step_log. reflexivity. Qed.

Lemma status_step_await {A} (ev : event) (r : result A) :
  is_status_event ev = false -> keeps status_step (await ev r).
Proof. intros H w. apply status_step_log, H. Qed.

Lemma status_step_pass (sc : script) : keeps status_step (ble_iteration sc).
Proof.
  apply keeps_ble_iteration.
  - exact status_step_refl.
  - exact status_step_trans.
  - exact status_step_print.
  - exact status_step_write.
  - exact status_step_cache.
  - exact status_step_set.
  - intros A ev r _ H. apply status_step_await, H.
  - intros r. apply status_step_await. reflexivity.
Qed.

Lemma status_step_loop (scripts : list script) (w : world) :
  status_step w (loop_world (ble_loop_from scripts w)).
Proof.
  induction scripts as [|sc scripts IH] in w |- *; cbn [ble_loop_from].
  - apply status_step_refl.
  - pose proof (status_step_pass sc w) as H.
    destruct (ble_iteration sc w) as [[[]|e] w1]; cbn [snd] in H.
    + eapply status_step_trans; [exact H | apply IH].
    + exact H.
Qed.

Lemma last_status_of_loop (evs : list event) (s : string) :
  Forall loop_event evs -> loop_status s -> loop_status (last_status evs s).
Proof.
  unfold last_status. intros H. revert s.
  induction H as [|ev evs Hev _ IH]; intros s Hs; cbn [fold_left]; [exact Hs|].
  apply IH. destruct ev; try exact Hs. exact Hev.
Qed.

Lemma loop_events_statuses (evs : list event) :
  Forall loop_event evs -> forall s, In (EStatus s) evs -> loop_status s.
Proof.
  intros H s Hin. rewrite Forall_forall in H. apply (H _ Hin).
Qed.

(** X9: however the environment behaves and however many passes the
    loop makes, every value it assigns to [latest_status] is the
    Scanning text, the Connected text or a Connecting text: no error
    text ever reaches the status; once a pass has begun the status is
    one of the three. *)
Theorem status_is_always_a_loop_status (scripts : list script) (w : world) :
  exists evs,
    trace (loop_world (ble_loop scripts w)) = trace w ++ evs /\
    (forall s, In (EStatus s) evs -> loop_status s) /\
    match scripts with
    | [] => latest_status (loop_world (ble_loop scripts w)) = latest_status w
    | _ :: _ => loop_status (latest_status (loop_world (ble_loop scripts w)))
    end.
Proof.
  unfold ble_loop.
  set (w0 := log (EPrint "--- Background Bluetooth Service Started ---") w).
  assert (H0 : status_step w w0) by (apply status_step_log; reflexivity).
  pose proof (status_step_trans _ _ _ H0 (status_step_loop scripts w0))
    as (evs & Htr & Hev & Hst).
  exists evs. split; [exact Htr|]. split; [apply loop_events_statuses, Hev|].
  destruct scripts as [|sc scripts]; [reflexivity|].
  clear evs Htr Hev Hst H0. cbn [ble_loop_from].
  destruct (iteration_publishes_scanning_first sc w0) as (rest & Hrest).
  destruct (status_step_pass sc w0)
    as (evs & Htr & Hev & Hst).
  rewrite Hrest in Htr. apply app_inv_head in Htr. subst evs.
  apply Forall_inv_tail in Hev.
  change (last_status (EStatus scanning_status :: rest) (latest_status w0))
    with (last_status rest scanning_status) in Hst.
  assert (H1 : loop_status (latest_status (snd (ble_iteration sc w0)))).
  { rewrite Hst. apply last_status_of_loop; [exact Hev | left; reflexivity]. }
  destruct (ble_iteration sc w0) as [[[]|e] w1]; cbn [snd loop_world] in *.
  - destruct (status_step_loop scripts w1) as (evs & _ & Hev2 & Hst2).
    rewrite Hst2. apply last_status_of_loop; assumption.
  - exact H1.
Qed.


(** ** Closing the connection *)

Lemma quiet_step_refl (w : world) : quiet_step w w.
Proof. exists []. rewrite app_nil_r. split; reflexivity. Qed.

Lemma quiet_step_trans (w1 w2 w3 : world) :
  quiet_step w1 w2 -> quiet_step w2 w3 -> quiet_step w1 w3.
Proof.
  intros (e1 & H1 & F1) (e2 & H2 & F2). exists (e1 ++ e2). split.
  - rewrite H2, H1. now rewrite app_assoc.
  - rewrite filter_app, F1, F2. reflexivity.
Qed.

Lemma quiet_step_log (ev : event) (w : world) :
  is_disconnect ev = false -> quiet_step w (log ev w).
Proof. intros H. exists [ev]. split; [reflexivity|]. cbn. now rewrite H. Qed.

Lemma quiet_step_silent (w w' : world) : trace w' = trace w -> quiet_step w w'.
Proof. intros H. exists []. rewrite app_nil_r. split; [exact H | reflexivity]. Qed.

Lemma quiet_session_body (sc : script) :
  keeps quiet_step
    (if client_is_connected sc then
       (set_latest_status "Connected! Waiting for Data..." ;;
        print " [BLE] Connected. Subscribing..." ;;
        await EStartNotify (client_start_notify sc) ;;
        deliver (dwell_notifications sc) ;;
        await (ESleep 10) (dwell_sleep sc) ;;
        await EStopNotify (client_stop_notify sc) ;;
        print " [BLE] Sync Complete.")%M
     else ret tt).
Proof.
  apply keeps_session_body.
  - exact quiet_step_refl.
  - exact quiet_step_trans.
  - intros s w. apply quiet_step_log. reflexivity.
  - intros io rows w. destruct io; apply quiet_step_silent; reflexivity.
  - intros rows w. apply quiet_step_silent. reflexivity.
  - intros s _ w. exists [EStatus s]. split; reflexivity.
  - intros A ev r H _ w. apply quiet_step_log, H.
Qed.

(** The session closes the connection once if it was opened, however
    its body ends. *)
Lemma session_disconnects (sc : script) (d : device) (w : world) :
  exists evs,
    trace (snd (session sc d w)) = trace w ++ evs /\
    filter is_disconnect evs = if is_Ok (client_connect sc) then [EDisconnect] else [].
Proof.
  unfold session, async_with.
  unfold await at 1. destruct (client_connect sc) as [[]|e]; cbn [is_Ok].
  - match goal with
    | |- context [(if client_is_connected sc then ?m else ?m') ?W] =>
        destruct (quiet_session_body sc W) as (evs & Htr & Hq);
        destruct ((if client_is_connected sc then m else m') W) as [r w2]
    end.
    cbn [snd] in Htr. unfold await.
    exists (EConnect 20 :: evs ++ [EDisconnect]). split.
    + destruct (client_disconnect sc) as [[]|e]; cbn [snd log trace];
        rewrite Htr; cbn [log trace]; rewrite <- !app_assoc; reflexivity.
    + cbn [filter is_disconnect]. rewrite filter_app, Hq. reflexivity.
  - exists [EConnect 20]. split; reflexivity.
Qed.

Lemma skipn_length_app {A} (l l' : list A) : skipn (List.length l) (l ++ l') = l'.
Proof. induction l as [|x l IH]; [reflexivity | exact IH]. Qed.

Ltac close_pass Htr Hq :=
  cbn; split_exceptions;
  try (destruct (idle_sleep _)); cbn [snd log trace];
  try rewrite Htr; cbn [log trace]; rewrite <- ?app_assoc; cbn [app];
  rewrite skipn_length_app; cbn [filter is_disconnect];
  rewrite ?filter_app; try rewrite Hq; cbn [filter is_disconnect app];
  rewrite ?app_nil_r; reflexivity.

(** X10: in every pass the connection is closed exactly once if it was
    opened and never otherwise, whatever fails or is cancelled inside
    the session. *)
Theorem pass_closes_connection_iff_opened (sc : script) (w : world) :
  filter is_disconnect (pass_events sc w) =
  if connected sc then [EDisconnect] else [].
Proof.
  unfold pass_events, connected, found_device.
  unfold ble_iteration, try_except, bind, await, set_latest_status, print, ret.
  destruct (scan_by_uuid sc) as [[d|]|e1]; cbn -[session].
  - match goal with
    | |- context [session sc d ?W] =>
        destruct (session_disconnects sc d W) as (evs & Htr & Hq);
        destruct (session sc d W) as [[[]|e] w1]
    end; cbn [snd log trace] in Htr; close_pass Htr Hq.
  - destruct (scan_by_name sc) as [[d|]|e1]; cbn -[session].
    + match goal with
      | |- context [session sc d ?W] =>
          destruct (session_disconnects sc d W) as (evs & Htr & Hq);
          destruct (session sc d W) as [[[]|e] w1]
      end; cbn [snd log trace] in Htr; close_pass Htr Hq.
    + close_pass True True.
    + close_pass True True.
  - close_pass True True.
Qed.


(** ** Leaving the loop *)

(** An exception leaves a pass only if [except Exception] does not catch
    it, or if it comes from the sleep after the [try] block. *)
Lemma pass_raises_cause (sc : script) (w w' : world) (e : exn) :
  ble_iteration sc w = (Raise e, w') ->
  is_Exception e = false \/ idle_sleep sc = Raise e.
Proof.
  unfold ble_iteration. unfold bind at 1. cbn [set_latest_status].
  unfold bind at 1.
  match goal with
  | |- context [try_except ?body ?h ?W] =>
      unfold try_except at 1; destruct (body W) as [[[]|e0] w1]
  end.
  - unfold await. intros H. right. now inversion H.
  - destruct (is_Exception e0) eqn:He0.
    + unfold print, await. intros H. right. now inversion H.
    + intros H. left. inversion H. subst. exact He0.
Qed.

(** X11: the loop ends only through an exception that [except
    Exception] does not catch (a cancellation or an interrupt), or
    through an exception of the sleep between two passes, which is
    outside the [try] block; device, connection, subscription and
    storage errors never end it. *)
Theorem loop_ends_only_by_cancellation_or_idle_sleep
  (scripts : list script) (w w' : world) (e : exn) :
  ble_loop scripts w = Terminated e w' ->
  is_Exception e = false \/
  exists sc, In sc scripts /\ idle_sleep sc = Raise e.
Proof.
  unfold ble_loop.
  generalize (log (EPrint "--- Background Bluetooth Service Started ---") w).
  induction scripts as [|sc scripts IH]; intros w0; cbn [ble_loop_from].
  - discriminate.
  - destruct (ble_iteration sc w0) as [[[]|e1] w1] eqn:Hpass.
    + intros H. destruct (IH _ H) as [Hc | (sc' & Hin & Hs)]; [now left|].
      right. exists sc'. split; [now right | exact Hs].
    + intros H. inversion H. subst e1 w1. clear H.
      destruct (pass_raises_cause _ _ _ _ Hpass) as [Hc | Hs]; [now left|].
      right. exists sc. split; [now left | exact Hs].
Qed.

Lemma loop_ends_only_by_cancellation_or_idle_sleep_witness :
  is_Exception (Exn CancelledError EmptyString) = false \/
  exists sc, In sc [failing_subscribe_script; cancelled_script] /\
             idle_sleep sc = Raise (Exn CancelledError EmptyString).
Proof.
  apply (loop_ends_only_by_cancellation_or_idle_sleep
           [failing_subscribe_script; cancelled_script] initial_world
           (loop_world (ble_loop [failing_subscribe_script; cancelled_script]
                          initial_world))).
  vm_compute. reflexivity.
Defined.


(** ** The pause between two scans *)

Lemma first_event_then_appends {A B} (ev : event) (r : result A)
    (k : A -> M B) (h : exn -> M B) (w : world) :
  (forall a, appends (k a)) -> (forall e, appends (h e)) ->
  exists evs,
    trace (snd (try_except (bind (await ev r) k) h w)) = trace w ++ ev :: evs.
Proof.
  intros Hk Hh.
  assert (Hbody : exists evs,
            trace (snd (bind (await ev r) k w)) = trace w ++ ev :: evs).
  { unfold bind, await. destruct r as [a|e]; cbn [snd].
    - destruct (Hk a (log ev w)) as (evs & Hevs). exists evs.
      rewrite Hevs. cbn [log trace]. now rewrite <- app_assoc.
    - exists []. reflexivity. }
  destruct Hbody as (evs & Hevs). unfold try_except.
  destruct (bind (await ev r) k w) as [[b|e] w1]; cbn [snd] in *;
    [exists evs; exact Hevs|].
  destruct (is_Exception e); [|exists evs; exact Hevs].
  destruct (Hh e w1) as (evs' & Hevs'). exists (evs ++ evs').
  rewrite Hevs', Hevs, <- app_assoc. reflexivity.
Qed.

Lemma completed_pass_trace (sc : script) (w w' : world) (r : result unit) :
  ble_iteration sc w = (r, w') -> is_Ok r = true ->
  exists evs,
    trace w' = trace w ++ EStatus scanning_status :: EScan 5 :: evs ++ [ESleep 2].
Proof.
  unfold ble_iteration. unfold bind at 1. cbn [set_latest_status].
  set (w1 := log (EStatus scanning_status) _).
  assert (Hw1 : trace w1 = trace w ++ [EStatus scanning_status]) by reflexivity.
  unfold bind at 1.
  match goal with
  | |- context [try_except (bind (await ?ev ?r) ?k) ?h w1] =>
      destruct (first_event_then_appends ev r k h w1) as (evs & Hevs);
      [|intros; apply appends_print
       |destruct (try_except (bind (await ev r) k) h w1) as [[[]|e] w2]]
  end.
  - intros dev. apply appends_bind.
    { destruct dev; [apply appends_ret | apply appends_await]. }
    intros [d|]; [|apply appends_ret].
    apply appends_bind; [apply appends_set_latest_status|]. intros _.
    apply appends_bind; [apply appends_print|]. intros _.
    apply appends_try_except; [apply appends_session | intros; apply appends_print].
  - unfold await. intros [= <- <-] _. exists evs. cbn [snd] in Hevs.
    cbn [log trace]. rewrite Hevs, Hw1, <- !app_assoc. reflexivity.
  - intros [= <- <-]. discriminate.
Qed.

(** X12: the loop never spins.  Every pass that comes to its end has
    begun with the Scanning status and the scan with the 5 s timeout and
    has ended with the sleep of 2 s, whatever happened in between. *)
Theorem completed_pass_scans_and_pauses (sc : script) (w : world) :
  is_Ok (fst (ble_iteration sc w)) = true ->
  exists evs,
    pass_events sc w = EStatus scanning_status :: EScan 5 :: evs ++ [ESleep 2].
Proof.
  unfold pass_events.
  destruct (ble_iteration sc w) as [r w'] eqn:Hpass. cbn [fst snd]. intros Hr.
  destruct (completed_pass_trace sc w w' r Hpass Hr) as (evs & ->).
  exists evs. apply skipn_length_app.
Qed.

Lemma completed_pass_scans_and_pauses_witness :
  exists evs,
    pass_events failing_subscribe_script initial_world =
    EStatus scanning_status :: EScan 5 :: evs ++ [ESleep 2].
Proof.
  apply (completed_pass_scans_and_pauses failing_subscribe_script initial_world).
  reflexivity.
Defined.


(* ------------------------------------------------------------------ *)
(** * The CSV file: what the reader makes of what the writer wrote *)

(** ** Strings *)

Lemma append_assoc (a b c : string) : ((a ++ b) ++ c = a ++ (b ++ c))%string.
Proof. induction a as [|x a IH]; cbn; [reflexivity | now rewrite IH]. Qed.

Lemma append_nil_r (a : string) : (a ++ EmptyString)%string = a.
Proof. induction a as [|x a IH]; cbn; [reflexivity | now rewrite IH]. Qed.

Lemma length_append (a b : string) :
  String.length (a ++ b) = (String.length a + String.length b)%nat.
Proof. induction a as [|x a IH]; cbn; [reflexivity | now rewrite IH]. Qed.

(** ** Lines *)

Lemma reader_records_cons (self : ReaderObj) (line : string) (more : list string)
    (last : ending) :
  reader_records self (line :: more) last = emit (parse_line self line) more last.
Proof. reflexivity. Qed.

Lemma readlines_cons (c : ascii) (s : string) :
  Ascii.eqb c LF = false ->
  readlines (String c s) =
  match readlines s with
  | [] => [String c EmptyString]
  | line :: more => String c line :: more
  end.
Proof. intros H. cbn [readlines]. now rewrite H. Qed.

Lemma resume_start (self : ReaderObj) (c : ascii) (s : string) (last : ending) :
  reader_records self (readlines (String c s)) last = resume self (String c s) last.
Proof.
  unfold resume. destruct (readlines (String c s)) as [|line more] eqn:H.
  - exfalso. cbn [readlines] in H. destruct (Ascii.eqb c LF); [discriminate|].
    destruct (readlines s); discriminate.
  - apply reader_records_cons.
Qed.

Lemma resume_nonempty (self : ReaderObj) (s : string) (last : ending) :
  s <> EmptyString ->
  reader_records self (readlines s) last = resume self s last.
Proof. destruct s; [contradiction | intros _; apply resume_start]. Qed.

Lemma resume_char (self : ReaderObj) (c : ascii) (s : string) (last : ending) :
  Ascii.eqb c LF = false ->
  resume self (String c s) last =
  match parse_process_char self (Some c) with
  | Parsed self' => resume self' s last
  | Error msg => ([], ReaderError msg)
  end.
Proof.
  intros H. unfold resume. rewrite (readlines_cons c s H).
  destruct (readlines s) as [|line more]; cbn [parse_line];
    destruct (parse_process_char self (Some c)); reflexivity.
Qed.

Lemma resume_LF (self : ReaderObj) (s : string) (last : ending) :
  resume self (String LF s) last =
  match parse_process_char self (Some LF) with
  | Parsed self' => emit (parse_process_char self' None) (readlines s) last
  | Error msg => ([], ReaderError msg)
  end.
Proof.
  unfold resume. cbn [readlines]. rewrite Ascii.eqb_refl. cbn [parse_line].
  destruct (parse_process_char self (Some LF)); reflexivity.
Qed.

(** ** One field *)

Lemma forces_quotes_false (c : ascii) :
  forces_quotes c = false ->
  Ascii.eqb c delimiter = false /\ Ascii.eqb c quotechar = false /\
  Ascii.eqb c CR = false /\ Ascii.eqb c LF = false.
Proof.
  unfold forces_quotes. rewrite !orb_false_iff. tauto.
Qed.

Lemma parse_add_char_ok (self : ReaderObj) (c : ascii) :
  Z.of_nat (String.length (rd_field self)) < field_limit ->
  parse_add_char self c =
  Parsed (mkReader (rd_state self) (rd_fields self) (rd_field self ++ String c EmptyString)).
Proof.
  intros H. unfold parse_add_char.
  destruct (Z.leb_spec field_limit (Z.of_nat (String.length (rd_field self)))); [lia|].
  reflexivity.
Qed.

Lemma append_snoc (g : string) (c : ascii) (f : string) :
  ((g ++ String c EmptyString) ++ f = g ++ String c f)%string.
Proof. now rewrite append_assoc. Qed.

(** An unquoted field, once begun. *)
Lemma in_field_unquoted (f g : string) (fs : list string) (rest : string) (last : ending) :
  field_is_quoted f = false ->
  Z.of_nat (String.length g + String.length f) <= field_limit ->
  resume (mkReader IN_FIELD fs g) (f ++ rest) last =
  resume (mkReader IN_FIELD fs (g ++ f)) rest last.
Proof.
  revert g. induction f as [|c f IH]; intros g Hq Hlen.
  - now rewrite append_nil_r.
  - cbn [field_is_quoted] in Hq. apply orb_false_iff in Hq as [Hc Hq].
    destruct (forces_quotes_false c Hc) as (Hd & _ & Hcr & Hlf).
    cbn [String.length] in Hlen.
    change (String c f ++ rest)%string with (String c (f ++ rest)).
    rewrite (resume_char _ c _ _ Hlf).
    cbn [parse_process_char rd_state]. unfold is_newline. rewrite Hlf, Hcr, Hd.
    cbn [orb]. rewrite parse_add_char_ok by (cbn [rd_field]; lia).
    cbn [rd_state rd_fields rd_field].
    rewrite IH; [now rewrite append_snoc | exact Hq |].
    rewrite length_append. cbn [String.length]. lia.
Qed.

(** The data of a quoted field, after the opening quote. *)
Lemma in_quoted_field (f g : string) (fs : list string) (c0 : ascii) (rest : string)
    (last : ending) :
  Z.of_nat (String.length g + String.length f) <= field_limit ->
  resume (mkReader IN_QUOTED_FIELD fs g) (field_data f ++ String c0 rest) last =
  resume (mkReader IN_QUOTED_FIELD fs (g ++ f)) (String c0 rest) last.
Proof.
  revert g. induction f as [|c f IH]; intros g Hlen.
  - now rewrite append_nil_r.
  - cbn [String.length] in Hlen. cbn [field_data].
    assert (Hnext : Z.of_nat (String.length (g ++ String c EmptyString) + String.length f)
                    <= field_limit)
      by (rewrite length_append; cbn [String.length]; lia).
    destruct (Ascii.eqb c quotechar) eqn:Hquote.
    + apply Ascii.eqb_eq in Hquote. subst c.
      change (String quotechar (String quotechar (field_data f)) ++ String c0 rest)%string
        with (String quotechar (String quotechar (field_data f ++ String c0 rest))).
      rewrite resume_char by reflexivity.
      cbn [parse_process_char rd_state]. rewrite Ascii.eqb_refl.
      unfold set_state. cbn [rd_fields rd_field].
      rewrite resume_char by reflexivity.
      cbn [parse_process_char rd_state]. rewrite Ascii.eqb_refl.
      rewrite parse_add_char_ok by (cbn [rd_field]; lia).
      unfold set_state. cbn [rd_state rd_fields rd_field].
      rewrite IH by exact Hnext. now rewrite append_snoc.
    + change (String c (field_data f) ++ String c0 rest)%string
        with (String c (field_data f ++ String c0 rest)).
      destruct (Ascii.eqb c LF) eqn:Hlf.
      * apply Ascii.eqb_eq in Hlf. subst c.
        rewrite resume_LF.
        cbn [parse_process_char rd_state]. rewrite Hquote.
        rewrite parse_add_char_ok by (cbn [rd_field]; lia).
        cbn [rd_state rd_fields rd_field parse_process_char emit].
        rewrite resume_nonempty by (destruct (field_data f); discriminate).
        rewrite IH by exact Hnext. now rewrite append_snoc.
      * rewrite (resume_char _ c _ _ Hlf).
        cbn [parse_process_char rd_state]. rewrite Hquote.
        rewrite parse_add_char_ok by (cbn [rd_field]; lia).
        cbn [rd_state rd_fields rd_field].
        rewrite IH by exact Hnext. now rewrite append_snoc.
Qed.

Lemma field_is_quoted_nonempty (f : string) : field_is_quoted f = true -> f <> EmptyString.
Proof. destruct f; [discriminate | discriminate]. Qed.

(** The text of a field takes the reader from between two fields to
    the end of the field. *)
Lemma field_is_read (self : ReaderObj) (f rest : string) (last : ending) :
  between_fields self ->
  Z.of_nat (String.length f) <= field_limit ->
  exists self',
    resume self (join_append f ++ rest) last = resume self' rest last /\
    at_field_end self self' f.
Proof.
  intros Hb Hlen. pose proof Hb as (Hfield & Hstate).
  destruct self as [st fs g]. cbn [rd_field rd_state rd_fields] in *. subst g.
  unfold join_append. destruct (field_is_quoted f) eqn:Hq.
  - exists (mkReader QUOTE_IN_QUOTED_FIELD fs f). split.
    + change (String quotechar (field_data f ++ String quotechar EmptyString) ++ rest)%string
        with (String quotechar ((field_data f ++ String quotechar EmptyString) ++ rest)).
      rewrite append_assoc.
      change (String quotechar EmptyString ++ rest)%string with (String quotechar rest).
      rewrite resume_char by reflexivity.
      assert (Hstart : parse_process_char (mkReader st fs EmptyString) (Some quotechar)
                       = Parsed (mkReader IN_QUOTED_FIELD fs EmptyString))
        by (destruct Hstate as [-> | [-> _]]; reflexivity).
      rewrite Hstart.
      rewrite in_quoted_field by (cbn [String.length]; lia).
      cbn [append]. rewrite resume_char by reflexivity.
      cbn [parse_process_char rd_state]. rewrite Ascii.eqb_refl. reflexivity.
    + repeat split. right. left. reflexivity.
  - destruct f as [|c f].
    + exists (mkReader st fs EmptyString). split; [reflexivity|].
      repeat split. right. right. repeat split; assumption.
    + exists (mkReader IN_FIELD fs (String c f)). split.
      * pose proof Hq as Hq'. cbn [field_is_quoted] in Hq'.
        apply orb_false_iff in Hq' as [Hc Hq'].
        destruct (forces_quotes_false c Hc) as (Hd & Hquote & Hcr & Hlf).
        change (String c f ++ rest)%string with (String c (f ++ rest)).
        rewrite (resume_char _ c _ _ Hlf).
        assert (Hstart : parse_process_char (mkReader st fs EmptyString) (Some c)
                         = Parsed (mkReader IN_FIELD fs (String c EmptyString))).
        { destruct Hstate as [-> | [-> _]];
            cbn [parse_process_char rd_state]; unfold is_newline;
            rewrite Hlf, Hcr, Hd, Hquote; cbn [orb];
            rewrite parse_add_char_ok by (cbn; unfold field_limit; lia);
            reflexivity. }
        rewrite Hstart.
        cbn [String.length] in Hlen.
        rewrite in_field_unquoted; [reflexivity | exact Hq' |].
        cbn [String.length]. lia.
      * repeat split. left. reflexivity.
Qed.

(** After a field: the delimiter starts the next field. *)
Lemma delimiter_after_field (before self : ReaderObj) (f rest : string) (last : ending) :
  at_field_end before self f ->
  resume self (String delimiter rest) last =
  resume (mkReader START_FIELD (rd_fields before ++ [f]) EmptyString) rest last.
Proof.
  intros (Hfs & Hf & Hst). destruct self as [st fs g].
  cbn [rd_fields rd_field rd_state] in *. subst fs g.
  rewrite resume_char by reflexivity.
  destruct Hst as [-> | [-> | (-> & -> & _ & [Hs | [Hs _]])]];
    try rewrite Hs; reflexivity.
Qed.

(** After the last field: the line feed ends the record. *)
Lemma line_feed_after_field (before self : ReaderObj) (f rest : string) (last : ending) :
  at_field_end before self f ->
  rd_state self <> START_RECORD ->
  resume self (String LF rest) last =
  let '(records, e) := reader_records parse_reset (readlines rest) last in
  ((rd_fields before ++ [f]) :: records, e).
Proof.
  intros (Hfs & Hf & Hst) Hne. destruct self as [st fs g].
  cbn [rd_fields rd_field rd_state] in *. subst fs g.
  rewrite resume_LF.
  destruct Hst as [-> | [-> | (-> & -> & _ & [Hs | [Hs _]])]];
    try rewrite Hs in *; try reflexivity.
  contradiction.
Qed.

(** ** One record *)

Lemma join_fields_cons (f : string) (g : string) (row : list string) :
  join_fields (f :: g :: row) =
  (join_append f ++ String delimiter (join_fields (g :: row)))%string.
Proof. reflexivity. Qed.

(** A record that is begun: every further field is read, the line feed
    ends it. *)
Lemma fields_are_read (row : list string) :
  forall (fs : list string) (rest : string) (last : ending),
  row <> [] ->
  forallb reads_back row = true ->
  resume (mkReader START_FIELD fs EmptyString) (join_fields row ++ String LF rest) last =
  let '(records, e) := reader_records parse_reset (readlines rest) last in
  ((fs ++ row) :: records, e).
Proof.
  induction row as [|f row IH]; intros fs rest last Hne Hok; [contradiction|].
  cbn [forallb] in Hok. apply andb_true_iff in Hok as [Hf Hrow].
  unfold reads_back in Hf. apply andb_true_iff in Hf as [_ Hlen].
  apply Z.leb_le in Hlen.
  assert (Hb : between_fields (mkReader START_FIELD fs EmptyString))
    by (split; [reflexivity | left; reflexivity]).
  destruct row as [|g row].
  - cbn [join_fields].
    destruct (field_is_read _ f (String LF rest) last Hb Hlen) as (self' & -> & Hend).
    rewrite (line_feed_after_field _ _ _ _ _ Hend).
    + reflexivity.
    + destruct Hend as (_ & _ & [H | [H | (H & _)]]); rewrite H; discriminate.
  - rewrite join_fields_cons, append_assoc.
    change (String delimiter (join_fields (g :: row)) ++ String LF rest)%string
      with (String delimiter (join_fields (g :: row) ++ String LF rest)).
    destruct (field_is_read _ f (String delimiter (join_fields (g :: row) ++ String LF rest))
                last Hb Hlen) as (self' & -> & Hend).
    rewrite (delimiter_after_field _ _ _ _ _ Hend). cbn [rd_fields].
    rewrite IH by (discriminate || exact Hrow).
    destruct (reader_records parse_reset (readlines rest) last) as [records e].
    now rewrite <- app_assoc.
Qed.

Lemma join_append_empty (f : string) : join_append f = EmptyString -> f = EmptyString.
Proof.
  unfold join_append. destruct (field_is_quoted f); [discriminate | trivial].
Qed.

Lemma join_fields_empty (row : list string) :
  join_fields row = EmptyString -> row = [] \/ row = [EmptyString].
Proof.
  destruct row as [|f [|g row]]; [now left | |].
  - cbn. intros H. right. now rewrite (join_append_empty f H).
  - rewrite join_fields_cons. destruct (join_append f); discriminate.
Qed.

Lemma record_is_read (row : list string) (rest : string) (last : ending) :
  forallb reads_back row = true ->
  reader_records parse_reset (readlines (record_line row ++ String LF rest)) last =
  let '(records, e) := reader_records parse_reset (readlines rest) last in
  (row :: records, e).
Proof.
  intros Hok. unfold record_line.
  destruct row as [|f row].
  - cbn [join_fields append]. rewrite resume_start, resume_LF. reflexivity.
  - destruct (join_fields (f :: row)) as [|c s] eqn:Hj.
    + destruct (join_fields_empty _ Hj) as [H | H]; [discriminate|].
      inversion H. subst f row.
      cbn [append]. rewrite resume_start.
      rewrite resume_char by reflexivity.
      change (parse_process_char parse_reset (Some quotechar))
        with (Parsed (mkReader IN_QUOTED_FIELD [] EmptyString)).
      cbv iota. rewrite resume_char by reflexivity.
      change (parse_process_char (mkReader IN_QUOTED_FIELD [] EmptyString) (Some quotechar))
        with (Parsed (mkReader QUOTE_IN_QUOTED_FIELD [] EmptyString)).
      cbv iota. rewrite resume_LF. reflexivity.
    + rewrite <- Hj.
      assert (Hb : between_fields parse_reset)
        by (split; [reflexivity | right; split; reflexivity]).
      cbn [forallb] in Hok. apply andb_true_iff in Hok as [Hf Hrow].
      unfold reads_back in Hf. apply andb_true_iff in Hf as [_ Hlen].
      apply Z.leb_le in Hlen.
      assert (Hstart : forall t, reader_records parse_reset
                         (readlines (join_fields (f :: row) ++ t)) last
                       = resume parse_reset (join_fields (f :: row) ++ t) last).
      { intros t. rewrite Hj. apply resume_start. }
      rewrite Hstart.
      destruct row as [|g row].
      * cbn [join_fields] in *.
        destruct (field_is_read _ f (String LF rest) last Hb Hlen) as (self' & -> & Hend).
        rewrite (line_feed_after_field _ _ _ _ _ Hend); [reflexivity|].
        destruct Hend as (_ & Hfield & [H | [H | (_ & H & _)]]);
          try (rewrite H; discriminate).
        rewrite H in Hj. discriminate Hj.
      * rewrite join_fields_cons, append_assoc.
        change (String delimiter (join_fields (g :: row)) ++ String LF rest)%string
          with (String delimiter (join_fields (g :: row) ++ String LF rest)).
        destruct (field_is_read _ f (String delimiter (join_fields (g :: row) ++ String LF rest))
                    last Hb Hlen) as (self' & -> & Hend).
        rewrite (delimiter_after_field _ _ _ _ _ Hend). cbn [rd_fields parse_reset].
        rewrite fields_are_read by (discriminate || exact Hrow).
        reflexivity.
Qed.


(** ** The whole file *)

Lemma has_CR_append (a b : string) : has_CR (a ++ b) = has_CR a || has_CR b.
Proof.
  induction a as [|c a IH]; cbn [append has_CR]; [reflexivity|].
  now rewrite IH, orb_assoc.
Qed.

Lemma has_CR_field_data (f : string) : has_CR f = false -> has_CR (field_data f) = false.
Proof.
  induction f as [|c f IH]; cbn [field_data has_CR]; [trivial|].
  intros H. apply orb_false_iff in H as [Hc Hf].
  destruct (Ascii.eqb c quotechar) eqn:Hq; cbn [has_CR]; rewrite ?Hc, (IH Hf);
    reflexivity.
Qed.

Lemma has_CR_join_append (f : string) : has_CR f = false -> has_CR (join_append f) = false.
Proof.
  intros H. unfold join_append. destruct (field_is_quoted f); [|exact H].
  cbn [has_CR]. rewrite has_CR_append, (has_CR_field_data f H). reflexivity.
Qed.

Lemma reads_back_no_CR (f : string) : reads_back f = true -> has_CR f = false.
Proof.
  unfold reads_back. intros H. apply andb_true_iff in H as [H _].
  now apply negb_true_iff in H.
Qed.

Lemma has_CR_join_fields (row : list string) :
  forallb reads_back row = true -> has_CR (join_fields row) = false.
Proof.
  induction row as [|f row IH]; [reflexivity|].
  cbn [forallb]. intros H. apply andb_true_iff in H as [Hf Hrow].
  pose proof (has_CR_join_append f (reads_back_no_CR f Hf)) as Hj.
  destruct row as [|g row]; [exact Hj|].
  rewrite join_fields_cons, has_CR_append, Hj. cbn [has_CR orb].
  rewrite (IH Hrow). reflexivity.
Qed.

Lemma has_CR_record_line (row : list string) :
  forallb reads_back row = true -> has_CR (record_line row) = false.
Proof.
  intros H. pose proof (has_CR_join_fields row H) as Hj. unfold record_line.
  destruct row as [|f0 row']; [exact Hj|].
  destruct (join_fields (f0 :: row')); [reflexivity | exact Hj].
Qed.

Lemma writerow_record_line (row : list string) :
  writerow row = (record_line row ++ lineterminator)%string.
Proof.
  unfold writerow, record_line.
  destruct row as [|f0 row']; [reflexivity|].
  destruct (join_fields (f0 :: row')); reflexivity.
Qed.

(** The line terminator is read as a line feed; a text without carriage
    returns is read as it is. *)
Lemma universal_newlines_line (body rest : string) :
  has_CR body = false ->
  universal_newlines ((body ++ lineterminator) ++ rest) =
  (body ++ String LF (universal_newlines rest))%string.
Proof.
  intros H. rewrite append_assoc. induction body as [|c body IH].
  - reflexivity.
  - cbn [has_CR] in H. apply orb_false_iff in H as [Hc Hb].
    cbn [append universal_newlines]. rewrite Hc. now rewrite (IH Hb).
Qed.

Lemma reader_reads_rows (rows : list (list string)) (last : ending) :
  forallb (forallb reads_back) rows = true ->
  reader_records parse_reset (readlines (universal_newlines (csv_text rows))) last
  = (rows, last).
Proof.
  induction rows as [|row rows IH]; intros H.
  - destruct last; reflexivity.
  - cbn [forallb] in H. apply andb_true_iff in H as [Hrow Hrows].
    cbn [csv_text]. rewrite writerow_record_line.
    rewrite universal_newlines_line by (apply has_CR_record_line, Hrow).
    rewrite record_is_read by exact Hrow. now rewrite (IH Hrows).
Qed.

(** X13: what [csv.writer] writes, [csv.reader] reads back through
    [open(..., 'r')]: the same rows with the same fields, whatever
    commas, quotes and line feeds the fields hold, provided no field
    has a carriage return or more than 131072 characters. *)
Theorem reader_returns_the_rows_written (rows : list (list string)) (last : ending) :
  forallb (forallb reads_back) rows = true ->
  reader_records parse_reset (readlines (universal_newlines (csv_text rows))) last
  = (rows, last).
Proof.
  revert last. induction rows as [|row rows IH]; intros last H.
  - destruct last; reflexivity.
  - cbn [forallb] in H. apply andb_true_iff in H as [Hrow Hrows].
    cbn [csv_text]. rewrite writerow_record_line.
    rewrite universal_newlines_line by (apply has_CR_record_line, Hrow).
    rewrite record_is_read by exact Hrow. now rewrite (IH last Hrows).
Qed.

Lemma reader_returns_the_rows_written_witness :
  reader_records parse_reset (readlines (universal_newlines (csv_text quoted_rows)))
    Exhausted
  = (quoted_rows, Exhausted).
Proof.
  apply (reader_returns_the_rows_written quoted_rows Exhausted). reflexivity.
Defined.

(** ** [load_csv] *)

Lemma load_rows_all (entry : list (string * option string) -> loaded_row)
    (rows : list (list (string * option string))) :
  (forall d, In d rows -> loaded_entry d = Some (entry d)) ->
  forall cache, load_rows rows cache = cache ++ map entry rows.
Proof.
  induction rows as [|d rows IH]; intros H cache; cbn [load_rows map].
  - now rewrite app_nil_r.
  - rewrite (H d) by now left.
    rewrite IH by (intros d' Hd'; apply H; now right).
    now rewrite <- app_assoc.
Qed.

Lemma entry_under_csv_header (record : list string) :
  loaded_entry (row_dict csv_header record) = Some (entry_of_record record).
Proof.
  destruct record as [|a [|b [|c rest]]]; try reflexivity.
  unfold row_dict, csv_header. cbn [List.length skipn]. rewrite skipn_nil.
  reflexivity.
Qed.

Lemma load_under_csv_header (records : list (list string)) :
  load_rows (DictReader (csv_header :: records)) [] =
  map entry_of_record (filter (fun r => negb (is_empty_row r)) records).
Proof.
  cbn [DictReader].
  rewrite (load_rows_all (fun d => match loaded_entry d with
                                   | Some e => e
                                   | None => mkLoaded None None None
                                   end)).
  - cbn [app]. rewrite map_map. apply map_ext. intros r.
    now rewrite entry_under_csv_header.
  - intros d Hd. apply in_map_iff in Hd as (r & <- & _).
    now rewrite entry_under_csv_header.
Qed.

(** X14: a file that holds the header of [save_reading] and then rows
    whose fields have no carriage return and at most 131072 characters
    is loaded row by row: every row that is not empty gives one entry
    with its first three fields, [None] where the row is too short;
    extra fields are ignored and an error at the end of the file loses
    nothing. *)
Theorem load_csv_loads_every_row (rows : list (list string)) (last : ending) :
  forallb (forallb reads_back) rows = true ->
  load_csv (FileText (csv_text (csv_header :: rows)) last) =
  map entry_of_record (filter (fun r => negb (is_empty_row r)) rows).
Proof.
  intros H. unfold load_csv.
  rewrite reader_reads_rows.
  - apply load_under_csv_header.
  - cbn [forallb]. rewrite H. reflexivity.
Qed.

Lemma load_csv_loads_every_row_witness :
  load_csv (FileText (csv_text (csv_header :: quoted_rows)) (ReadError permission_denied)) =
  map entry_of_record (filter (fun r => negb (is_empty_row r)) quoted_rows).
Proof.
  apply (load_csv_loads_every_row quoted_rows (ReadError permission_denied)).
  reflexivity.
Defined.

(** X15: what [save_reading] writes, [load_csv] loads: after a reading
    is saved, the cache that a restart builds from the file is the
    cache that [save_reading] left, provided the three texts have no
    carriage return and at most 131072 characters. *)
Theorem saved_reading_is_loaded_back (timestamp : string) (mgdl mmol : pynum) (w : world) :
  reads_back timestamp = true ->
  reads_back (py_str mgdl) = true ->
  reads_back (py_str mmol) = true ->
  load_csv (disk_of (snd (save_reading IoOk timestamp mgdl mmol w))) =
  map loaded_of_row (readings_cache (snd (save_reading IoOk timestamp mgdl mmol w))).
Proof.
  intros Ht Hg Hm.
  assert (Hw : snd (save_reading IoOk timestamp mgdl mmol w) =
               log (EPrint ("NEW READING: " ++ py_str mgdl ++
                            " mg/dL. UI will update on next poll."))
                 (mkWorld (latest_status w)
                    [mkRow timestamp (py_str mgdl) (py_str mmol)]
                    (Some [csv_header; [timestamp; py_str mgdl; py_str mmol]])
                    (trace w))) by reflexivity.
  rewrite Hw. unfold disk_of. cbn [log csv_file readings_cache map].
  unfold load_csv. rewrite reader_reads_rows.
  - reflexivity.
  - cbn [forallb]. rewrite Ht, Hg, Hm. reflexivity.
Qed.

Lemma saved_reading_is_loaded_back_witness :
  load_csv (disk_of (snd (save_reading IoOk "2024-03-15 08:30:00" (PyInt 95)
                            (PyFloat (float_of_ratio false 53 10)) initial_world))) =
  map loaded_of_row
    (readings_cache (snd (save_reading IoOk "2024-03-15 08:30:00" (PyInt 95)
                            (PyFloat (float_of_ratio false 53 10)) initial_world))).
Proof.
  apply (saved_reading_is_loaded_back "2024-03-15 08:30:00" (PyInt 95)
           (PyFloat (float_of_ratio false 53 10)) initial_world);
    vm_compute; reflexivity.
Defined.


(** ** The header decides *)

Lemma getitem_none (d : list (string * option string)) (key : string) :
  getitem d key = None <-> existsb (String.eqb key) (map fst d) = false.
Proof.
  induction d as [|[k v] d IH]; cbn [getitem map fst existsb]; [tauto|].
  rewrite orb_false_iff, <- IH, (String.eqb_sym key k).
  destruct (getitem d key); [split; [discriminate | intros [_ H]; discriminate]|].
  destruct (String.eqb k key); split; try discriminate; try tauto.
  intros [H _]. discriminate.
Qed.

Lemma map_fst_combine {A B} (l : list A) (l' : list B) :
  map fst (combine l l') = firstn (List.length l') l.
Proof.
  revert l'. induction l as [|x l IH]; intros [|y l']; cbn; try reflexivity.
  now rewrite IH.
Qed.

(** The keys of the dict of a row are the field names, whatever the row. *)
Lemma row_dict_keys (fieldnames record : list string) :
  map fst (row_dict fieldnames record) = fieldnames.
Proof.
  unfold row_dict. rewrite map_app, map_fst_combine, map_map, length_map.
  cbn [fst]. rewrite map_id. apply firstn_skipn.
Qed.

Lemma getitem_row_dict (fieldnames record : list string) (key : string) :
  getitem (row_dict fieldnames record) key =
  if existsb (String.eqb key) fieldnames
  then Some (value_under fieldnames record key) else None.
Proof.
  unfold value_under.
  pose proof (getitem_none (row_dict fieldnames record) key) as H.
  rewrite row_dict_keys in H.
  destruct (getitem (row_dict fieldnames record) key) as [v|].
  - destruct (existsb (String.eqb key) fieldnames); [reflexivity|].
    destruct H as [_ H]. now specialize (H eq_refl).
  - destruct H as [H _]. now rewrite (H eq_refl).
Qed.

Lemma loaded_entry_row_dict (fieldnames record : list string) :
  loaded_entry (row_dict fieldnames record) =
  if names_all_columns fieldnames then Some (entry_under fieldnames record) else None.
Proof.
  unfold loaded_entry, names_all_columns, csv_header, entry_under.
  cbn [forallb]. rewrite !getitem_row_dict.
  destruct (existsb (String.eqb "Timestamp") fieldnames);
    destruct (existsb (String.eqb "Glucose (mg/dL)") fieldnames);
    destruct (existsb (String.eqb "Glucose (mmol/L)") fieldnames); reflexivity.
Qed.

(** X16: whether a file is loaded depends on its first record only.  If
    the first record names the three columns, every later record that
    is not empty gives one entry, up to the end of the file or the first
    error of the reader; if it lacks one of the names, or the file has
    no record, nothing is loaded and no error is reported. *)
Theorem load_csv_depends_on_header (text : string) (last : ending) :
  load_csv (FileText text last) =
  match records_of_text text last with
  | [] => []
  | fieldnames :: records =>
      if names_all_columns fieldnames
      then map (entry_under fieldnames) (filter (fun r => negb (is_empty_row r)) records)
      else []
  end.
Proof.
  unfold load_csv, records_of_text.
  destruct (fst (reader_records parse_reset (readlines (universal_newlines text)) last))
    as [|fieldnames records]; [reflexivity|].
  cbn [DictReader].
  destruct (names_all_columns fieldnames) eqn:Hnames.
  - rewrite (load_rows_all (fun d => match loaded_entry d with
                                     | Some e => e
                                     | None => mkLoaded None None None
                                     end)).
    + cbn [app]. rewrite map_map. apply map_ext. intros r.
      now rewrite loaded_entry_row_dict, Hnames.
    + intros d Hd. apply in_map_iff in Hd as (r & <- & _).
      now rewrite loaded_entry_row_dict, Hnames.
  - destruct (filter (fun r => negb (is_empty_row r)) records) as [|r rs];
      [reflexivity|].
    cbn [map load_rows]. now rewrite loaded_entry_row_dict, Hnames.
Qed.


(* ------------------------------------------------------------------ *)
(** * The texts that the decoder produces *)

(** ** Texts without carriage return, of bounded length *)

Lemma fits_reads_back (n : Z) (s : string) :
  fits n s -> n <= field_limit -> reads_back s = true.
Proof.
  intros [Hc Hl] Hn. unfold reads_back. rewrite Hc. cbn [negb andb].
  apply Z.leb_le. lia.
Qed.

Lemma fits_weaken (n n' : Z) (s : string) : fits n s -> n <= n' -> fits n' s.
Proof. intros [Hc Hl] Hn. split; [exact Hc | lia]. Qed.

Lemma fits_append (a b : Z) (s t : string) :
  fits a s -> fits b t -> fits (a + b) (s ++ t).
Proof.
  intros [Hs Ha] [Ht Hb]. split.
  - now rewrite has_CR_append, Hs, Ht.
  - rewrite length_append. lia.
Qed.

Lemma fits_char (n : Z) (c : ascii) (s : string) :
  Ascii.eqb c CR = false -> fits n s -> fits (n + 1) (String c s).
Proof.
  intros Hc [Hs Hn]. split.
  - cbn [has_CR]. now rewrite Hc, Hs.
  - cbn [String.length]. lia.
Qed.

Lemma fits_empty : fits 0 EmptyString.
Proof. split; [reflexivity | cbn; lia]. Qed.

Lemma fits_nonneg (n : Z) (s : string) : fits n s -> 0 <= n.
Proof. intros [_ H]. lia. Qed.

(** ** [str] of an [int] *)

Lemma fits_string_of_uint (d : Decimal.uint) :
  fits (Z.of_nat (Decimal.nb_digits d)) (NilEmpty.string_of_uint d).
Proof.
  induction d; cbn [NilEmpty.string_of_uint Decimal.nb_digits];
    try apply fits_empty;
    rewrite Nat2Z.inj_succ; unfold Z.succ; apply fits_char;
      (reflexivity || assumption).
Qed.

Lemma nb_digits_double (d : Decimal.uint) :
  (Decimal.nb_digits (Decimal.Little.double d) <= S (Decimal.nb_digits d) /\
   Decimal.nb_digits (Decimal.Little.succ_double d) <= S (Decimal.nb_digits d))%nat.
Proof.
  induction d as [|d [IH1 IH2]|d [IH1 IH2]|d [IH1 IH2]|d [IH1 IH2]|d [IH1 IH2]
                  |d [IH1 IH2]|d [IH1 IH2]|d [IH1 IH2]|d [IH1 IH2]|d [IH1 IH2]];
    cbn [Decimal.Little.double Decimal.Little.succ_double Decimal.nb_digits]; lia.
Qed.

Lemma nb_digits_to_little_uint (p : positive) :
  (Decimal.nb_digits (Pos.to_little_uint p) <= Pos.size_nat p)%nat.
Proof.
  induction p as [p IH|p IH|]; cbn [Pos.to_little_uint Pos.size_nat].
  - pose proof (nb_digits_double (Pos.to_little_uint p)). lia.
  - pose proof (nb_digits_double (Pos.to_little_uint p)). lia.
  - cbn. lia.
Qed.

Lemma size_nat_log2 (p : positive) : Z.of_nat (Pos.size_nat p) = Z.log2 (Zpos p) + 1.
Proof.
  rewrite <- Zdigits2_log2. cbn [Zdigits2]. rewrite digits2_pos_size.
  induction p as [p IH|p IH|]; cbn [Pos.size_nat Pos.size]; try reflexivity;
    rewrite Nat2Z.inj_succ, IH; lia.
Qed.

Lemma fits_to_uint (p : positive) (K : Z) :
  Zpos p < 2 ^ K -> 0 <= K ->
  fits (K + 1) (NilZero.string_of_uint (Pos.to_uint p)).
Proof.
  intros Hp HK.
  assert (Hd : Z.of_nat (Decimal.nb_digits (Pos.to_uint p)) <= K).
  { unfold Pos.to_uint. rewrite DecimalFacts.nb_digits_rev.
    pose proof (nb_digits_to_little_uint p) as H.
    pose proof (size_nat_log2 p) as Hs.
    assert (Z.log2 (Zpos p) < K) by (apply Z.log2_lt_pow2; lia). lia. }
  pose proof (fits_string_of_uint (Pos.to_uint p)) as Hf.
  unfold NilZero.string_of_uint.
  destruct (Pos.to_uint p); try (eapply fits_weaken; [exact Hf | lia]).
  split; [reflexivity | cbn; lia].
Qed.

Lemma fits_str_int (z K : Z) :
  Z.abs z < 2 ^ K -> 0 <= K -> fits (K + 2) (str_int z).
Proof.
  intros Hz HK. unfold str_int, NilZero.string_of_int.
  destruct z as [|p|p]; cbn [Z.to_int].
  - split; [reflexivity | cbn; lia].
  - eapply fits_weaken; [apply (fits_to_uint p K); [exact Hz | exact HK] | lia].
  - replace (K + 2) with (K + 1 + 1) by lia.
    apply fits_char; [reflexivity|]. apply fits_to_uint; [exact Hz | exact HK].
Qed.

(** A number is below two to its own power. *)
Lemma fits_str_int_small (z B : Z) : Z.abs z <= B -> fits (B + 2) (str_int z).
Proof.
  intros Hz. apply fits_str_int; [|lia].
  pose proof (Z.pow_gt_lin_r 2 B ltac:(lia) ltac:(lia)). lia.
Qed.

(** ** The pieces of [repr] of a [float] *)

Lemma fits_zeros (n : nat) : fits (Z.of_nat n) (zeros n).
Proof.
  induction n as [|n IH]; [apply fits_empty|].
  rewrite Nat2Z.inj_succ. unfold Z.succ. cbn [zeros].
  apply fits_char; [reflexivity | exact IH].
Qed.

Lemma fits_string_rev_onto (s acc : string) (a b : Z) :
  fits a s -> fits b acc -> fits (a + b) (string_rev_onto s acc).
Proof.
  revert acc a b. induction s as [|c s IH]; intros acc a b Hs Hacc; cbn [string_rev_onto].
  - eapply fits_weaken; [exact Hacc|]. pose proof (fits_nonneg _ _ Hs). lia.
  - destruct Hs as [Hc Hl]. cbn [has_CR String.length] in Hc, Hl.
    apply orb_false_iff in Hc as [Hc Hs].
    replace (a + b) with ((a - 1) + (b + 1)) by lia.
    apply IH; [split; [exact Hs | lia]|]. now apply fits_char.
Qed.

Lemma fits_string_rev (s : string) (n : Z) : fits n s -> fits n (string_rev s).
Proof.
  intros H. unfold string_rev. replace n with (n + 0) by lia.
  apply fits_string_rev_onto; [exact H | apply fits_empty].
Qed.

Lemma fits_tail (c : ascii) (s : string) (n : Z) : fits n (String c s) -> fits n s.
Proof.
  intros [Hc Hl]. cbn [has_CR String.length] in Hc, Hl.
  apply orb_false_iff in Hc as [_ Hs]. split; [exact Hs | lia].
Qed.

Lemma fits_drop_leading_zeros (s : string) (n : Z) :
  fits n s -> fits n (drop_leading_zeros s).
Proof.
  induction s as [|c s IH]; intros H; [exact H|].
  cbn [drop_leading_zeros].
  destruct c as [[|] [|] [|] [|] [|] [|] [|] [|]]; try exact H.
  apply IH. eapply fits_tail, H.
Qed.

Lemma fits_strip_trailing_zeros (s : string) (n : Z) :
  fits n s -> fits n (strip_trailing_zeros s).
Proof.
  intros H. unfold strip_trailing_zeros.
  now apply fits_string_rev, fits_drop_leading_zeros, fits_string_rev.
Qed.

Lemma fits_substring (s : string) (n : Z) :
  fits n s -> forall i len, fits n (substring i len s).
Proof.
  revert n. induction s as [|c s IH]; intros n H i len.
  - destruct i, len; exact H.
  - pose proof (fits_tail c s n H) as Ht.
    destruct i as [|i]; cbn [substring].
    + destruct len as [|len].
      * split; [reflexivity | cbn; pose proof (fits_nonneg _ _ H); lia].
      * destruct H as [Hc Hl]. cbn [has_CR String.length] in Hc, Hl.
        apply orb_false_iff in Hc as [Hc Hs].
        replace n with (n - 1 + 1) by lia. apply fits_char; [exact Hc|].
        apply IH. split; [exact Hs | lia].
    + apply IH, Ht.
Qed.

Lemma fits_string_head (s : string) (n : Z) : fits n s -> fits 1 (string_head s).
Proof.
  intros [Hc _]. destruct s as [|c s]; cbn [string_head].
  - split; [reflexivity | cbn; lia].
  - cbn [has_CR] in Hc. apply orb_false_iff in Hc as [Hc _].
    apply (fits_char 0); [exact Hc | apply fits_empty].
Qed.

Lemma fits_string_tail (s : string) (n : Z) : fits n s -> fits n (string_tail s).
Proof.
  intros H. destruct s as [|c s]; cbn [string_tail]; [exact H|].
  eapply fits_tail, H.
Qed.

Lemma fits_str_exponent (x B : Z) : Z.abs x <= B -> fits (B + 4) (str_exponent x).
Proof.
  intros Hx. unfold str_exponent.
  replace (B + 4) with (1 + (1 + (B + 2))) by lia.
  apply fits_append; [destruct (x <? 0); split; (reflexivity || (cbn; lia))|].
  apply fits_append; [destruct (Z.abs x <? 10); split; (reflexivity || (cbn; lia))|].
  apply fits_str_int_small. lia.
Qed.

Lemma fits_format_repr (ds : string) (decpt L D : Z) :
  fits L ds -> -400 <= decpt <= D ->
  fits (2 * L + D + 1000) (format_repr ds decpt).
Proof.
  intros Hds Hd. pose proof (fits_nonneg _ _ Hds) as HL.
  assert (H2 : forall s, (s = "."%string \/ s = "e"%string \/ s = "0."%string \/
                          s = ".0"%string \/ s = EmptyString) -> fits 2 s).
  { intros s [-> | [-> | [-> | [-> | ->]]]]; split; (reflexivity || (cbn; lia)). }
  unfold format_repr.
  destruct ((decpt <=? -4) || (16 <? decpt))%bool.
  - eapply fits_weaken;
      [apply fits_append; [eapply fits_string_head, Hds|];
       apply fits_append;
       [destruct (1 <? Z.of_nat (String.length ds));
        [apply fits_append; [apply H2; auto | apply fits_string_tail, Hds]
        |eapply fits_weaken; [apply fits_empty | lia]]|];
       apply fits_append; [apply H2; auto|];
       apply (fits_str_exponent _ (D + 802)); lia|].
    lia.
  - destruct (Z.leb_spec decpt 0).
    + assert (Hz : fits 400 (zeros (Z.to_nat (- decpt))))
        by (eapply fits_weaken; [apply fits_zeros | lia]).
      eapply fits_weaken;
        [apply fits_append; [apply H2; auto|]; apply fits_append; [exact Hz | exact Hds]|].
      lia.
    + destruct (Z.leb_spec (Z.of_nat (String.length ds)) decpt).
      * assert (Hz : fits D (zeros (Z.to_nat (decpt - Z.of_nat (String.length ds)))))
          by (eapply fits_weaken; [apply fits_zeros | lia]).
        eapply fits_weaken;
          [apply fits_append; [exact Hds|]; apply fits_append; [exact Hz | apply H2; auto]|].
        lia.
      * eapply fits_weaken;
          [apply fits_append; [apply fits_substring, Hds|];
           apply fits_append; [apply H2; auto | apply fits_substring, Hds]|].
        lia.
Qed.


(** ** [repr] of a [float] *)

Lemma decpt_from_range (fuel : nat) (p n : Z) (d : positive) :
  p <= decpt_from fuel p n d <= p + Z.of_nat fuel.
Proof.
  revert p. induction fuel as [|fuel IH]; intros p; cbn [decpt_from]; [lia|].
  destruct (below_pow10 n d p); [lia|]. specialize (IH (p + 1)). lia.
Qed.

Lemma decpt_of_range (n : Z) (d : positive) : -324 <= decpt_of n d <= 316.
Proof.
  unfold decpt_of. pose proof (decpt_from_range 640 (-324) n d) as H.
  change (Z.of_nat 640) with 640 in H. lia.
Qed.

Lemma round_half_even_range (n : Z) (d : positive) :
  n / Zpos d <= round_half_even n d <= n / Zpos d + 1.
Proof.
  unfold round_half_even. destruct (2 * (n mod Zpos d) ?= Zpos d); [|lia|lia].
  destruct (Z.even (n / Zpos d)); lia.
Qed.

Lemma pow10_341 : 10 ^ 341 < 2 ^ 1133.
Proof. reflexivity. Qed.

(** Every candidate of the digit search is below [2^(K + 1134)]. *)
Lemma candidate_bound (n : Z) (d : positive) (K k : Z) :
  0 <= K -> 0 <= n < 2 ^ K * Zpos d -> -341 <= k ->
  0 <= (if 0 <=? k then n else n * 10 ^ (- k)) /
       (if 0 <=? k then Zpos d * 10 ^ k else Zpos d) < 2 ^ (K + 1133).
Proof.
  intros HK Hn Hk.
  assert (H2K : 0 < 2 ^ K) by (apply Z.pow_pos_nonneg; lia).
  assert (Hmono : 2 ^ K <= 2 ^ (K + 1133)) by (apply Z.pow_le_mono_r; lia).
  destruct (Z.leb_spec 0 k).
  - assert (0 < 10 ^ k) by (apply Z.pow_pos_nonneg; lia).
    split; [apply Z.div_pos; nia|].
    apply Z.div_lt_upper_bound; [nia|].
    apply Z.lt_le_trans with (2 ^ K * Zpos d); [lia|].
    apply Z.le_trans with (2 ^ (K + 1133) * Zpos d); [nia|].
    assert (0 <= 2 ^ (K + 1133) * Zpos d) by nia. nia.
  - assert (Hp : 0 < 10 ^ (- k)) by (apply Z.pow_pos_nonneg; lia).
    assert (Hle : 10 ^ (- k) <= 10 ^ 341) by (apply Z.pow_le_mono_r; lia).
    pose proof pow10_341 as H341.
    split; [apply Z.div_pos; nia|].
    apply Z.div_lt_upper_bound; [lia|].
    rewrite Z.pow_add_r by lia.
    apply Z.lt_le_trans with (2 ^ K * Zpos d * 10 ^ (- k)); [nia|].
    assert (0 < 2 ^ K * Zpos d) by nia. nia.
Qed.

Lemma shortest_digits_fits (fuel : nat) (m : positive) (e n : Z) (d : positive)
    (p K : Z) :
  0 <= K -> 0 <= n < 2 ^ K * Zpos d -> -324 <= p <= 316 ->
  forall ndig, 1 <= ndig -> ndig + Z.of_nat fuel <= 17 ->
  fits (K + 1136) (fst (shortest_digits fuel ndig m e n d p)) /\
  -400 <= snd (shortest_digits fuel ndig m e n d p) <= K + 1500.
Proof.
  intros HK Hn Hp.
  assert (Hemit : forall ndig c, 1 <= ndig <= 17 -> 0 <= c <= 2 ^ (K + 1133) ->
            fits (K + 1136) (strip_trailing_zeros (str_int c)) /\
            -400 <= p + (Z.of_nat (String.length (str_int c)) - ndig) <= K + 1500).
  { intros ndig c Hnd Hc.
    assert (Hf : fits (K + 1136) (str_int c)).
    { replace (K + 1136) with (K + 1134 + 2) by lia.
      apply (fits_str_int c (K + 1134)); [|lia].
      rewrite Z.abs_eq by lia. rewrite (Z.pow_add_r 2 K 1134) by lia.
      rewrite (Z.pow_add_r 2 K 1133) in Hc by lia.
      assert (0 < 2 ^ K) by (apply Z.pow_pos_nonneg; lia).
      change (2 ^ 1134) with (2 * 2 ^ 1133).
      assert (0 < 2 ^ 1133) by reflexivity. nia. }
    split; [apply fits_strip_trailing_zeros, Hf|].
    destruct Hf as [_ Hl]. lia. }
  induction fuel as [|fuel IH]; intros ndig Hnd Hfuel.
  - cbn [shortest_digits fst snd].
    pose proof (candidate_bound n d K (p - ndig) HK Hn ltac:(lia)) as Hlo.
    set (yn := if 0 <=? p - ndig then n else n * 10 ^ (- (p - ndig))) in *.
    set (yd := if 0 <=? p - ndig then Zpos d * 10 ^ (p - ndig) else Zpos d) in *.
    assert (Hyd : 0 < yd).
    { unfold yd. destruct (0 <=? p - ndig) eqn:E; [|lia].
      apply Z.leb_le in E.
      assert (0 < 10 ^ (p - ndig)) by (apply Z.pow_pos_nonneg; lia). nia. }
    pose proof (round_half_even_range yn (Z.to_pos yd)) as Hr.
    rewrite Z2Pos.id in Hr by exact Hyd.
    apply Hemit; lia.
  - cbn [shortest_digits].
    pose proof (candidate_bound n d K (p - ndig) HK Hn ltac:(lia)) as Hlo.
    set (yn := if 0 <=? p - ndig then n else n * 10 ^ (- (p - ndig))) in *.
    set (yd := if 0 <=? p - ndig then Zpos d * 10 ^ (p - ndig) else Zpos d) in *.
    assert (Hyd : 0 < yd).
    { unfold yd. destruct (0 <=? p - ndig) eqn:E; [|lia].
      apply Z.leb_le in E.
      assert (0 < 10 ^ (p - ndig)) by (apply Z.pow_pos_nonneg; lia). nia. }
    pose proof (round_half_even_range yn (Z.to_pos yd)) as Hr.
    rewrite Z2Pos.id in Hr by exact Hyd.
    rewrite Nat2Z.inj_succ in Hfuel.
    destruct (same_magnitude (float_of_decimal (Z.to_pos (yn / yd)) (p - ndig)) m e),
             (same_magnitude (float_of_decimal (Z.to_pos (yn / yd + 1)) (p - ndig)) m e);
      cbn [fst snd]; try (apply Hemit; lia).
    apply IH; lia.
Qed.

Lemma fits_str_float (K : Z) (f : spec_float) :
  sized K f -> 0 <= K -> fits (3 * K + 6000) (str_float f).
Proof.
  intros Hf HK. destruct f as [s|s| |s m e]; cbn [sized] in Hf; try tauto.
  - destruct s; (eapply fits_weaken; [split; [reflexivity | apply Z.le_refl] | cbn [str_float String.length]; lia]).
  - unfold str_float.
    destruct (ratio_of_finite_bound m e K HK Hf) as [Hn0 Hn].
    destruct (ratio_of_finite m e) as [n d]. cbn [fst snd] in Hn0, Hn.
    pose proof (decpt_of_range n d) as Hp.
    assert (Hfuel : 1 + Z.of_nat 16 <= 17) by (change (Z.of_nat 16) with 16; lia).
    destruct (shortest_digits_fits 16 m e n d (decpt_of n d) K HK ltac:(lia) Hp
                1 ltac:(lia) Hfuel) as [Hds Hdp].
    destruct (shortest_digits 16 1 m e n d (decpt_of n d)) as [ds decpt].
    cbn [fst snd] in Hds, Hdp.
    pose proof (fits_format_repr ds decpt _ _ Hds Hdp) as Hr.
    eapply fits_weaken;
      [apply fits_append; [|exact Hr];
       instantiate (1 := 1); destruct s; split; (reflexivity || (cbn; lia))|].
    lia.
Qed.

Lemma fits_py_str (K : Z) (v : pynum) :
  num_sized K v -> 0 <= K -> fits (3 * K + 6000) (py_str v).
Proof.
  intros Hv HK. destruct v as [z|f]; cbn [num_sized py_str] in *.
  - eapply fits_weaken; [apply (fits_str_int z K); assumption | lia].
  - apply fits_str_float; assumption.
Qed.

(** ** The timestamp *)

Lemma fits_format_02d (n : Z) : 0 <= n < 65536 -> fits 19 (format_02d n).
Proof.
  intros Hn. unfold format_02d.
  apply (fits_append 1 18).
  - destruct ((0 <=? n) && (n <? 10))%bool; split; (reflexivity || (cbn; lia)).
  - apply (fits_str_int n 16); [|lia]. rewrite Z.abs_eq by lia.
    change (2 ^ 16) with 65536. lia.
Qed.

Lemma fits_format_timestamp (year month day hours minutes seconds : Z) :
  0 <= year < 65536 -> 0 <= month < 65536 -> 0 <= day < 65536 ->
  0 <= hours < 65536 -> 0 <= minutes < 65536 -> 0 <= seconds < 65536 ->
  fits 200 (format_timestamp year month day hours minutes seconds).
Proof.
  intros Hy Hmo Hd Hh Hmi Hs. unfold format_timestamp.
  assert (H1 : forall s, (s = "-"%string \/ s = " "%string \/ s = ":"%string) -> fits 1 s).
  { intros s [-> | [-> | ->]]; split; (reflexivity || (cbn; lia)). }
  eapply fits_weaken;
    [apply fits_append; [apply (fits_str_int year 16); [rewrite Z.abs_eq by lia;
                           change (2 ^ 16) with 65536; lia | lia]|];
     repeat (apply fits_append; [apply H1; auto|];
             first [apply fits_append; [apply fits_format_02d; assumption|]
                   |apply fits_format_02d; assumption])|].
  lia.
Qed.

(** ** The decoder *)

Lemma glucose_fields_sized (u : bool) (val : pynum) (g : Z * pynum) :
  num_sized 39 val -> glucose_fields u val = Ok g ->
  Z.abs (fst g) < 2 ^ 200 /\ num_sized 200 (snd g).
Proof.
  intros Hval. unfold glucose_fields. destruct u.
  - destruct (py_mul_sized 39 17 val (PyInt 100000) Hval) as (x & -> & Hx);
      [cbn; lia | lia ..|]. cbn [rbind].
    destruct (py_round_sized _ x Hx) as (mg & -> & Hmg); [lia|]. cbn [rbind].
    destruct (py_truediv_c_sized _ mg Hmg) as (q & -> & Hq); [lia|]. cbn [rbind].
    destruct (py_round_ndigits_sized _ q Hq) as (mm & -> & Hmm); [lia|]. cbn [rbind].
    intros [= <-]. cbn [fst snd]. split.
    + eapply Z.lt_le_trans; [exact Hmg|]. apply Z.pow_le_mono_r; lia.
    + destruct mm as [z|f]; cbn [num_sized] in *.
      * eapply Z.lt_le_trans; [exact Hmm|]. apply Z.pow_le_mono_r; lia.
      * eapply sized_weaken; [exact Hmm | lia].
  - destruct (py_mul_sized 39 10 val (PyInt 1000) Hval) as (x & -> & Hx);
      [cbn; lia | lia ..|]. cbn [rbind].
    destruct (py_round_ndigits_sized _ x Hx) as (mm & -> & Hmm); [lia|]. cbn [rbind].
    destruct (py_mul_sized _ 5 mm c_18_0182 Hmm) as (y & -> & Hy);
      [rewrite c_18_0182_value; cbn; lia | lia ..|]. cbn [rbind].
    destruct (py_round_sized _ y Hy) as (mg & -> & Hmg); [lia|]. cbn [rbind].
    intros [= <-]. cbn [fst snd]. split.
    + eapply Z.lt_le_trans; [exact Hmg|]. apply Z.pow_le_mono_r; lia.
    + destruct mm as [z|f]; cbn [num_sized] in *.
      * eapply Z.lt_le_trans; [exact Hmm|]. apply Z.pow_le_mono_r; lia.
      * eapply sized_weaken; [exact Hmm | lia].
Qed.

Lemma byte_below_65536 (b : byte) : 0 <= byte_val b < 65536.
Proof. pose proof (byte_val_range b). lia. Qed.

(** The three texts of a reading that the decoder returns have no
    carriage return and are far below the field limit of the reader. *)
Lemma reading_reads_back (data : list byte) (r : reading) :
  parse_glucose data = Ok r ->
  reads_back (dt_str r) = true /\
  reads_back (str_int (mgdl r)) = true /\
  reads_back (py_str (mmol r)) = true.
Proof.
  intros Hp.
  destruct (accepted_payload data r Hp)
    as (f & s1 & s2 & yl & yh & mo & d & h & mi & s & tail & raw & val & g
        & _ & Hraw & Hval & Hg & ->).
  cbn [dt_str mgdl mmol].
  assert (Hrange : 0 <= raw < 65536).
  { destruct (firstn 2 (if Z.testbit (byte_val f) 0 then skipn 2 tail else tail))
      as [|lo [|hi [|x l]]]; try discriminate.
    rewrite unpack_H_value in Hraw. injection Hraw as <-. apply word_range. }
  destruct (sfloat_value_sized raw Hrange) as (val' & Hval' & Hsized).
  rewrite Hval in Hval'. injection Hval' as <-.
  destruct (glucose_fields_sized _ val g Hsized Hg) as [Hmg Hmm].
  repeat split.
  - eapply fits_reads_back;
      [apply fits_format_timestamp; try apply byte_below_65536; apply word_range
      |unfold field_limit; lia].
  - eapply fits_reads_back;
      [apply (fits_str_int _ 200); [exact Hmg | lia] | unfold field_limit; lia].
  - eapply fits_reads_back;
      [apply (fits_py_str 200); [exact Hmm | lia] | unfold field_limit; lia].
Qed.


(* ------------------------------------------------------------------ *)
(** * The file and the cache agree *)

Lemma restart_agrees_store (w w' : world) :
  store_of w' = store_of w -> restart_agrees w -> restart_agrees w'.
Proof.
  unfold store_of, restart_agrees, disk_of. intros H. injection H as Hc Hf.
  now rewrite Hc, Hf.
Qed.

Lemma load_saved_reading (ts g m : string) :
  reads_back ts = true -> reads_back g = true -> reads_back m = true ->
  load_csv (FileText (csv_text [csv_header; [ts; g; m]]) Exhausted) =
  [mkLoaded (Some ts) (Some g) (Some m)].
Proof.
  intros Ht Hg Hm. unfold load_csv. rewrite reader_reads_rows.
  - reflexivity.
  - cbn [forallb]. rewrite Ht, Hg, Hm. reflexivity.
Qed.

(** The world after the handler took an accepted payload and wrote it. *)
Lemma handler_commits (data : list byte) (r : reading) (w : world) :
  parse_glucose data = Ok r ->
  readings_cache (snd (notification_handler IoOk data w)) =
    [mkRow (dt_str r) (str_int (mgdl r)) (py_str (mmol r))] /\
  csv_file (snd (notification_handler IoOk data w)) =
    Some [csv_header; [dt_str r; str_int (mgdl r); py_str (mmol r)]].
Proof.
  intros Hp. rewrite (handler_on_accepted IoOk data r w Hp).
  unfold try_except. rewrite save_reading_ok. split; reflexivity.
Qed.

Lemma handler_keeps_restart_agrees (io : io_outcome) (data : list byte) (w : world) :
  is_torn_write io = false ->
  restart_agrees w -> restart_agrees (snd (notification_handler io data w)).
Proof.
  intros Hio Hw.
  destruct (parse_glucose data) as [r|e] eqn:Hp.
  - destruct io as [|e|e]; [| |discriminate].
    + destruct (handler_commits data r w Hp) as [Hc Hf].
      destruct (reading_reads_back data r Hp) as (Ht & Hg & Hm).
      unfold restart_agrees, disk_of. rewrite Hc, Hf.
      apply load_saved_reading; assumption.
    + refine (restart_agrees_store w _ _ Hw).
      rewrite (handler_on_accepted _ data r w Hp). unfold try_except.
      cbn. destruct (is_Exception e); reflexivity.
  - refine (restart_agrees_store w _ _ Hw).
    rewrite (handler_on_parse_error io data w e Hp (parse_error_is_Exception data e Hp)).
    reflexivity.
Qed.

Lemma deliver_keeps_restart_agrees (ns : list (io_outcome * list byte)) :
  forallb (fun n => negb (is_torn_write (fst n))) ns = true ->
  forall w, restart_agrees w -> restart_agrees (snd (deliver ns w)).
Proof.
  induction ns as [|[io data] ns IH]; cbn [forallb deliver fst]; intros H w Hw.
  - exact Hw.
  - apply andb_true_iff in H as [Hio Hns]. apply negb_true_iff in Hio.
    pose proof (handler_keeps_restart_agrees io data w Hio Hw) as H1.
    unfold bind. destruct (notification_handler io data w) as [[[]|e] w1];
      cbn [snd] in *; [apply IH; assumption | exact H1].
Qed.

Lemma pass_keeps_restart_agrees (sc : script) (w : world) :
  no_torn_write sc = true ->
  restart_agrees w -> restart_agrees (snd (ble_iteration sc w)).
Proof.
  intros Hsc Hw.
  refine (restart_agrees_store _ _ (pass_store sc w) _).
  destruct (reached_dwell sc); [|exact Hw].
  apply deliver_keeps_restart_agrees; assumption.
Qed.

(** X17: a restart shows the reading that was just decoded: after the
    handler has taken an accepted payload and written the file,
    [load_csv] finds exactly one entry, with the timestamp and the two
    glucose texts of that reading, which is also what the cache holds. *)
Theorem accepted_reading_survives_restart (data : list byte) (r : reading) (w : world) :
  parse_glucose data = Ok r ->
  load_csv (disk_of (snd (notification_handler IoOk data w))) =
    [mkLoaded (Some (dt_str r)) (Some (str_int (mgdl r))) (Some (py_str (mmol r)))] /\
  restart_agrees (snd (notification_handler IoOk data w)).
Proof.
  intros Hp.
  destruct (handler_commits data r w Hp) as [Hc Hf].
  destruct (reading_reads_back data r Hp) as (Ht & Hg & Hm).
  unfold restart_agrees, disk_of. rewrite Hc, Hf. cbn [map loaded_of_row row_timestamp row_mgdl row_mmol].
  split; apply load_saved_reading; assumption.
Qed.

Lemma accepted_reading_survives_restart_witness :
  load_csv (disk_of (snd (notification_handler IoOk sample_payload initial_world))) =
    [mkLoaded (Some (dt_str sample_reading)) (Some (str_int (mgdl sample_reading)))
       (Some (py_str (mmol sample_reading)))] /\
  restart_agrees (snd (notification_handler IoOk sample_payload initial_world)).
Proof.
  apply (accepted_reading_survives_restart sample_payload sample_reading initial_world).
  vm_compute. reflexivity.
Defined.

(** X18: the file and the cache stay in step.  If a restart would show
    what is shown now, it still would after any number of passes of the
    loop, whatever the peer and the radio do and whether or not the loop
    is still running, as long as no write fails after the file was
    truncated. *)
Theorem loop_keeps_file_and_cache_in_step (scripts : list script) (w : world) :
  forallb no_torn_write scripts = true ->
  restart_agrees w ->
  restart_agrees (loop_world (ble_loop scripts w)).
Proof.
  intros Hs Hw. unfold ble_loop.
  assert (H0 : restart_agrees (log (EPrint "--- Background Bluetooth Service Started ---") w))
    by (refine (restart_agrees_store w _ _ Hw); reflexivity).
  revert H0. generalize (log (EPrint "--- Background Bluetooth Service Started ---") w).
  clear w Hw.
  induction scripts as [|sc scripts IH]; intros w Hw; cbn [ble_loop_from].
  - exact Hw.
  - cbn [forallb] in Hs. apply andb_true_iff in Hs as [Hsc Hrest].
    pose proof (pass_keeps_restart_agrees sc w Hsc Hw) as H1.
    destruct (ble_iteration sc w) as [[[]|e] w1]; cbn [snd loop_world] in *.
    + apply IH; assumption.
    + exact H1.
Qed.

Lemma loop_keeps_file_and_cache_in_step_witness :
  restart_agrees (loop_world (ble_loop [syncing_script; failing_connect_script] initial_world)).
Proof.
  apply (loop_keeps_file_and_cache_in_step [syncing_script; failing_connect_script]
           initial_world); reflexivity.
Defined.
